(** * ISON (ison-ts): the parser, the serializer and the ISONL codec

    A shallow embedding of [ison-ts/src/index.ts]: the document model
    ([Reference], [Value], [Row], [Block], [Document]), the recursive-descent
    [Parser], the [Serializer], [ISONLParser] and [ISONLSerializer], followed
    by the properties of the notation that hold, or fail, on that code.

    Conventions of the embedding.
    - A JavaScript string is a [string]: a sequence of code units, here the
      8-bit ones (Latin-1 text).
    - [undefined] / [null] results of the string API are [None]; a thrown
      [ISONSyntaxError] is [Throw e], where [e] is the message of the error
      without the prefix [Line N:] that the errors of [Parser] carry: the
      line counter of [Parser] is not part of the model.  Where two texts
      whose lines are numbered differently are compared, the theorem is
      about the documents they give, not about the errors.
    - A [Row] is a JavaScript object used as a dictionary: a [gmap] from
      field name to value that holds the properties of the object itself.
      The parsers make a row with [{}] and fill it by assignment, which
      [Obj.assign] models with the accessor [__proto__] that such an object
      inherits.  The serializers read [row[f]]: for a property of the row this
      is the lookup in the [gmap]; for a name that the row lacks the model
      reads [undefined], which is what the code reads unless the name is that
      of an inherited member ([toString], [constructor], ...), so that the
      properties of the serializers below are stated for rows that have the
      fields they are read at.
    - A [number] is kept as an exact decimal [num_digits * 10^-num_scale];
      binary64 rounding and exponent notation are outside the model, which is
      exact for literals of at most 15 significant digits and of a magnitude
      that [toString] prints in positional notation.
    - A loop whose iterations are not structural takes a fuel; the entry
      points give it the length of the text, which is enough ([parse_total])
      and beyond which the outcome does not change ([parseBlocks_fuel]). *)

From Stdlib Require Import ZArith String Ascii List Lia Bool.
From stdpp Require Import base option list strings gmap pretty.

Local Open Scope string_scope.

(* ===================================================================== *)
(** ** The parts of the JavaScript string API the code uses               *)
(* ===================================================================== *)

Module Js.

Definition TAB : ascii := Eval cbv in ascii_of_nat 9.
Definition LF : ascii := Eval cbv in ascii_of_nat 10.
Definition CR : ascii := Eval cbv in ascii_of_nat 13.
Definition SPACE : ascii := Eval cbv in ascii_of_nat 32.
Definition DQUOTE : ascii := Eval cbv in ascii_of_nat 34.
Definition HASH : ascii := Eval cbv in ascii_of_nat 35.
Definition MINUS : ascii := Eval cbv in ascii_of_nat 45.
Definition DOT : ascii := Eval cbv in ascii_of_nat 46.
Definition COLON : ascii := Eval cbv in ascii_of_nat 58.
Definition BACKSLASH : ascii := Eval cbv in ascii_of_nat 92.
Definition UNDERSCORE : ascii := Eval cbv in ascii_of_nat 95.
Definition PIPE : ascii := Eval cbv in ascii_of_nat 124.

(** One-character string, as in the literal ["\n"]. *)
Definition str (c : ascii) : string := String c "".

(** [s.length] *)
Definition length (s : string) : nat := String.length s.

(** ECMAScript WhiteSpace and LineTerminator code units below 256: what
    [trim()] strips and what the regex class [\s] matches. *)
Definition isWhiteSpace (c : ascii) : bool :=
  let n := N_of_ascii c in
  (((9 <=? n) && (n <=? 13)) || (n =? 32) || (n =? 160))%N.

(** The regex class [\d]. *)
Definition isDigit (c : ascii) : bool :=
  let n := N_of_ascii c in ((48 <=? n) && (n <=? 57))%N.

(** The regex class [[a-z]]. *)
Definition isLower (c : ascii) : bool :=
  let n := N_of_ascii c in ((97 <=? n) && (n <=? 122))%N.

(** The regex class [[A-Z_]]. *)
Definition isUpperOrUnderscore (c : ascii) : bool :=
  let n := N_of_ascii c in (((65 <=? n) && (n <=? 90)) || (n =? 95))%N.

Fixpoint trimStart (s : string) : string :=
  match s with
  | "" => ""
  | String c r => if isWhiteSpace c then trimStart r else s
  end.

Fixpoint trimEnd (s : string) : string :=
  match s with
  | "" => ""
  | String c r =>
      match trimEnd r with
      | "" => if isWhiteSpace c then "" else str c
      | r' => String c r'
      end
  end.

(** [s.trim()] *)
Definition trim (s : string) : string := trimEnd (trimStart s).

(** [s.indexOf(c)] for a one-character needle; [None] is [-1]. *)
Fixpoint indexOf (c : ascii) (s : string) : option nat :=
  match s with
  | "" => None
  | String d r => if Ascii.eqb d c then Some 0 else S <$> indexOf c r
  end.

(** [s.substring(0, n)] *)
Fixpoint substringTo (n : nat) (s : string) : string :=
  match n, s with
  | S n', String c r => String c (substringTo n' r)
  | _, _ => ""
  end.

(** [s.substring(n)] *)
Fixpoint substringFrom (n : nat) (s : string) : string :=
  match n, s with
  | S n', String _ r => substringFrom n' r
  | _, _ => s
  end.

(** [s.startsWith(p)] *)
Fixpoint startsWith (p s : string) : bool :=
  match p, s with
  | "", _ => true
  | String a p', String b s' => Ascii.eqb a b && startsWith p' s'
  | String _ _, "" => false
  end.

(** [s.includes(c)] for a one-character needle. *)
Fixpoint includes (c : ascii) (s : string) : bool :=
  match s with
  | "" => false
  | String d r => Ascii.eqb d c || includes c r
  end.

(** [s.split(sep)] for a one-character separator: never the empty list. *)
Fixpoint split (sep : ascii) (s : string) : list string :=
  match s with
  | "" => [""]
  | String c r =>
      if Ascii.eqb c sep then "" :: split sep r
      else match split sep r with
           | h :: t => String c h :: t
           | [] => [str c]
           end
  end.

(** [s.split(/\s+/)]: cut at every maximal run of white space.  The flag
    tells whether the previous code unit was white space, so that a run
    makes one cut. *)
Fixpoint splitWhiteSpace_go (inRun : bool) (s : string) : list string :=
  match s with
  | "" => [""]
  | String c r =>
      if isWhiteSpace c then
        if inRun then splitWhiteSpace_go true r
        else "" :: splitWhiteSpace_go true r
      else match splitWhiteSpace_go false r with
           | h :: t => String c h :: t
           | [] => [str c]
           end
  end.

Definition splitWhiteSpace (s : string) : list string :=
  splitWhiteSpace_go false s.

(** [parts.join(sep)] *)
Definition join (sep : string) (parts : list string) : string :=
  String.concat sep parts.

(** [s.replace(/c/g, by)] for a one-character pattern. *)
Fixpoint replaceAll (c : ascii) (by_ : string) (s : string) : string :=
  match s with
  | "" => ""
  | String d r =>
      if Ascii.eqb d c then by_ +:+ replaceAll c by_ r
      else String d (replaceAll c by_ r)
  end.

Fixpoint spaces (n : nat) : string :=
  match n with
  | O => ""
  | S n' => String SPACE (spaces n')
  end.

(** [s.padEnd(n)] *)
Definition padEnd (n : nat) (s : string) : string :=
  s +:+ spaces (n - length s).

(** [s.toUpperCase()], as the code units of the result.  On Latin-1 text
    three letters leave the range: [U+00B5] becomes [U+039C], [U+00DF]
    becomes ["SS"] and [U+00FF] becomes [U+0178]. *)
Definition upperUnits (c : ascii) : list N :=
  let n := N_of_ascii c in
  if ((97 <=? n) && (n <=? 122))%N then [(n - 32)%N]
  else if (n =? 181)%N then [924%N]
  else if (n =? 223)%N then [83%N; 83%N]
  else if ((224 <=? n) && (n <=? 254) && negb (n =? 247))%N then [(n - 32)%N]
  else if (n =? 255)%N then [376%N]
  else [n].

Fixpoint toUpperCase (s : string) : list N :=
  match s with
  | "" => []
  | String c r => upperUnits c ++ toUpperCase r
  end.

Fixpoint units (s : string) : list N :=
  match s with
  | "" => []
  | String c r => N_of_ascii c :: units r
  end.

(** [s === s.toUpperCase()] *)
Definition isOwnUpperCase (s : string) : bool :=
  bool_decide (units s = toUpperCase s).

(** Truthiness of a string: [!s] is [true] exactly for [""]. *)
Definition isEmpty (s : string) : bool :=
  match s with "" => true | _ => false end.

End Js.

(* ===================================================================== *)
(** ** Regular expressions of the source, as recognisers                  *)
(* ===================================================================== *)

Module Re.

Fixpoint all (p : ascii → bool) (s : string) : bool :=
  match s with
  | "" => true
  | String c r => p c && all p r
  end.

(** [^\d+$] *)
Definition digits1 (s : string) : bool :=
  negb (Js.isEmpty s) && all Js.isDigit s.

(** The optional sign of [-?]. *)
Definition afterSign (s : string) : string :=
  match s with
  | String c r => if Ascii.eqb c Js.MINUS then r else s
  | "" => ""
  end.

(** [/^-?\d+$/] *)
Definition isInteger (s : string) : bool := digits1 (afterSign s).

(** [/^-?\d+\.\d+$/]: digits hold no dot, so the first dot is the one of
    the pattern. *)
Definition isDecimal (s : string) : bool :=
  let r := afterSign s in
  match Js.indexOf Js.DOT r with
  | Some i => digits1 (Js.substringTo i r) && digits1 (Js.substringFrom (S i) r)
  | None => false
  end.

(** [/^-?\d+(\.\d+)?$/] *)
Definition isNumeric (s : string) : bool := isInteger s || isDecimal s.

Fixpoint afterLowers (s : string) : string :=
  match s with
  | String c r => if Js.isLower c then afterLowers r else s
  | "" => ""
  end.

(** [/^[a-z]+\./], matched at the start of the line only. *)
Definition isHeaderLike (s : string) : bool :=
  match s with
  | String c r =>
      Js.isLower c &&
      match afterLowers r with
      | String d _ => Ascii.eqb d Js.DOT
      | "" => false
      end
  | "" => false
  end.

(** [/^[A-Z_]+$/] *)
Definition isUpperWord (s : string) : bool :=
  negb (Js.isEmpty s) && all Js.isUpperOrUnderscore s.

End Re.

(* ===================================================================== *)
(** ** Types                                                              *)
(* ===================================================================== *)

(** [class Reference]: [type] is the optional second constructor argument. *)
Record Reference := mkReference { ref_id : string; ref_type : option string }.

Module Ref.

(** [isRelationship()]; [!this.type] holds of [undefined] and of the empty
    string. *)
Definition isRelationship (r : Reference) : bool :=
  match ref_type r with
  | None => false
  | Some t =>
      if Js.isEmpty t then false
      else Js.isOwnUpperCase t && Re.isUpperWord t
  end.

Definition getNamespace (r : Reference) : option string :=
  if isRelationship r then None else ref_type r.

Definition relationshipType (r : Reference) : option string :=
  if negb (isRelationship r) then None else ref_type r.

Definition toIson (r : Reference) : string :=
  match ref_type r with
  | Some t =>
      if Js.isEmpty t then Js.str Js.COLON +:+ ref_id r
      else Js.str Js.COLON +:+ t +:+ Js.str Js.COLON +:+ ref_id r
  | None => Js.str Js.COLON +:+ ref_id r
  end.

End Ref.

(** A JavaScript [number] read from a decimal literal: the value
    [num_digits * 10 ^ (- num_scale)], with no trailing zero in
    [num_digits] when [num_scale] is positive, so that equal values are equal
    records ([1.0 === 1]). *)
Record number := mkNumber { num_digits : Z; num_scale : nat }.

Module Num.

Fixpoint digitsValue (acc : N) (s : string) : N :=
  match s with
  | "" => acc
  | String c r => digitsValue (acc * 10 + (N_of_ascii c - 48))%N r
  end.

Fixpoint normalize (fuel : nat) (m : Z) (k : nat) : number :=
  match fuel, k with
  | S fuel', S k' =>
      if (m mod 10 =? 0)%Z then normalize fuel' (m / 10)%Z k'
      else mkNumber m k
  | _, _ => mkNumber m k
  end.

Definition signed (token : string) (n : N) : Z :=
  if Js.startsWith "-" token then (- Z.of_N n)%Z else Z.of_N n.

(** [parseInt(token, 10)], for a token that matches [/^-?\d+$/]. *)
Definition parseInt (token : string) : number :=
  mkNumber (signed token (digitsValue 0 (Re.afterSign token))) 0.

(** [parseFloat(token)], for a token that matches [/^-?\d+\.\d+$/]. *)
Definition parseFloat (token : string) : number :=
  let r := Re.afterSign token in
  match Js.indexOf Js.DOT r with
  | Some i =>
      let frac := Js.substringFrom (S i) r in
      let m := digitsValue 0 (Js.substringTo i r +:+ frac) in
      normalize (Js.length frac) (signed token m) (Js.length frac)
  | None => mkNumber (signed token (digitsValue 0 r)) 0
  end.

Fixpoint zeros (n : nat) : string :=
  match n with
  | O => ""
  | S n' => String "0" (zeros n')
  end.

(** [value.toString()] *)
Definition toString (x : number) : string :=
  let m := num_digits x in
  let k := num_scale x in
  let a := Z.to_N (Z.abs m) in
  let sign := if (m <? 0)%Z then "-" else "" in
  match k with
  | O => sign +:+ pretty a
  | S _ =>
      let p := (10 ^ N.of_nat k)%N in
      let frac := pretty (a mod p)%N in
      sign +:+ pretty (a / p)%N +:+ "." +:+
        zeros (k - Js.length frac) +:+ frac
  end.

End Num.

(** [type Value = null | boolean | number | string | Reference] *)
Inductive Value :=
  | VNull
  | VBool (b : bool)
  | VNumber (n : number)
  | VString (s : string)
  | VRef (r : Reference).

(** [type Row = Record<string, Value>]: the properties of the object
    itself. *)
Abbreviation Row := (gmap string Value).

Module Obj.

(** [row[key] = value] on a row that was made by [{}].  [inherits] tells
    whether [Object.prototype] is still on the prototype chain of the row,
    as it is at first.  While it is, the row inherits the accessor
    [__proto__]: an assignment to that name runs the setter, which makes no
    property of the row; given [null] the setter takes the prototype away,
    given a [Reference] it makes the reference the prototype, through which
    [Object.prototype] is still inherited, and given a boolean, a number or a
    string it does nothing.  Once the prototype is gone, [__proto__] is a
    name like any other.  Every other inherited member is a writable data
    property, so that an assignment to any other name makes, or updates, a
    property of the row itself. *)
Definition assign (inherits : bool) (row : Row) (key : string) (value : Value)
    : bool * Row :=
  if inherits && String.eqb key "__proto__" then
    (match value with VNull => false | _ => true end, row)
  else (inherits, <[key := value]> row).

End Obj.

Record FieldInfo := mkFieldInfo {
  fi_name : string;
  fi_type : option string;
  isComputed : bool
}.

(** [class Block]; the constructor leaves the four arrays empty. *)
Record Block := mkBlock {
  kind : string;
  name : string;
  rows : list Row;
  fields : list string;
  fieldInfo : list FieldInfo;
  summaryRows : list Row
}.

Definition newBlock (kind name : string) : Block :=
  mkBlock kind name [] [] [] [].

Module Blk.

Definition size (block : Block) : nat := List.length (rows block).

(** [this.rows[index]] *)
Definition getRow (index : nat) (block : Block) : option Row :=
  rows block !! index.

Definition getFieldType (fieldName : string) (block : Block) : option string :=
  List.find (λ f, String.eqb (fi_name f) fieldName) (fieldInfo block)
  ≫= fi_type.

Definition getComputedFields (block : Block) : list string :=
  map fi_name (List.filter isComputed (fieldInfo block)).

End Blk.

(** [class Document] *)
Record Document := mkDocument { blocks : list Block }.

Module Doc.

(** [this.blocks.find(b => b.name === name)] *)
Definition getBlock (nm : string) (doc : Document) : option Block :=
  List.find (λ b, String.eqb (name b) nm) (blocks doc).

(** [this.blocks.some(b => b.name === name)] *)
Definition has (nm : string) (doc : Document) : bool :=
  existsb (λ b, String.eqb (name b) nm) (blocks doc).

Definition size (doc : Document) : nat := List.length (blocks doc).

End Doc.

(** What [throw new ISONSyntaxError(message, line)] carries: the [message]
    argument.  [Parser] passes its line counter as [line], which the
    constructor puts before the message as [Line N:]; the counter is not
    modelled, so that an error of the model stands for the errors of the
    code with this message, at any line.  [ISONLParser] passes no line. *)
Inductive ISONSyntaxError :=
  | InvalidBlockHeader (headerLine : string)
  | UnterminatedString
  | InvalidReference (token : string)
  | InvalidISONLLine (line : string)
  | InvalidISONLHeader (header : string).

(** The outcome of a call: a value, a thrown error, or [OutOfFuel] when a
    loop of the model was given too few iterations.  [OutOfFuel] is not a
    behaviour of the program: the entry points give every loop the length of
    its input, which is enough ([parse_total]). *)
Inductive result (A : Type) :=
  | Ok (a : A)
  | Throw (e : ISONSyntaxError)
  | OutOfFuel.
Arguments Ok {A} a.
Arguments Throw {A} e.
Arguments OutOfFuel {A}.

#[global] Instance result_ret : MRet result := λ A a, Ok a.
#[global] Instance result_bind : MBind result := λ A B f m,
  match m with
  | Ok a => f a
  | Throw e => Throw e
  | OutOfFuel => OutOfFuel
  end.
#[global] Instance result_fmap : FMap result := λ A B f m,
  match m with
  | Ok a => Ok (f a)
  | Throw e => Throw e
  | OutOfFuel => OutOfFuel
  end.

(* ===================================================================== *)
(** ** Parser                                                             *)
(* ===================================================================== *)

(** [class Parser].  The cursor [this.pos] into [this.text] is modelled by
    the text that is left: [this.pos < this.text.length] is "the rest is not
    empty", and a method that moves the cursor returns the new rest. *)
Module Parser.

(** The scan to the next ["\n"] in [readLine]: the line and what follows
    the newline. *)
Fixpoint splitLine (text : string) : string * string :=
  match text with
  | "" => ("", "")
  | String c r =>
      if Ascii.eqb c Js.LF then ("", r)
      else let '(line, rest) := splitLine r in (String c line, rest)
  end.

(** [readLine()]: [None] is [null]. *)
Definition readLine (text : string) : option (string * string) :=
  match text with
  | "" => None
  | _ => let '(line, rest) := splitLine text in Some (Js.trim line, rest)
  end.

(** [peekLine()]: the cursor is restored. *)
Definition peekLine (text : string) : option string :=
  fst <$> readLine text.

Definition isBlank (ch : ascii) : bool :=
  Ascii.eqb ch Js.SPACE || Ascii.eqb ch Js.TAB ||
  Ascii.eqb ch Js.CR || Ascii.eqb ch Js.LF.

(** [skipWhitespaceAndComments()].  [skipComment] is the inner loop that
    runs to the end of a comment line; the newline it stops at is then
    consumed by the outer loop. *)
Fixpoint skipWhitespaceAndComments (text : string) : string :=
  match text with
  | "" => ""
  | String ch r =>
      if isBlank ch then skipWhitespaceAndComments r
      else if Ascii.eqb ch Js.HASH then skipComment r
      else text
  end
with skipComment (text : string) : string :=
  match text with
  | "" => ""
  | String ch r =>
      if Ascii.eqb ch Js.LF then skipWhitespaceAndComments r
      else skipComment r
  end.

(** [skipEmptyLines()]: the same scan, written a second time in the source. *)
Fixpoint skipEmptyLines (text : string) : string :=
  match text with
  | "" => ""
  | String ch r =>
      if Ascii.eqb ch Js.SPACE || Ascii.eqb ch Js.TAB || Ascii.eqb ch Js.CR
      then skipEmptyLines r
      else if Ascii.eqb ch Js.LF then skipEmptyLines r
      else if Ascii.eqb ch Js.HASH then skipEmptyComment r
      else text
  end
with skipEmptyComment (text : string) : string :=
  match text with
  | "" => ""
  | String ch r =>
      if Ascii.eqb ch Js.LF then skipEmptyLines r
      else skipEmptyComment r
  end.

(** [findCommentStart(line)]: [prev] is [line[i-1]], absent at [i = 0]. *)
Fixpoint findCommentStart_from (prev : option ascii) (inQuote : bool)
    (line : string) : option nat :=
  match line with
  | "" => None
  | String c r =>
      let escaped :=
        match prev with
        | Some p => Ascii.eqb p Js.BACKSLASH
        | None => false
        end in
      if Ascii.eqb c Js.DQUOTE && negb escaped then
        S <$> findCommentStart_from (Some c) (negb inQuote) r
      else if Ascii.eqb c Js.HASH && negb inQuote then Some 0
      else S <$> findCommentStart_from (Some c) inQuote r
  end.

Definition findCommentStart (line : string) : option nat :=
  findCommentStart_from None false line.

(** The [switch (next)] of an escape sequence. *)
Definition unescape (next : ascii) : string :=
  if Ascii.eqb next "n" then Js.str Js.LF
  else if Ascii.eqb next "t" then Js.str Js.TAB
  else if Ascii.eqb next "r" then Js.str Js.CR
  else Js.str next.

(** [parseQuotedString(line, start)], from the code unit after the opening
    quote: the string read and the text after the closing quote. *)
Fixpoint parseQuotedString_from (acc : string) (line : string)
    : result (string * string) :=
  match line with
  | "" => Throw UnterminatedString
  | String c r =>
      if Ascii.eqb c Js.BACKSLASH then
        match r with
        | String next r' => parseQuotedString_from (acc +:+ unescape next) r'
        | "" => parseQuotedString_from (acc +:+ Js.str Js.BACKSLASH) r
        end
      else if Ascii.eqb c Js.DQUOTE then Ok (acc, r)
      else parseQuotedString_from (acc +:+ Js.str c) r
  end.

Definition parseQuotedString (afterQuote : string) : result (string * string) :=
  parseQuotedString_from "" afterQuote.

Definition isSpaceOrTab (c : ascii) : bool :=
  Ascii.eqb c Js.SPACE || Ascii.eqb c Js.TAB.

Fixpoint skipSpaces (line : string) : string :=
  match line with
  | String c r => if isSpaceOrTab c then skipSpaces r else line
  | "" => ""
  end.

(** The unquoted token at the start of the line, and the rest. *)
Fixpoint takeUnquoted (line : string) : string * string :=
  match line with
  | "" => ("", "")
  | String c r =>
      if isSpaceOrTab c then ("", line)
      else let '(tok, rest) := takeUnquoted r in (String c tok, rest)
  end.

(** The [while (i < line.length)] loop of [tokenizeLine]. *)
Fixpoint tokenize (fuel : nat) (line : string) : result (list string) :=
  match skipSpaces line with
  | "" => Ok []
  | String c r =>
      match fuel with
      | O => OutOfFuel
      | S fuel' =>
          '(token, rest) ←
            (if Ascii.eqb c Js.DQUOTE then parseQuotedString r
             else Ok (takeUnquoted (String c r)));
          tokens ← tokenize fuel' rest;
          Ok (token :: tokens)
      end
  end.

(** The removal of the inline comment at the head of [tokenizeLine]. *)
Definition stripComment (line : string) : string :=
  match findCommentStart line with
  | Some commentIndex => Js.substringTo commentIndex line
  | None => line
  end.

Definition tokenizeLine (line : string) : result (list string) :=
  let line := stripComment line in
  tokenize (Js.length line) line.

Definition parseReference (token : string) : result Reference :=
  match Js.split Js.COLON (Js.substringFrom 1 token) with
  | [id] => Ok (mkReference id None)
  | [type; id] => Ok (mkReference id (Some type))
  | _ => Throw (InvalidReference token)
  end.

Definition parseValue (token : string) : result Value :=
  if String.eqb token "null" || String.eqb token "~" then Ok VNull
  else if String.eqb token "true" then Ok (VBool true)
  else if String.eqb token "false" then Ok (VBool false)
  else if Js.startsWith ":" token then VRef <$> parseReference token
  else if Re.isInteger token then Ok (VNumber (Num.parseInt token))
  else if Re.isDecimal token then Ok (VNumber (Num.parseFloat token))
  else Ok (VString token).

(** One iteration of the loop over [fieldTokens]. *)
Definition addField (block : Block) (token : string) : Block :=
  match Js.indexOf Js.COLON token with
  | Some colonIndex =>
      let fieldName := Js.substringTo colonIndex token in
      let fieldType := Js.substringFrom (S colonIndex) token in
      mkBlock (kind block) (name block) (rows block)
        (fields block ++ [fieldName])
        (fieldInfo block ++
           [mkFieldInfo fieldName (Some fieldType) (String.eqb fieldType "computed")])
        (summaryRows block)
  | None =>
      mkBlock (kind block) (name block) (rows block)
        (fields block ++ [token])
        (fieldInfo block ++ [mkFieldInfo token None false])
        (summaryRows block)
  end.

(** The loop [for (i = 0; i < block.fields.length && i < values.length; i++)]
    that fills a row by the assignments [row[block.fields[i]] = ...], with
    the flag of [Obj.assign]. *)
Fixpoint fillRow_from (inherits : bool) (row : Row)
    (fields values : list string) : result Row :=
  match fields, values with
  | f :: fields', v :: values' =>
      x ← parseValue v;
      let '(inherits', row') := Obj.assign inherits row f x in
      fillRow_from inherits' row' fields' values'
  | _, _ => Ok row
  end.

(** The loop on a row that was made by [{}]. *)
Definition fillRow (row : Row) (fields values : list string) : result Row :=
  fillRow_from true row fields values.

Definition pushRow (block : Block) (row : Row) : Block :=
  mkBlock (kind block) (name block) (rows block ++ [row])
    (fields block) (fieldInfo block) (summaryRows block).

Definition pushSummaryRow (block : Block) (row : Row) : Block :=
  mkBlock (kind block) (name block) (rows block)
    (fields block) (fieldInfo block) (summaryRows block ++ [row]).

(** The data-row loop of [parseBlock]: the block as filled so far, the
    [inSummary] flag and the rest of the text.  The [peekLine] of the break
    test and the [readLine] that consumes the line read the same line: they
    are one [readLine] here, whose rest is dropped on [break]. *)
Fixpoint parseRows (fuel : nat) (block : Block) (inSummary : bool)
    (text : string) : result (Block * string) :=
  match readLine text with
  | None => Ok (block, text)
  | Some (line, rest) =>
      if Js.isEmpty line || Re.isHeaderLike line then Ok (block, text)
      else
        match fuel with
        | O => OutOfFuel
        | S fuel' =>
            if Js.startsWith "#" line then parseRows fuel' block inSummary rest
            else if String.eqb (Js.trim line) "---" then
              parseRows fuel' block true rest
            else
              values ← tokenizeLine line;
              match values with
              | [] => Ok (block, rest)
              | _ =>
                  row ← fillRow ∅ (fields block) values;
                  if inSummary
                  then parseRows fuel' (pushSummaryRow block row) inSummary rest
                  else parseRows fuel' (pushRow block row) inSummary rest
              end
        end
  end.

(** [parseBlock()]: the block, or [None] for [null], and the rest. *)
Definition parseBlock (text : string) : result (option Block * string) :=
  match readLine text with
  | None => Ok (None, text)
  | Some (headerLine, rest) =>
      if Js.isEmpty headerLine || Js.startsWith "#" headerLine
      then Ok (None, rest)
      else
        match Js.indexOf Js.DOT headerLine with
        | None => Throw (InvalidBlockHeader headerLine)
        | Some dotIndex =>
            let kind := Js.trim (Js.substringTo dotIndex headerLine) in
            let name := Js.trim (Js.substringFrom (S dotIndex) headerLine) in
            if Js.isEmpty kind || Js.isEmpty name
            then Throw (InvalidBlockHeader headerLine)
            else
              let block := newBlock kind name in
              let rest := skipEmptyLines rest in
              match readLine rest with
              | None => Ok (Some block, rest)
              | Some (fieldsLine, rest) =>
                  if Js.isEmpty fieldsLine then Ok (Some block, rest)
                  else
                    fieldTokens ← tokenizeLine fieldsLine;
                    let block := fold_left addField fieldTokens block in
                    '(block, rest) ← parseRows (Js.length rest) block false rest;
                    Ok (Some block, rest)
              end
        end
  end.

Definition pushBlock (doc : Document) (block : option Block) : Document :=
  match block with
  | Some b => mkDocument (blocks doc ++ [b])
  | None => doc
  end.

(** The [while (this.pos < this.text.length)] loop of [parse]. *)
Fixpoint parseBlocks (fuel : nat) (doc : Document) (text : string)
    : result Document :=
  match text with
  | "" => Ok doc
  | _ =>
      match fuel with
      | O => OutOfFuel
      | S fuel' =>
          '(block, rest) ← parseBlock text;
          parseBlocks fuel' (pushBlock doc block) (skipWhitespaceAndComments rest)
      end
  end.

Definition parse (text : string) : result Document :=
  parseBlocks (Js.length text) (mkDocument []) (skipWhitespaceAndComments text).

End Parser.

(** [parse(text)] and its alias [loads(text)]. *)
Definition parse (text : string) : result Document := Parser.parse text.
Definition loads (text : string) : result Document := parse text.

(* ===================================================================== *)
(** ** Serializer                                                         *)
(* ===================================================================== *)

(** [class Serializer]; [alignColumns] is the constructor argument. *)
Module Serializer.

(** The [needsQuotes] test of [serializeString]. *)
Definition needsQuotes (s : string) : bool :=
  Js.includes Js.SPACE s ||
  Js.includes Js.TAB s ||
  Js.includes Js.LF s ||
  Js.includes Js.DQUOTE s ||
  Js.includes Js.BACKSLASH s ||
  String.eqb s "true" ||
  String.eqb s "false" ||
  String.eqb s "null" ||
  Js.startsWith ":" s ||
  Re.isNumeric s.

(** The chain of [replace] calls: backslash, quote, newline, tab, return. *)
Definition escape (s : string) : string :=
  let s := Js.replaceAll Js.BACKSLASH (String Js.BACKSLASH (Js.str Js.BACKSLASH)) s in
  let s := Js.replaceAll Js.DQUOTE (String Js.BACKSLASH (Js.str Js.DQUOTE)) s in
  let s := Js.replaceAll Js.LF (String Js.BACKSLASH "n") s in
  let s := Js.replaceAll Js.TAB (String Js.BACKSLASH "t") s in
  Js.replaceAll Js.CR (String Js.BACKSLASH "r") s.

Definition quoted (s : string) : string :=
  String Js.DQUOTE (escape s +:+ Js.str Js.DQUOTE).

Definition serializeString (s : string) : string :=
  if negb (needsQuotes s) then s else quoted s.

(** [serializeValue(value)]; [None] is the [undefined] of a missing key. *)
Definition serializeValue (value : option Value) : string :=
  match value with
  | None | Some VNull => "null"
  | Some (VBool b) => if b then "true" else "false"
  | Some (VNumber n) => Num.toString n
  | Some (VRef r) => Ref.toIson r
  | Some (VString s) => serializeString s
  end.

(** One pass of the inner loop of [calculateWidths] over a row.  The read
    [row[block.fields[i]]] is the lookup among the properties of the row:
    for a field that the row lacks, this is [undefined] as long as the name
    of the field is not that of a member the row inherits, such as
    [toString], for which the code does not return. *)
Definition widenBy (fields : list string) (widths : list nat) (row : Row)
    : list nat :=
  zip_with (λ f w, Nat.max w (Js.length (serializeValue (row !! f))))
    fields widths.

Definition calculateWidths (block : Block) : list nat :=
  fold_left (widenBy (fields block))
    (rows block ++ summaryRows block)
    (map Js.length (fields block)).

(** [serializeRow]; [row[fields[i]]] is read as in [widenBy]. *)
Definition serializeRow (alignColumns : bool) (row : Row)
    (fields : list string) (widths : list nat) : string :=
  Js.join " "
    (imap (λ i f,
       let str := serializeValue (row !! f) in
       if alignColumns && negb (Nat.eqb (List.length widths) 0)
          && Nat.ltb (S i) (List.length fields)
       then match widths !! i with
            | Some w => Js.padEnd w str
            | None => str
            end
       else str) fields).

Definition fieldDef (fi : FieldInfo) : string :=
  match fi_type fi with
  | Some t =>
      if Js.isEmpty t then fi_name fi
      else fi_name fi +:+ ":" +:+ t
  | None => fi_name fi
  end.

Definition serializeBlock (alignColumns : bool) (block : Block) : string :=
  let header := kind block +:+ "." +:+ name block in
  let fieldDefs := map fieldDef (fieldInfo block) in
  let widths := if alignColumns then calculateWidths block else [] in
  let dataLines :=
    map (λ row, serializeRow alignColumns row (fields block) widths)
      (rows block) in
  let summaryLines :=
    match summaryRows block with
    | [] => []
    | _ =>
        "---" ::
        map (λ row, serializeRow alignColumns row (fields block) widths)
          (summaryRows block)
    end in
  Js.join (Js.str Js.LF)
    ([header; Js.join " " fieldDefs] ++ dataLines ++ summaryLines).

Definition serialize (alignColumns : bool) (doc : Document) : string :=
  Js.join (String Js.LF (Js.str Js.LF))
    (map (serializeBlock alignColumns) (blocks doc)).

End Serializer.

(** [dumps(doc, alignColumns)] *)
Definition dumps (doc : Document) (alignColumns : bool) : string :=
  Serializer.serialize alignColumns doc.

(* ===================================================================== *)
(** ** ISONL                                                              *)
(* ===================================================================== *)

(** [class ISONLParser].  [doc.blocks] and [blockMap] hold the same [Block]
    objects: the list is the store, and the map keeps, for a key, the index
    of its block in the list, so that a row pushed through the map is seen
    in the document. *)
Module ISONLParser.

(** The quoted branch of [tokenizeValues], from the code unit after the
    opening quote.  The end of the line ends the string like a closing
    quote does. *)
Fixpoint readQuoted (acc : string) (line : string) : string * string :=
  match line with
  | "" => (acc, "")
  | String c r =>
      if Ascii.eqb c Js.DQUOTE then (acc, r)
      else if Ascii.eqb c Js.BACKSLASH then
        match r with
        | String next r' => readQuoted (acc +:+ Parser.unescape next) r'
        | "" => readQuoted (acc +:+ Js.str c) r
        end
      else readQuoted (acc +:+ Js.str c) r
  end.

Fixpoint tokenize (fuel : nat) (line : string) : result (list string) :=
  match Parser.skipSpaces line with
  | "" => Ok []
  | String c r =>
      match fuel with
      | O => OutOfFuel
      | S fuel' =>
          let '(token, rest) :=
            if Ascii.eqb c Js.DQUOTE then readQuoted "" r
            else Parser.takeUnquoted (String c r) in
          tokens ← tokenize fuel' rest;
          Ok (token :: tokens)
      end
  end.

Definition tokenizeValues (line : string) : result (list string) :=
  tokenize (Js.length line) line.

Definition parseValue (token : string) : Value :=
  if String.eqb token "null" || String.eqb token "~" then VNull
  else if String.eqb token "true" then VBool true
  else if String.eqb token "false" then VBool false
  else if Js.startsWith ":" token then
    (* [split] never returns the empty array: the last case is dead *)
    match Js.split Js.COLON (Js.substringFrom 1 token) with
    | [id] => VRef (mkReference id None)
    | type :: id :: _ => VRef (mkReference id (Some type))
    | [] => VNull
    end
  else if Re.isInteger token then VNumber (Num.parseInt token)
  else if Re.isDecimal token then VNumber (Num.parseFloat token)
  else VString token.

(** The loop that fills a row, as in [Parser.fillRow_from]. *)
Fixpoint fillRow_from (inherits : bool) (row : Row)
    (fields values : list string) : Row :=
  match fields, values with
  | f :: fields', v :: values' =>
      let '(inherits', row') := Obj.assign inherits row f (parseValue v) in
      fillRow_from inherits' row' fields' values'
  | _, _ => row
  end.

Definition fillRow (row : Row) (fields values : list string) : Row :=
  fillRow_from true row fields values.

Record state := mkState {
  st_blocks : list Block;
  st_blockMap : gmap string nat
}.

(** The body of the [for (const line of text.split("\n"))] loop. *)
Definition parseLine (st : state) (line : string) : result state :=
  let trimmed := Js.trim line in
  if Js.isEmpty trimmed || Js.startsWith "#" trimmed then Ok st
  else
    match Js.split Js.PIPE trimmed with
    | [header; fieldsPart; valuesPart] =>
        match Js.indexOf Js.DOT header with
        | None => Throw (InvalidISONLHeader header)
        | Some dotIndex =>
            let kind := Js.substringTo dotIndex header in
            let name := Js.substringFrom (S dotIndex) header in
            let key := kind +:+ "." +:+ name in
            let '(st, index) :=
              match st_blockMap st !! key with
              | Some index => (st, index)
              | None =>
                  let fields := Js.splitWhiteSpace (Js.trim fieldsPart) in
                  let block := fold_left Parser.addField fields (newBlock kind name) in
                  let index := List.length (st_blocks st) in
                  (mkState (st_blocks st ++ [block])
                     (<[key := index]> (st_blockMap st)), index)
              end in
            values ← tokenizeValues valuesPart;
            Ok (mkState
                  (alter (λ block,
                     Parser.pushRow block (fillRow ∅ (fields block) values))
                     index (st_blocks st))
                  (st_blockMap st))
        end
    | _ => Throw (InvalidISONLLine line)
    end.

Fixpoint parseLines (st : state) (lines : list string) : result state :=
  match lines with
  | [] => Ok st
  | line :: lines' => st' ← parseLine st line; parseLines st' lines'
  end.

Definition parse (text : string) : result Document :=
  st ← parseLines (mkState [] ∅) (Js.split Js.LF text);
  Ok (mkDocument (st_blocks st)).

End ISONLParser.

(** [class ISONLSerializer] *)
Module ISONLSerializer.

Definition needsQuotes (value : string) : bool :=
  Js.includes Js.SPACE value || Js.includes Js.TAB value ||
  Js.includes Js.PIPE value || Js.includes Js.LF value ||
  Js.includes Js.DQUOTE value || String.eqb value "true" ||
  String.eqb value "false" || String.eqb value "null" ||
  Js.startsWith ":" value || Re.isNumeric value.

Definition escape (s : string) : string :=
  let s := Js.replaceAll Js.BACKSLASH (String Js.BACKSLASH (Js.str Js.BACKSLASH)) s in
  let s := Js.replaceAll Js.DQUOTE (String Js.BACKSLASH (Js.str Js.DQUOTE)) s in
  let s := Js.replaceAll Js.LF (String Js.BACKSLASH "n") s in
  Js.replaceAll Js.TAB (String Js.BACKSLASH "t") s.

Definition serializeValue (value : option Value) : string :=
  match value with
  | None | Some VNull => "null"
  | Some (VBool b) => if b then "true" else "false"
  | Some (VNumber n) => Num.toString n
  | Some (VRef r) => Ref.toIson r
  | Some (VString s) =>
      if needsQuotes s then String Js.DQUOTE (escape s +:+ Js.str Js.DQUOTE)
      else s
  end.

Definition blockLines (block : Block) : list string :=
  let header := kind block +:+ "." +:+ name block in
  let fields_ := Js.join " " (map Serializer.fieldDef (fieldInfo block)) in
  map (λ row : Row,
    let values := Js.join " " (map (λ f, serializeValue (row !! f)) (fields block)) in
    header +:+ "|" +:+ fields_ +:+ "|" +:+ values)
    (rows block).

Definition serialize (doc : Document) : string :=
  Js.join (Js.str Js.LF) (concat (map blockLines (blocks doc))).

End ISONLSerializer.

(** [loadsIsonl(text)] and [dumpsIsonl(doc)] *)
Definition loadsIsonl (text : string) : result Document := ISONLParser.parse text.
Definition dumpsIsonl (doc : Document) : string := ISONLSerializer.serialize doc.

(** [isonToIsonl(isonText)] and [isonlToIson(isonlText)]; [dumps] has its
    default [alignColumns = true]. *)
Definition isonToIsonl (isonText : string) : result string :=
  dumpsIsonl <$> parse isonText.
Definition isonlToIson (isonlText : string) : result string :=
  (λ doc, dumps doc true) <$> loadsIsonl isonlText.

(** The type guards; a missing key is [None]. *)
Definition isNull (value : option Value) : bool :=
  match value with Some VNull => true | _ => false end.
Definition isBool (value : option Value) : bool :=
  match value with Some (VBool _) => true | _ => false end.
Definition isInt (value : option Value) : bool :=
  match value with Some (VNumber n) => Nat.eqb (num_scale n) 0 | _ => false end.
Definition isFloat (value : option Value) : bool :=
  match value with Some (VNumber _) => true | _ => false end.
Definition isString (value : option Value) : bool :=
  match value with Some (VString _) => true | _ => false end.
Definition isReference (value : option Value) : bool :=
  match value with Some (VRef _) => true | _ => false end.

(** A text from its lines, for the examples below. *)
Definition text_of_lines (lines : list string) : string :=
  Js.join (Js.str Js.LF) lines.

(** A token in double quotes, for the examples below. *)
Definition in_quotes (s : string) : string :=
  String Js.DQUOTE (s +:+ Js.str Js.DQUOTE).

(* ===================================================================== *)
(** ** The properties, in the words of the specification                  *)
(* ===================================================================== *)

Module Spec.

(** What a round trip has to preserve of a block: kind and name, the
    declared fields and the row values. *)
Definition block_content (b : Block)
    : string * string * list string * list FieldInfo * list Row :=
  (kind b, name b, fields b, fieldInfo b, rows b).

Definition same_content (d1 d2 : Document) : Prop :=
  map block_content (blocks d1) = map block_content (blocks d2).

(** [parse(dumps(d, alignColumns))] gives back the content of [d]. *)
Definition roundtrips (alignColumns : bool) (d : Document) : Prop :=
  ∃ d', parse (dumps d alignColumns) = Ok d' ∧ same_content d' d.

(** A row has a value for every declared field. *)
Definition row_total (fs : list string) (r : Row) : Prop :=
  ∀ f, f ∈ fs → is_Some (r !! f).

(** "An ASCII upper-case letter or underscore". *)
Definition upper_or_underscore (c : ascii) : Prop :=
  (65 ≤ N_of_ascii c ≤ 90)%N ∨ c = Js.UNDERSCORE.

(** "Non-empty and every character is an ASCII upper-case letter or
    underscore". *)
Definition relationship_segment (x : string) : Prop :=
  x ≠ "" ∧ Forall upper_or_underscore (list_ascii_of_string x).

Definition contains (c : ascii) (s : string) : Prop :=
  c ∈ list_ascii_of_string s.

(** The quoting predicate as the specification words it. *)
Definition quoting_as_specified (s : string) : Prop :=
  contains Js.SPACE s ∨ contains Js.TAB s ∨
  contains Js.DQUOTE s ∨ contains Js.LF s ∨
  s = "true" ∨ s = "false" ∨ s = "null" ∨
  (∃ r, s = String Js.COLON r) ∨
  s = "" ∨
  Re.isInteger s = true ∨ Re.isDecimal s = true.

(** The quoting predicate with the backslash, and without the clause on
    the empty string. *)
Definition quoting_with_backslash (s : string) : Prop :=
  contains Js.SPACE s ∨ contains Js.TAB s ∨
  contains Js.DQUOTE s ∨ contains Js.LF s ∨
  contains Js.BACKSLASH s ∨
  s = "true" ∨ s = "false" ∨ s = "null" ∨
  (∃ r, s = String Js.COLON r) ∨
  Re.isInteger s = true ∨ Re.isDecimal s = true.

(** The [|] characters of an ISONL line that are outside double quotes:
    a quote that is not escaped by a backslash opens or closes a quoted
    value. *)
Fixpoint unquotedPipes_from (inQuote escaped : bool) (line : string) : nat :=
  match line with
  | "" => 0
  | String c r =>
      if escaped then unquotedPipes_from inQuote false r
      else if Ascii.eqb c Js.BACKSLASH then unquotedPipes_from inQuote inQuote r
      else if Ascii.eqb c Js.DQUOTE then unquotedPipes_from (negb inQuote) false r
      else if Ascii.eqb c Js.PIPE && negb inQuote
      then S (unquotedPipes_from inQuote false r)
      else unquotedPipes_from inQuote false r
  end.

Definition unquotedPipes (line : string) : nat :=
  unquotedPipes_from false false line.

(** The occurrences of a character, quoted or not. *)
Fixpoint count (c : ascii) (s : string) : nat :=
  match s with
  | "" => 0
  | String d r => if Ascii.eqb d c then S (count c r) else count c r
  end.

(** A row filled from the tokens of one line. *)
Definition from_line (fs : list string) (r : Row) : Prop :=
  ∃ line tokens,
    Parser.tokenizeLine line = Ok tokens ∧ tokens ≠ [] ∧
    Parser.fillRow ∅ fs tokens = Ok r.

(** How a row follows the tokens of its line.  The positions that count
    are those below both the number of fields and the number of tokens.  The
    row is what the loop of the parser makes of the fields and the tokens.
    Under a field name other than [__proto__], it holds the value inferred
    from the token at the last of these positions where the name is declared,
    and so it has an entry for every such name that is declared at one of
    them.  It has no entry under a name that is declared at none of them: a
    field beyond the tokens of the line is left out, not set to [null].
    Under the name [__proto__] it has an entry in one case only: the name is
    declared at two of these positions or more, and the token at one of them,
    which is not the last, is read as [null]; the entry is then the value of
    the token at the last position of the name.  The tokens beyond the fields
    change nothing. *)
Definition filled_from (fs tokens : list string) (r : Row) : Prop :=
  Parser.fillRow ∅ fs tokens = Ok r ∧
  (∀ i f t, fs !! i = Some f → tokens !! i = Some t → f ≠ "__proto__" →
     (∀ j, (i < j < List.length tokens)%nat → fs !! j ≠ Some f) →
     ∃ v, Parser.parseValue t = Ok v ∧ r !! f = Some v) ∧
  (∀ f, f ≠ "__proto__" → f ∈ take (List.length tokens) fs → is_Some (r !! f)) ∧
  (∀ f, f ∉ take (List.length tokens) fs → r !! f = None) ∧
  (∀ v, r !! "__proto__" = Some v ↔
     ∃ i j t u, (i < j)%nat ∧
       fs !! i = Some "__proto__" ∧ tokens !! i = Some t ∧
       Parser.parseValue t = Ok VNull ∧
       fs !! j = Some "__proto__" ∧ tokens !! j = Some u ∧
       Parser.parseValue u = Ok v ∧
       ∀ k, (j < k < List.length tokens)%nat → fs !! k ≠ Some "__proto__") ∧
  Parser.fillRow ∅ fs (take (List.length fs) tokens) = Ok r.

(** A data line [l] of a block with the fields [fs], and its row: a line
    of text that, once trimmed, is not blank, does not look like a header, is
    not a comment and is not the separator, and whose tokens fill [row]. *)
Definition data_line (fs : list string) (l : string) (row : Row) : Prop :=
  Js.includes Js.LF l = false ∧
  Js.isEmpty (Js.trim l) || Re.isHeaderLike (Js.trim l) = false ∧
  Js.startsWith "#" (Js.trim l) = false ∧
  String.eqb (Js.trim (Js.trim l)) "---" = false ∧
  ∃ values,
    Parser.tokenizeLine (Js.trim l) = Ok values ∧ values ≠ [] ∧
    Parser.fillRow ∅ fs values = Ok row.

(** [block] with [rs] pushed to its rows and [ss] to its summary rows. *)
Definition with_rows (block : Block) (rs ss : list Row) : Block :=
  mkBlock (kind block) (name block) (rows block ++ rs)
    (fields block) (fieldInfo block) (summaryRows block ++ ss).

(** The escape of one character, as the chain of [replace] calls of
    [serializeString] leaves it. *)
Definition escape1 (c : ascii) : string :=
  if Ascii.eqb c Js.BACKSLASH then String Js.BACKSLASH (Js.str Js.BACKSLASH)
  else if Ascii.eqb c Js.DQUOTE then String Js.BACKSLASH (Js.str Js.DQUOTE)
  else if Ascii.eqb c Js.LF then String Js.BACKSLASH "n"
  else if Ascii.eqb c Js.TAB then String Js.BACKSLASH "t"
  else if Ascii.eqb c Js.CR then String Js.BACKSLASH "r"
  else Js.str c.

(** A row filled from the tokens of a line of [text]: [l] is one of the
    pieces of [text] between its newlines, and the tokens are those of [l]
    once trimmed. *)
Definition from_line_of (text : string) (fs : list string) (r : Row) : Prop :=
  ∃ l tokens,
    l ∈ Js.split Js.LF text ∧
    Parser.tokenizeLine (Js.trim l) = Ok tokens ∧ tokens ≠ [] ∧
    filled_from fs tokens r.

(** What a line among the rows of a block is: a data line with its row, the
    separator, or a comment. *)
Inductive Item :=
  | Data (row : Row)
  | Separator
  | Comment.

(** The line [l] of a block with the fields [fs] is the item: a data line
    that gives the row; a line that is [---] once trimmed; a line that starts
    with [#] once trimmed. *)
Definition item_line (fs : list string) (l : string) (item : Item) : Prop :=
  match item with
  | Data row => data_line fs l row
  | Separator => Js.includes Js.LF l = false ∧ Js.trim l = "---"
  | Comment =>
      Js.includes Js.LF l = false ∧ Js.startsWith "#" (Js.trim l) = true
  end.

(** The rows of the data lines that come before the first separator. *)
Fixpoint rows_before (items : list Item) : list Row :=
  match items with
  | [] => []
  | Data row :: items' => row :: rows_before items'
  | Separator :: _ => []
  | Comment :: items' => rows_before items'
  end.

(** The items that come after the first separator. *)
Fixpoint after_separator (items : list Item) : list Item :=
  match items with
  | [] => []
  | Separator :: items' => items'
  | _ :: items' => after_separator items'
  end.

(** The rows of all the data lines among the items. *)
Fixpoint data_rows (items : list Item) : list Row :=
  match items with
  | [] => []
  | Data row :: items' => row :: data_rows items'
  | _ :: items' => data_rows items'
  end.

(** The rows of the data lines that come after the first separator,
    whatever lies between them: comments or further separators. *)
Definition rows_after (items : list Item) : list Row :=
  data_rows (after_separator items).

(** The lines that follow the rows of a block end the block: there is none,
    or the first of them is blank or looks like a header once trimmed. *)
Definition ends_block (tail : list string) : Prop :=
  match tail with
  | [] => True
  | l :: _ =>
      Js.includes Js.LF l = false ∧
      Js.isEmpty (Js.trim l) || Re.isHeaderLike (Js.trim l) = true
  end.

End Spec.

(* ===================================================================== *)
(** ** Example inputs                                                     *)
(* ===================================================================== *)

Module Ex.

(** Header [table.t], fields [a b], a row of an empty quoted string and [x]. *)
Definition empty_string_text : string :=
  text_of_lines ["table.t"; "a b"; in_quotes "" +:+ " x"].

(** [table.t / a b c / 1 2] *)
Definition short_row_text : string :=
  text_of_lines ["table.t"; "a b c"; "1 2"].

(** Header [table.t], field [v], rows [true] and [123], both in quotes. *)
Definition quoted_literals_text : string :=
  text_of_lines ["table.t"; "v"; in_quotes "true"; in_quotes "123"].

(** The ISONL line [table.t|v|] followed by a quote and [abc]: the quote
    is never closed. *)
Definition open_quote_isonl : string :=
  "table.t|v|" +:+ Js.str Js.DQUOTE +:+ "abc".

(** The ISONL line [table.t|v|] followed by [x|y] in quotes. *)
Definition quoted_pipe_isonl : string :=
  "table.t|v|" +:+ in_quotes "x|y".

(** [table.t / v / x|y] *)
Definition pipe_text : string :=
  text_of_lines ["table.t"; "v"; "x|y"].

(** [table.t / a / 1 / --- / 2 / 3] *)
Definition two_summary_lines_text : string :=
  text_of_lines ["table.t"; "a"; "1"; "---"; "2"; "3"].

(** [table.t] followed by a blank line and a comment. *)
Definition header_only_text : string :=
  text_of_lines ["table.t"; ""; "# no fields"].

(** Two blocks named [t]. *)
Definition same_name_text : string :=
  text_of_lines ["table.t"; "a"; "1"; ""; "object.t"; "b"; "2"].

Definition doc_of (r : result Document) : Document :=
  match r with
  | Ok d => d
  | _ => mkDocument []
  end.

Definition empty_string_doc : Document := doc_of (parse empty_string_text).

(** Header [table.t], field [a], one row: the string [x#y] in quotes. *)
Definition hash_text : string :=
  text_of_lines ["table.t"; "a"; in_quotes "x#y"].

Definition hash_doc : Document := doc_of (parse hash_text).

Definition short_row_doc : Document := doc_of (parse short_row_text).

Definition short_row_block : Block :=
  hd (newBlock "" "") (blocks short_row_doc).

Definition short_row_row : Row := hd ∅ (rows short_row_block).

(** A block with the one field [a], and the rows of the lines [1], [2] and
    [3] under it. *)
Definition block_a : Block := mkBlock "table" "t" [] ["a"] [mkFieldInfo "a" None false] [].

Definition row_a1 : Row := <["a" := VNumber (mkNumber 1 0)]> ∅.
Definition row_a2 : Row := <["a" := VNumber (mkNumber 2 0)]> ∅.
Definition row_a3 : Row := <["a" := VNumber (mkNumber 3 0)]> ∅.

(** The two blocks of [same_name_text]. *)
Definition first_t : Block :=
  mkBlock "table" "t" [<["a" := VNumber (mkNumber 1 0)]> ∅]
    ["a"] [mkFieldInfo "a" None false] [].

Definition second_t : Block :=
  mkBlock "object" "t" [<["b" := VNumber (mkNumber 2 0)]> ∅]
    ["b"] [mkFieldInfo "b" None false] [].

(** The value a content holds in its first block, first row, under [a]. *)
Definition probe
    (content : list (string * string * list string * list FieldInfo * list Row))
    : option Value :=
  match content with
  | (_, _, _, _, r :: _) :: _ => r !! "a"
  | _ => None
  end.

End Ex.

(* ===================================================================== *)
(** ** The plain object of a document                                      *)
(* ===================================================================== *)

(** The values of the plain object that [toDict] returns: a [Reference]
    becomes the object [{ $ref: id, type }]. *)
Inductive Plain :=
  | PNull
  | PBool (b : bool)
  | PNumber (n : number)
  | PString (s : string)
  | PRef (id : string) (type : option string).

Module Dict.

Definition plain (v : Value) : Plain :=
  match v with
  | VNull => PNull
  | VBool b => PBool b
  | VNumber n => PNumber n
  | VString s => PString s
  | VRef r => PRef (ref_id r) (ref_type r)
  end.

(** [obj[key] = value] on an object that was made by [{}]: the key
    [__proto__] names the prototype of the object, and the assignment makes
    no property. *)
Definition assign {A} (key : string) (value : A) (obj : gmap string A)
    : gmap string A :=
  if String.eqb key "__proto__" then obj else <[key := value]> obj.

(** The loop over [Object.entries(row)]. *)
Definition plainRow (row : Row) : gmap string Plain :=
  map_fold (λ key value obj, assign key (plain value) obj) ∅ row.

(** [toDict()]: the rows of each block under its name; the summary rows are
    left out. *)
Definition toDict (doc : Document) : gmap string (list (gmap string Plain)) :=
  fold_left
    (λ result block, assign (name block) (map plainRow (rows block)) result)
    (blocks doc) ∅.

End Dict.

(* ===================================================================== *)
(** ** Further properties, in the terms of the code                       *)
(* ===================================================================== *)

Module Law.

Local Open Scope nat_scope.
Local Open Scope list_scope.

(** The errors that [Parser] can throw. *)
Definition parser_error (e : ISONSyntaxError) : Prop :=
  match e with
  | InvalidBlockHeader _ | UnterminatedString | InvalidReference _ => True
  | InvalidISONLLine _ | InvalidISONLHeader _ => False
  end.

(** A line that [ISONLParser.parse] skips: blank, or a comment. *)
Definition isonl_skipped (line : string) : bool :=
  Js.isEmpty (Js.trim line) || Js.startsWith "#" (Js.trim line).

(** A line that [ISONLParser.parse] accepts as a record: two [|] in all,
    and a dot before the first of them. *)
Definition isonl_record (line : string) : Prop :=
  Spec.count Js.PIPE (Js.trim line) = 2 ∧
  Js.includes Js.DOT (hd "" (Js.split Js.PIPE (Js.trim line))) = true.

(** The key [kind.name] under which [ISONLParser] files a block. *)
Definition key (b : Block) : string := kind b +:+ "." +:+ name b.

(** The name that [addField] takes from a field token: the text before its
    first colon. *)
Definition fieldName (token : string) : string :=
  match Js.indexOf Js.COLON token with
  | Some colonIndex => Js.substringTo colonIndex token
  | None => token
  end.

(** The [FieldInfo] that [addField] makes of a field token. *)
Definition fieldInfoOf (token : string) : FieldInfo :=
  match Js.indexOf Js.COLON token with
  | Some colonIndex =>
      let fieldType := Js.substringFrom (S colonIndex) token in
      mkFieldInfo (Js.substringTo colonIndex token) (Some fieldType)
        (String.eqb fieldType "computed")
  | None => mkFieldInfo token None false
  end.

(** The invariant of the loop of [ISONLParser.parse]: [blockMap] and
    [doc.blocks] list the same blocks, each under its key. *)
Definition isonl_inv (st : ISONLParser.state) : Prop :=
  (∀ k i, ISONLParser.st_blockMap st !! k = Some i →
     ∃ b, ISONLParser.st_blocks st !! i = Some b ∧ key b = k) ∧
  (∀ i b, ISONLParser.st_blocks st !! i = Some b →
     ISONLParser.st_blockMap st !! key b = Some i).

(** What holds of every block that [ISONLParser.parse] builds. *)
Definition isonl_block (b : Block) : Prop :=
  fields b = map fi_name (fieldInfo b) ∧ fields b ≠ [] ∧
  summaryRows b = [] ∧ rows b ≠ [] ∧
  Forall (λ r, ∃ values, r = ISONLParser.fillRow ∅ (fields b) values) (rows b).

(** The number of rows of a list of blocks. *)
Definition row_count (bs : list Block) : nat :=
  sum_list (map (λ b, List.length (rows b)) bs).

(** [Number.MAX_SAFE_INTEGER]: up to it an integer is a [number] exactly, and
    [toString] prints its digits. *)
Definition MAX_SAFE_INTEGER : Z := 9007199254740991.

(** A code unit that a token can hold anywhere when it is written without
    quotes: no white space, no quote, no [#]. *)
Definition bareChar (c : ascii) : bool :=
  negb (Js.isWhiteSpace c) && negb (Ascii.eqb c Js.DQUOTE) &&
  negb (Ascii.eqb c Js.HASH).

Definition bare (s : string) : bool := negb (Js.isEmpty s) && Re.all bareChar s.

(** The first code unit is not white space; the last one is not. *)
Definition startsTight (s : string) : bool :=
  match s with
  | String c _ => negb (Js.isWhiteSpace c)
  | "" => false
  end.

Fixpoint endsTight (s : string) : bool :=
  match s with
  | "" => false
  | String c "" => negb (Js.isWhiteSpace c)
  | String _ r => endsTight r
  end.

(** A string that [trim()] leaves as it is, and that is not empty. *)
Definition tight (s : string) : bool := startsTight s && endsTight s.

(** The token is read as a string, not as a literal of another type. *)
Definition readsAsString (s : string) : bool :=
  match Parser.parseValue s with
  | Ok (VString _) => true
  | _ => false
  end.

(** A code unit that a line of data can hold: no newline, no [#]. *)
Definition lineChar (c : ascii) : bool :=
  negb (Ascii.eqb c Js.LF) && negb (Ascii.eqb c Js.HASH).

Definition refChar (c : ascii) : bool :=
  bareChar c && negb (Ascii.eqb c Js.COLON).

(** The values of the fragment that is read back: [null], the booleans, the
    safe integers, the strings without [#] that are read as strings and that
    are written in quotes or are bare (not empty, without white space or
    quote), and the references whose parts hold no white space, quote, [#] or
    colon and whose type, if any, is not empty. *)
Definition clean (v : Value) : bool :=
  match v with
  | VNull | VBool _ => true
  | VNumber n =>
      Nat.eqb (num_scale n) 0 && (Z.abs (num_digits n) <=? MAX_SAFE_INTEGER)%Z
  | VString s =>
      readsAsString s && negb (Js.includes Js.HASH s) &&
      (Serializer.needsQuotes s || bare s)
  | VRef r =>
      Re.all refChar (ref_id r) &&
      match ref_type r with
      | None => true
      | Some t => negb (Js.isEmpty t) && Re.all refChar t
      end
  end.

(** The text of the cell of a row under a field. *)
Definition cell (row : Row) (f : string) : string :=
  Serializer.serializeValue (row !! f).

(** A row of the fragment: it has a clean value for each field and nothing
    else, and its first cell does not look like a header or a separator. *)
Definition clean_row (fields : list string) (row : Row) : bool :=
  bool_decide (dom row =@{gset string} list_to_set fields) &&
  forallb (λ f, from_option clean false (row !! f)) fields &&
  negb (Re.isHeaderLike (cell row (hd "" fields))) &&
  negb (String.eqb (cell row (hd "" fields)) "---").

(** A field of the fragment: a bare name without a colon, a type that is
    absent or bare, and the [isComputed] flag that [parseBlock] gives it.
    The name is not [__proto__], which an assignment [row[name] = value]
    does not make a key of the row. *)
Definition clean_field (fi : FieldInfo) : bool :=
  bare (fi_name fi) && negb (Js.includes Js.COLON (fi_name fi)) &&
  negb (String.eqb (fi_name fi) "__proto__") &&
  match fi_type fi with
  | None => negb (isComputed fi)
  | Some t => bare t && Bool.eqb (isComputed fi) (String.eqb t "computed")
  end.

(** A block of the fragment: kind and name are on one line and trimmed, the
    kind has no dot and does not start a comment, there is at least one
    field, [fields] lists the names of [fieldInfo], and fields and rows are
    clean. *)
Definition clean_block (b : Block) : bool :=
  tight (kind b) && tight (name b) &&
  negb (Js.includes Js.LF (kind b)) && negb (Js.includes Js.LF (name b)) &&
  negb (Js.includes Js.DOT (kind b)) && negb (Js.startsWith "#" (kind b)) &&
  negb (bool_decide (fields b = [])) &&
  bool_decide (fields b = map fi_name (fieldInfo b)) &&
  forallb clean_field (fieldInfo b) &&
  forallb (clean_row (fields b)) (rows b) &&
  forallb (clean_row (fields b)) (summaryRows b).

Definition clean_doc (doc : Document) : bool := forallb clean_block (blocks doc).

(** Cells and the spaces that pad each of them, but the last, as a line. *)
Fixpoint line_of (cells : list (string * nat)) : string :=
  match cells with
  | [] => ""
  | [(c, _)] => c
  | (c, k) :: rest => c +:+ Js.spaces k +:+ String Js.SPACE (line_of rest)
  end.

(** What may follow a token on its line: nothing, or a space. *)
Definition boundary (rest : string) : Prop :=
  match rest with
  | "" => True
  | String c _ => c = Js.SPACE
  end.

(** The tokenizer reads [token] off the cell [c], whatever follows it. *)
Definition reads (c token : string) : Prop :=
  ∀ rest fuel, boundary rest → String.length (c +:+ rest) ≤ fuel →
    Parser.tokenize fuel (c +:+ rest) =
    (tokens ← Parser.tokenize fuel rest; Ok (token :: tokens)).

(** The lines of [serializeBlock] and of [serialize]. *)
Definition block_lines (alignColumns : bool) (block : Block) : list string :=
  let widths := if alignColumns then Serializer.calculateWidths block else [] in
  [kind block +:+ "." +:+ name block;
   Js.join " " (map Serializer.fieldDef (fieldInfo block))] ++
  map (λ row, Serializer.serializeRow alignColumns row (fields block) widths)
    (rows block) ++
  match summaryRows block with
  | [] => []
  | _ =>
      "---" ::
      map (λ row, Serializer.serializeRow alignColumns row (fields block) widths)
        (summaryRows block)
  end.

Fixpoint doc_lines (alignColumns : bool) (bs : list Block) : list string :=
  match bs with
  | [] => []
  | [b] => block_lines alignColumns b
  | b :: bs' => block_lines alignColumns b ++ "" :: doc_lines alignColumns bs'
  end.

(** What holds of a field that [parseBlock] declares: the name stops before
    the first colon, and the field is computed exactly when its type is
    [computed]. *)
Definition parsed_field (fi : FieldInfo) : Prop :=
  Js.includes Js.COLON (fi_name fi) = false ∧
  (isComputed fi = true ↔ fi_type fi = Some "computed").

(** What holds of every block that [Parser.parse] builds: kind and name are
    trimmed and not empty, the kind has no dot, [fields] lists the names of
    [fieldInfo], and a row, summary rows included, has values for declared
    fields only. *)
Definition parsed_block (b : Block) : Prop :=
  tight (kind b) = true ∧ tight (name b) = true ∧
  Js.includes Js.DOT (kind b) = false ∧
  fields b = map fi_name (fieldInfo b) ∧
  Forall parsed_field (fieldInfo b) ∧
  Forall (λ r : Row, dom r ⊆@{gset string} list_to_set (fields b))
    (rows b ++ summaryRows b).

(** The [inQuote] flag of [findCommentStart] once it has scanned [line]
    without finding a comment. *)
Fixpoint inQuoteAfter (prev : option ascii) (inQuote : bool) (line : string)
    : bool :=
  match line with
  | "" => inQuote
  | String c r =>
      let escaped :=
        match prev with
        | Some p => Ascii.eqb p Js.BACKSLASH
        | None => false
        end in
      if Ascii.eqb c Js.DQUOTE && negb escaped
      then inQuoteAfter (Some c) (negb inQuote) r
      else inQuoteAfter (Some c) inQuote r
  end.

(** A code unit that an ISONL token can hold anywhere when it is written
    without quotes: no white space, no quote, no [|]. *)
Definition isonlChar (c : ascii) : bool :=
  negb (Js.isWhiteSpace c) && negb (Ascii.eqb c Js.DQUOTE) &&
  negb (Ascii.eqb c Js.PIPE).

Definition isonl_token (s : string) : bool :=
  negb (Js.isEmpty s) && Re.all isonlChar s.

(** The values of the ISONL fragment that is read back: those of [clean]
    without [|]; a string may hold a [#], and it is quoted by
    [ISONLSerializer] or is a token (not empty, without white space, quote
    or [|]). *)
Definition isonl_clean (v : Value) : bool :=
  match v with
  | VString s =>
      Law.readsAsString s && negb (Js.includes Js.PIPE s) &&
      (ISONLSerializer.needsQuotes s || isonl_token s)
  | _ =>
      Law.clean v &&
      negb (Js.includes Js.PIPE (ISONLSerializer.serializeValue (Some v)))
  end.

Definition isonl_clean_row (fields : list string) (row : Row) : bool :=
  bool_decide (dom row =@{gset string} list_to_set fields) &&
  forallb (λ f, from_option isonl_clean false (row !! f)) fields.

(** A block of the ISONL fragment: kind and name are on one line and have
    no [|], the kind does not start with white space or [#] and has no dot,
    there is at least one field and one row, no summary row, and fields
    and rows are clean. *)
Definition isonl_clean_block (b : Block) : bool :=
  Law.startsTight (kind b) &&
  negb (Js.includes Js.LF (kind b)) && negb (Js.includes Js.PIPE (kind b)) &&
  negb (Js.includes Js.DOT (kind b)) && negb (Js.startsWith "#" (kind b)) &&
  negb (Js.includes Js.LF (name b)) && negb (Js.includes Js.PIPE (name b)) &&
  negb (bool_decide (fields b = [])) &&
  bool_decide (fields b = map fi_name (fieldInfo b)) &&
  forallb (λ fi, Law.clean_field fi &&
                 negb (Js.includes Js.PIPE (Serializer.fieldDef fi)))
    (fieldInfo b) &&
  negb (bool_decide (rows b = [])) &&
  bool_decide (summaryRows b = []) &&
  forallb (isonl_clean_row (fields b)) (rows b).

(** A document of the ISONL fragment: clean blocks, no two of them with the
    same key. *)
Definition isonl_clean_doc (doc : Document) : bool :=
  forallb isonl_clean_block (blocks doc) &&
  bool_decide (NoDup (map Law.key (blocks doc))).

(** The escape of one character by [ISONLSerializer]. *)
Definition isonl_escape1 (c : ascii) : string :=
  if Ascii.eqb c Js.BACKSLASH then String Js.BACKSLASH (Js.str Js.BACKSLASH)
  else if Ascii.eqb c Js.DQUOTE then String Js.BACKSLASH (Js.str Js.DQUOTE)
  else if Ascii.eqb c Js.LF then String Js.BACKSLASH "n"
  else if Ascii.eqb c Js.TAB then String Js.BACKSLASH "t"
  else Js.str c.

(** A code unit that a part of an ISONL line can hold: no newline, no
    [|]. *)
Definition partChar (c : ascii) : bool :=
  negb (Ascii.eqb c Js.LF) && negb (Ascii.eqb c Js.PIPE).

(** The line that [ISONLSerializer] writes for a row of a block. *)
Definition isonl_line (block : Block) (row : Row) : string :=
  (kind block +:+ "." +:+ name block) +:+ "|" +:+
  Js.join " " (map Serializer.fieldDef (fieldInfo block)) +:+ "|" +:+
  Js.join " " (map (λ f, ISONLSerializer.serializeValue (row !! f)) (fields block)).

(** The text with every newline written as return and newline. *)
Definition crlf (text : string) : string :=
  Js.replaceAll Js.LF (String Js.CR (Js.str Js.LF)) text.

(** The rest of the text, in a result of [parseRows] or [parseBlock], with
    the other line ends. *)
Definition crlf_rest {A} (r : A * string) : A * string := (r.1, crlf r.2).

(** The lines of a text, each but the last with a return at its end. *)
Fixpoint with_cr (lines : list string) : list string :=
  match lines with
  | [] => []
  | [l] => [l]
  | l :: ls => (l +:+ Js.str Js.CR) :: with_cr ls
  end.

(** A line that is a comment: spaces, tabs and returns, then [#], and no
    newline. *)
Fixpoint comment_line (c : string) : bool :=
  match c with
  | "" => false
  | String ch r =>
      if Ascii.eqb ch Js.HASH then negb (Js.includes Js.LF r)
      else (Ascii.eqb ch Js.SPACE || Ascii.eqb ch Js.TAB || Ascii.eqb ch Js.CR)
           && comment_line r
  end.

(** Lines, each with its newline. *)
Fixpoint terminated (lines : list string) : string :=
  match lines with
  | [] => ""
  | l :: ls => l +:+ String Js.LF (terminated ls)
  end.

(** Two texts that are the same, or differ by the line [c] before [post]. *)
Definition same_but_line (c post t1 t2 : string) : Prop :=
  t1 = t2 ∨
  ∃ ls, Forall (λ l, Js.includes Js.LF l = false) ls ∧
        t1 = terminated ls +:+ c +:+ String Js.LF post ∧
        t2 = terminated ls +:+ post.

(** The rest [t] of [text]: what follows some of its characters. *)
Definition rest_of (text t : string) : Prop := ∃ pre, text = pre +:+ t.

(** The rest [t] of [text] starts at a line of [text], or is empty. *)
Definition at_line (text t : string) : Prop :=
  t = "" ∨
  ∃ pre, text = pre +:+ t ∧ (pre = "" ∨ ∃ p, pre = p +:+ Js.str Js.LF).










(** Two outcomes that are the same but for the line [c] in the rest of the
    text. *)
Definition same_outcome {A} (c post : string) (r1 r2 : result (A * string))
    : Prop :=
  match r1, r2 with
  | Ok (x1, t1), Ok (x2, t2) => x1 = x2 ∧ same_but_line c post t1 t2
  | Throw e1, Throw e2 => e1 = e2
  | OutOfFuel, OutOfFuel => True
  | _, _ => False
  end.

End Law.

(* ===================================================================== *)
(** ** Sample inputs for the further properties                           *)
(* ===================================================================== *)

Module Sample.

Definition row_of (r : result Row) : Row :=
  match r with
  | Ok row => row
  | _ => ∅
  end.

(** Records of two keys, a comment and a blank line between them. *)
Definition isonl_text : string :=
  text_of_lines
    ["table.users|id name|1 Alice"; "# orders"; "table.orders|id user|10 :1";
     ""; "table.users|id name|2 Bob"].

Definition isonl_doc : Document := Ex.doc_of (loadsIsonl isonl_text).

(** A line of four values, the second one in quotes. *)
Definition values_line : string :=
  "1 " +:+ in_quotes "Ann Lee" +:+ " :user:3 true".

Definition values_fields : list string := ["id"; "name"; "owner"; "active"].

Definition values_tokens : list string := ["1"; "Ann Lee"; ":user:3"; "true"].

Definition values_row : Row :=
  row_of (Parser.fillRow ∅ values_fields values_tokens).

(** A document of two blocks: typed fields, a quoted string, references, a
    negative integer, a summary row. *)
Definition users_summary : Row :=
  <["id" := VNumber (mkNumber 2 0)]>
    (<["name" := VString "x.y"]>
      (<["team" := VNull]> (<["active" := VBool false]> ∅))).

Definition users : Block :=
  mkBlock "table" "users"
    [ <["id" := VNumber (mkNumber 1 0)]>
        (<["name" := VString "Ann Lee"]>
          (<["team" := VRef (mkReference "7" (Some "team"))]>
            (<["active" := VBool true]> ∅)));
      <["id" := VNumber (mkNumber (-2) 0)]>
        (<["name" := VString "bob"]>
          (<["team" := VRef (mkReference "9" None)]>
            (<["active" := VNull]> ∅))) ]
    ["id"; "name"; "team"; "active"]
    [ mkFieldInfo "id" (Some "int") false;
      mkFieldInfo "name" (Some "string") false;
      mkFieldInfo "team" (Some "ref") false;
      mkFieldInfo "active" None false ]
    [users_summary].

Definition totals : Block :=
  mkBlock "object" "totals.2024"
    [ <["count" := VNumber (mkNumber 2 0)]>
        (<["label" := VString "all users"]> ∅) ]
    ["count"; "label"]
    [ mkFieldInfo "count" (Some "computed") true;
      mkFieldInfo "label" None false ]
    [].

Definition clean_doc : Document := mkDocument [users; totals].

(** Two blocks of the same name. *)
Definition same_name_doc : Document := mkDocument [Ex.first_t; Ex.second_t].

(** A line with a [#] in quotes, before a comment. *)
Definition commented_line : string := "1 " +:+ in_quotes "a # b".

(** A document for ISONL: no summary rows, a string with a [#] and one
    with a backslash. *)
Definition isonl_clean_doc : Document :=
  mkDocument
    [ mkBlock "table" "users" (rows users) (fields users)
        (fieldInfo users) [];
      mkBlock "log" "2024.events"
        [ <["at" := VNumber (mkNumber 17 0)]>
            (<["text" := VString "disk #2 at 90%"]> ∅);
          <["at" := VNumber (mkNumber 18 0)]>
            (<["text" := VString "C:\temp"]> ∅) ]
        ["at"; "text"]
        [mkFieldInfo "at" (Some "int") false; mkFieldInfo "text" None false]
        [] ].

(** A document of both fragments. *)
Definition plain_doc : Document :=
  mkDocument
    [ mkBlock "table" "users" (rows users) (fields users) (fieldInfo users) [];
      totals ].









End Sample.

(* ===================================================================== *)
(** * Properties                                                          *)
(* ===================================================================== *)

Local Open Scope nat_scope.
Local Open Scope list_scope.

(** Proves [Spec.data_line] of a concrete line by evaluation, from its
    tokens. *)
Ltac data_line_by_evaluation values :=
  unfold Spec.data_line;
  do 4 (split; [vm_compute; reflexivity|]);
  exists values;
  split; [vm_compute; reflexivity|];
  split; [discriminate|vm_compute; reflexivity].


(* ===================================================================== *)
(** ** The loops of the parser terminate                                  *)
(* ===================================================================== *)

Section Termination.

Lemma length_skipSpaces line :
  String.length (Parser.skipSpaces line) ≤ String.length line.
Proof.
  induction line as [|c r IH]; simpl; [lia|].
  destruct (Parser.isSpaceOrTab c); simpl; lia.
Qed.

Lemma length_parseQuotedString_from acc line token rest :
  Parser.parseQuotedString_from acc line = Ok (token, rest) →
  String.length rest < String.length line.
Proof.
  revert acc. induction line as [line IH] using (well_founded_induction
    (well_founded_ltof _ String.length)). unfold ltof in IH.
  intros acc H. destruct line as [|c r]; simpl in H; [discriminate|].
  destruct (Ascii.eqb c Js.BACKSLASH).
  - destruct r as [|next r'].
    + simpl in H. discriminate.
    + apply IH in H; simpl in *; lia.
  - destruct (Ascii.eqb c Js.DQUOTE).
    + inversion H; subst. simpl. lia.
    + apply IH in H; simpl in *; lia.
Qed.

Lemma length_takeUnquoted line token rest :
  Parser.takeUnquoted line = (token, rest) →
  String.length rest ≤ String.length line.
Proof.
  revert token rest. induction line as [|c r IH]; intros token rest H; simpl in H.
  - inversion H; subst. simpl. lia.
  - destruct (Parser.isSpaceOrTab c).
    + inversion H; subst. simpl. lia.
    + destruct (Parser.takeUnquoted r) as [t' r'] eqn:E.
      inversion H; subst. specialize (IH _ _ eq_refl). simpl. lia.
Qed.

Lemma length_takeUnquoted_first c r token rest :
  Parser.isSpaceOrTab c = false →
  Parser.takeUnquoted (String c r) = (token, rest) →
  String.length rest ≤ String.length r.
Proof.
  intros Hc H. simpl in H. rewrite Hc in H.
  destruct (Parser.takeUnquoted r) as [t' r'] eqn:E.
  inversion H; subst. eapply length_takeUnquoted; eauto.
Qed.

Lemma skipSpaces_first line c r :
  Parser.skipSpaces line = String c r → Parser.isSpaceOrTab c = false.
Proof.
  induction line as [|d s IH]; simpl; [discriminate|].
  destruct (Parser.isSpaceOrTab d) eqn:E; [exact IH|].
  intros H. inversion H; subst. exact E.
Qed.

Lemma parseQuotedString_from_fuel acc line :
  Parser.parseQuotedString_from acc line ≠ OutOfFuel.
Proof.
  revert acc. induction line as [line IH] using (well_founded_induction
    (well_founded_ltof _ String.length)). unfold ltof in IH.
  intros acc. destruct line as [|c r]; simpl; [discriminate|].
  destruct (Ascii.eqb c Js.BACKSLASH).
  - destruct r as [|next r']; [simpl; discriminate|]. apply IH. simpl. lia.
  - destruct (Ascii.eqb c Js.DQUOTE); [discriminate|]. apply IH. simpl. lia.
Qed.

Lemma tokenize_step fuel line c r :
  Parser.skipSpaces line = String c r →
  Parser.tokenize (S fuel) line =
    '(token, rest) ←
      (if Ascii.eqb c Js.DQUOTE then Parser.parseQuotedString r
       else Ok (Parser.takeUnquoted (String c r)));
    tokens ← Parser.tokenize fuel rest;
    Ok (token :: tokens).
Proof. intros Hs. cbn [Parser.tokenize]. rewrite Hs. reflexivity. Qed.

Lemma tokenize_done fuel line :
  Parser.skipSpaces line = "" → Parser.tokenize fuel line = Ok [].
Proof. intros Hs. destruct fuel; simpl; rewrite Hs; reflexivity. Qed.

Lemma tokenize_enough_fuel fuel line :
  String.length line ≤ fuel → Parser.tokenize fuel line ≠ OutOfFuel.
Proof.
  revert line. induction fuel as [|fuel IH]; intros line Hlen.
  - destruct line; simpl in *; [discriminate|lia].
  - pose proof (length_skipSpaces line) as Hs.
    destruct (Parser.skipSpaces line) as [|c r] eqn:Es.
    { rewrite tokenize_done by done. discriminate. }
    rewrite (tokenize_step _ _ _ _ Es). simpl in Hs.
    destruct (Ascii.eqb c Js.DQUOTE).
    + destruct (Parser.parseQuotedString r) as [[token rest]| |] eqn:Eq;
        simpl; try discriminate.
      * apply length_parseQuotedString_from in Eq.
        specialize (IH rest ltac:(lia)).
        destruct (Parser.tokenize fuel rest); simpl; done.
      * exfalso. eapply parseQuotedString_from_fuel, Eq.
    + destruct (Parser.takeUnquoted (String c r)) as [token rest] eqn:Et.
      apply length_takeUnquoted_first in Et; [|eapply skipSpaces_first; eauto].
      specialize (IH rest ltac:(lia)). simpl.
      destruct (Parser.tokenize fuel rest); simpl; done.
Qed.

Lemma tokenizeLine_total line : Parser.tokenizeLine line ≠ OutOfFuel.
Proof. unfold Parser.tokenizeLine. apply tokenize_enough_fuel. unfold Js.length. lia. Qed.


Lemma length_splitLine text :
  String.length (Parser.splitLine text).2 ≤ String.length text.
Proof.
  induction text as [|c r IH]; simpl; [lia|].
  destruct (Ascii.eqb c Js.LF); simpl; [lia|].
  destruct (Parser.splitLine r); simpl in *. lia.
Qed.

Lemma length_readLine text line rest :
  Parser.readLine text = Some (line, rest) →
  String.length rest < String.length text.
Proof.
  destruct text as [|c r]; [discriminate|].
  unfold Parser.readLine. cbn [Parser.splitLine].
  pose proof (length_splitLine r) as Hr.
  destruct (Ascii.eqb c Js.LF).
  - intros [= <- <-]. simpl. lia.
  - destruct (Parser.splitLine r) as [l r']. intros [= <- <-]. simpl in *. lia.
Qed.

Lemma readLine_None text : Parser.readLine text = None → text = "".
Proof.
  destruct text; [done|]. unfold Parser.readLine.
  destruct (Parser.splitLine _); discriminate.
Qed.

Lemma length_skipWhitespaceAndComments text :
  String.length (Parser.skipWhitespaceAndComments text) ≤ String.length text ∧
  String.length (Parser.skipComment text) ≤ String.length text.
Proof.
  induction text as [|c r [IH1 IH2]]; simpl; [lia|].
  split.
  - destruct (Parser.isBlank c); [lia|].
    destruct (Ascii.eqb c Js.HASH); simpl; lia.
  - destruct (Ascii.eqb c Js.LF); lia.
Qed.

Lemma length_skipEmptyLines text :
  String.length (Parser.skipEmptyLines text) ≤ String.length text ∧
  String.length (Parser.skipEmptyComment text) ≤ String.length text.
Proof.
  induction text as [|c r [IH1 IH2]]; simpl; [lia|].
  split.
  - destruct (_ || _); [lia|].
    destruct (Ascii.eqb c Js.LF); [lia|].
    destruct (Ascii.eqb c Js.HASH); simpl; lia.
  - destruct (Ascii.eqb c Js.LF); lia.
Qed.

Lemma parseReference_fuel token : Parser.parseReference token ≠ OutOfFuel.
Proof.
  unfold Parser.parseReference.
  destruct (Js.split _ _) as [|? [|? [|? ?]]]; discriminate.
Qed.

Lemma parseValue_fuel token : Parser.parseValue token ≠ OutOfFuel.
Proof.
  unfold Parser.parseValue.
  repeat (case_match; try discriminate).
  pose proof (parseReference_fuel token) as Hr.
  destruct (Parser.parseReference token); simpl; done.
Qed.

Lemma fillRow_from_fuel fs : ∀ inherits row vs,
  Parser.fillRow_from inherits row fs vs ≠ OutOfFuel.
Proof.
  induction fs as [|f fs IH]; intros inherits row [|v vs]; simpl;
    try discriminate.
  pose proof (parseValue_fuel v) as Hv.
  destruct (Parser.parseValue v); simpl; [|discriminate|done].
  destruct (Obj.assign _ _ _ _). apply IH.
Qed.

Lemma fillRow_fuel row fs vs : Parser.fillRow row fs vs ≠ OutOfFuel.
Proof. apply fillRow_from_fuel. Qed.

(** One iteration of the data-row loop, as an equation. *)
Lemma parseRows_step fuel block inSummary text line rest :
  Parser.readLine text = Some (line, rest) →
  Js.isEmpty line || Re.isHeaderLike line = false →
  Parser.parseRows (S fuel) block inSummary text =
    if Js.startsWith "#" line then Parser.parseRows fuel block inSummary rest
    else if String.eqb (Js.trim line) "---" then
      Parser.parseRows fuel block true rest
    else
      values ← Parser.tokenizeLine line;
      match values with
      | [] => Ok (block, rest)
      | _ =>
          row ← Parser.fillRow ∅ (fields block) values;
          if inSummary
          then Parser.parseRows fuel (Parser.pushSummaryRow block row) inSummary rest
          else Parser.parseRows fuel (Parser.pushRow block row) inSummary rest
      end.
Proof. intros Hr Hc. cbn [Parser.parseRows]. rewrite Hr, Hc. reflexivity. Qed.

Lemma parseRows_stop fuel block inSummary text :
  match Parser.readLine text with
  | None => True
  | Some (line, _) => Js.isEmpty line || Re.isHeaderLike line = true
  end →
  Parser.parseRows fuel block inSummary text = Ok (block, text).
Proof.
  intros H. destruct fuel; cbn [Parser.parseRows];
    destruct (Parser.readLine text) as [[line rest]|]; try rewrite H; reflexivity.
Qed.

Lemma parseRows_enough_fuel fuel block inSummary text :
  String.length text ≤ fuel →
  Parser.parseRows fuel block inSummary text ≠ OutOfFuel.
Proof.
  revert block inSummary text.
  induction fuel as [|fuel IH]; intros block inSummary text Hlen.
  - destruct text; [|simpl in Hlen; lia]. discriminate.
  - destruct (Parser.readLine text) as [[line rest]|] eqn:Hr.
    2: { rewrite parseRows_stop; [discriminate|]. by rewrite Hr. }
    destruct (Js.isEmpty line || Re.isHeaderLike line) eqn:Hc.
    { rewrite parseRows_stop; [discriminate|]. by rewrite Hr. }
    rewrite (parseRows_step _ _ _ _ _ _ Hr Hc).
    apply length_readLine in Hr.
    destruct (Js.startsWith "#" line); [apply IH; lia|].
    destruct (String.eqb _ _); [apply IH; lia|].
    pose proof (tokenizeLine_total line) as Ht.
    destruct (Parser.tokenizeLine line) as [values| |]; simpl; try done.
    destruct values as [|v values]; [discriminate|].
    pose proof (fillRow_fuel ∅ (fields block) (v :: values)) as Hf.
    destruct (Parser.fillRow _ _ _) as [row| |]; simpl; try done.
    destruct inSummary; apply IH; lia.
Qed.

Lemma parseRows_length fuel block inSummary text block' rest :
  Parser.parseRows fuel block inSummary text = Ok (block', rest) →
  String.length rest ≤ String.length text.
Proof.
  revert block inSummary text.
  induction fuel as [|fuel IH]; intros block inSummary text H.
  - cbn [Parser.parseRows] in H.
    destruct (Parser.readLine text) as [[line rest0]|]; [|by inversion H].
    destruct (_ || _); [by inversion H|discriminate].
  - destruct (Parser.readLine text) as [[line rest0]|] eqn:Hr.
    2: { rewrite parseRows_stop in H by (by rewrite Hr). by inversion H. }
    destruct (Js.isEmpty line || Re.isHeaderLike line) eqn:Hc.
    { rewrite parseRows_stop in H by (by rewrite Hr). by inversion H. }
    rewrite (parseRows_step _ _ _ _ _ _ Hr Hc) in H.
    apply length_readLine in Hr.
    destruct (Js.startsWith "#" line); [apply IH in H; lia|].
    destruct (String.eqb _ _); [apply IH in H; lia|].
    destruct (Parser.tokenizeLine line) as [values| |]; simpl in H; try done.
    destruct values as [|v values]; [inversion H; subst; lia|].
    destruct (Parser.fillRow _ _ _) as [row| |]; simpl in H; try done.
    destruct inSummary; apply IH in H; lia.
Qed.

End Termination.

Section ParseBlock.

(** What [parseBlock] returns, case by case, when it returns a block. *)
Lemma parseBlock_Some text block rest :
  Parser.parseBlock text = Ok (Some block, rest) →
  ∃ headerLine rest0 dotIndex,
    Parser.readLine text = Some (headerLine, rest0) ∧
    Js.isEmpty headerLine || Js.startsWith "#" headerLine = false ∧
    Js.indexOf Js.DOT headerLine = Some dotIndex ∧
    let kind := Js.trim (Js.substringTo dotIndex headerLine) in
    let name := Js.trim (Js.substringFrom (S dotIndex) headerLine) in
    Js.isEmpty kind || Js.isEmpty name = false ∧
    let rest1 := Parser.skipEmptyLines rest0 in
    ((Parser.readLine rest1 = None ∧ block = newBlock kind name ∧ rest = rest1) ∨
     (∃ fieldsLine rest2,
        Parser.readLine rest1 = Some (fieldsLine, rest2) ∧
        ((Js.isEmpty fieldsLine = true ∧ block = newBlock kind name ∧ rest = rest2) ∨
         (∃ fieldTokens,
            Js.isEmpty fieldsLine = false ∧
            Parser.tokenizeLine fieldsLine = Ok fieldTokens ∧
            Parser.parseRows (Js.length rest2)
              (fold_left Parser.addField fieldTokens (newBlock kind name))
              false rest2 = Ok (block, rest))))).
Proof.
  unfold Parser.parseBlock. intros H.
  destruct (Parser.readLine text) as [[headerLine rest0]|] eqn:Hr; [|discriminate].
  exists headerLine, rest0.
  destruct (Js.isEmpty headerLine || Js.startsWith "#" headerLine) eqn:Hh;
    [discriminate|].
  destruct (Js.indexOf Js.DOT headerLine) as [dotIndex|] eqn:Hd; [|discriminate].
  exists dotIndex. cbv zeta.
  destruct (Js.isEmpty _ || Js.isEmpty _) eqn:Hk; [discriminate|].
  do 4 (split; [reflexivity|]).
  destruct (Parser.readLine (Parser.skipEmptyLines rest0))
    as [[fieldsLine rest2]|] eqn:Hf.
  2: { left. inversion H; subst. done. }
  right. exists fieldsLine, rest2. split; [reflexivity|].
  destruct (Js.isEmpty fieldsLine) eqn:He.
  { left. inversion H; subst. done. }
  right. destruct (Parser.tokenizeLine fieldsLine) as [fieldTokens| |];
    simpl in H; try discriminate.
  exists fieldTokens. do 2 (split; [reflexivity|]).
  destruct (Parser.parseRows _ _ _ _) as [[b r]| |]; simpl in H; try discriminate.
  inversion H; subst. reflexivity.
Qed.

Lemma parseBlock_None text rest :
  Parser.parseBlock text = Ok (None, rest) →
  (text = "" ∧ rest = "") ∨ (∃ line, Parser.readLine text = Some (line, rest)).
Proof.
  unfold Parser.parseBlock. intros H.
  destruct (Parser.readLine text) as [[headerLine rest0]|] eqn:Hr.
  - assert (rest0 = rest) as ->; [|right; eauto].
    destruct (Js.isEmpty headerLine || Js.startsWith "#" headerLine);
      [by inversion H|].
    destruct (Js.indexOf Js.DOT headerLine); [|discriminate].
    destruct (Js.isEmpty _ || Js.isEmpty _); [discriminate|].
    destruct (Parser.readLine (Parser.skipEmptyLines rest0)) as [[fl r2]|];
      [|discriminate].
    destruct (Js.isEmpty fl); [discriminate|].
    destruct (Parser.tokenizeLine fl); simpl in H; try discriminate.
    destruct (Parser.parseRows _ _ _ _) as [[? ?]| |]; simpl in H; discriminate.
  - left. apply readLine_None in Hr. inversion H; subst. done.
Qed.

Lemma parseBlock_total text : Parser.parseBlock text ≠ OutOfFuel.
Proof.
  unfold Parser.parseBlock.
  destruct (Parser.readLine text) as [[headerLine rest0]|]; [|discriminate].
  destruct (_ || _); [discriminate|].
  destruct (Js.indexOf _ _); [|discriminate].
  destruct (_ || _); [discriminate|].
  destruct (Parser.readLine _) as [[fieldsLine rest2]|]; [|discriminate].
  destruct (Js.isEmpty _); [discriminate|].
  pose proof (tokenizeLine_total fieldsLine) as Ht.
  destruct (Parser.tokenizeLine _) as [fieldTokens| |]; simpl; try done.
  match goal with |- context [Parser.parseRows ?f ?b ?s ?t] =>
    pose proof (parseRows_enough_fuel f b s t (le_n _)) as Hp;
    destruct (Parser.parseRows f b s t) as [[? ?]| |] end; simpl; done.
Qed.

Lemma parseBlock_length text block rest :
  Parser.parseBlock text = Ok (block, rest) → text ≠ "" →
  String.length rest < String.length text.
Proof.
  intros H Hne. destruct block as [block|].
  - apply parseBlock_Some in H.
    destruct H as (headerLine & rest0 & dotIndex & Hr & _ & _ & _ & Hcases).
    apply length_readLine in Hr.
    pose proof (proj1 (length_skipEmptyLines rest0)) as Hs.
    destruct Hcases as [(_ & _ & ->)|(fieldsLine & rest2 & Hf & Hcases)]; [lia|].
    apply length_readLine in Hf.
    destruct Hcases as [(_ & _ & ->)|(fieldTokens & _ & _ & Hp)]; [lia|].
    apply parseRows_length in Hp. lia.
  - apply parseBlock_None in H. destruct H as [[-> _]|[line Hr]]; [done|].
    by apply length_readLine in Hr.
Qed.

Lemma parseBlocks_step fuel doc text :
  text ≠ "" →
  Parser.parseBlocks (S fuel) doc text =
    '(block, rest) ← Parser.parseBlock text;
    Parser.parseBlocks fuel (Parser.pushBlock doc block)
      (Parser.skipWhitespaceAndComments rest).
Proof. destruct text; [done|reflexivity]. Qed.

Lemma parseBlocks_enough_fuel fuel doc text :
  String.length text ≤ fuel → Parser.parseBlocks fuel doc text ≠ OutOfFuel.
Proof.
  revert doc text. induction fuel as [|fuel IH]; intros doc text Hlen.
  - destruct text; [discriminate|simpl in Hlen; lia].
  - destruct (decide (text = "")) as [->|Hne]; [discriminate|].
    rewrite parseBlocks_step by done.
    pose proof (parseBlock_total text) as Ht.
    destruct (Parser.parseBlock text) as [[block rest]| |] eqn:Hb; simpl; try done.
    apply parseBlock_length in Hb; [|done].
    pose proof (proj1 (length_skipWhitespaceAndComments rest)).
    apply IH. lia.
Qed.

(** [parse] returns a document or throws: the fuel of the model is enough. *)
Lemma parse_total text : parse text ≠ OutOfFuel.
Proof.
  unfold parse, Parser.parse. apply parseBlocks_enough_fuel.
  pose proof (proj1 (length_skipWhitespaceAndComments text)).
  unfold Js.length. lia.
Qed.

End ParseBlock.

Section Fuel.

(** The outcome of the row loop does not depend on the fuel, once there is
    as much of it as there is text. *)
Lemma parseRows_fuel fuel : ∀ fuel' block inSummary text,
  String.length text ≤ fuel → String.length text ≤ fuel' →
  Parser.parseRows fuel block inSummary text =
  Parser.parseRows fuel' block inSummary text.
Proof.
  induction fuel as [|fuel IH]; intros fuel' block inSummary text H1 H2.
  - destruct text; [|simpl in H1; lia]. by rewrite !parseRows_stop.
  - destruct (Parser.readLine text) as [[line rest]|] eqn:Hr.
    2: { rewrite !parseRows_stop; [done|by rewrite Hr..]. }
    destruct (Js.isEmpty line || Re.isHeaderLike line) eqn:Hc.
    { rewrite !parseRows_stop; [done|by rewrite Hr, Hc..]. }
    pose proof (length_readLine _ _ _ Hr) as Hlen.
    destruct fuel' as [|fuel']; [lia|].
    rewrite !(parseRows_step _ _ _ _ _ _ Hr Hc).
    destruct (Js.startsWith "#" line); [apply IH; lia|].
    destruct (String.eqb _ _); [apply IH; lia|].
    destruct (Parser.tokenizeLine line) as [values| |]; simpl; try done.
    destruct values as [|v values]; [done|].
    destruct (Parser.fillRow _ _ _) as [row| |]; simpl; try done.
    destruct inSummary; apply IH; lia.
Qed.

(** The same for the loop over the blocks. *)
Lemma parseBlocks_fuel fuel : ∀ fuel' doc text,
  String.length text ≤ fuel → String.length text ≤ fuel' →
  Parser.parseBlocks fuel doc text = Parser.parseBlocks fuel' doc text.
Proof.
  induction fuel as [|fuel IH]; intros fuel' doc text H1 H2.
  - destruct text; [|simpl in H1; lia]. by destruct fuel'.
  - destruct (decide (text = "")) as [->|Hne]; [by destruct fuel'|].
    destruct fuel' as [|fuel']; [destruct text; [done|simpl in H2; lia]|].
    rewrite !parseBlocks_step by done.
    destruct (Parser.parseBlock text) as [[block rest]| |] eqn:Hb; simpl; try done.
    apply parseBlock_length in Hb; [|done].
    pose proof (proj1 (length_skipWhitespaceAndComments rest)).
    apply IH; lia.
Qed.

End Fuel.

Section Rows.

Lemma row_assign_lookup inherits (row : Row) key value f :
  f ≠ "__proto__" →
  (Obj.assign inherits row key value).2 !! f =
  if decide (key = f) then Some value else row !! f.
Proof.
  intros Hf. unfold Obj.assign.
  destruct (inherits && String.eqb key "__proto__") eqn:Hp; simpl.
  - apply andb_true_iff in Hp as [_ Hp]. apply String.eqb_eq in Hp. subst key.
    by destruct (decide ("__proto__" = f)).
  - destruct (decide (key = f)) as [->|Hne];
      [by rewrite lookup_insert_eq|by rewrite lookup_insert_ne].
Qed.

Lemma row_assign_other inherits (row : Row) key value f :
  key ≠ f → (Obj.assign inherits row key value).2 !! f = row !! f.
Proof.
  intros Hne. unfold Obj.assign.
  destruct (inherits && String.eqb key "__proto__"); simpl; [done|].
  by rewrite lookup_insert_ne.
Qed.

Lemma fillRow_from_cons inherits row f fs t tokens :
  Parser.fillRow_from inherits row (f :: fs) (t :: tokens) =
  x ← Parser.parseValue t;
  Parser.fillRow_from (Obj.assign inherits row f x).1
    (Obj.assign inherits row f x).2 fs tokens.
Proof.
  cbn [Parser.fillRow_from]. destruct (Parser.parseValue t); simpl; [|done..].
  by destruct (Obj.assign _ _ _ _).
Qed.

Lemma fillRow_from_take fs : ∀ inherits row tokens,
  Parser.fillRow_from inherits row fs (take (length fs) tokens) =
  Parser.fillRow_from inherits row fs tokens.
Proof.
  induction fs as [|f fs IH]; intros inherits row [|t tokens]; try reflexivity.
  cbn [length take]. rewrite !fillRow_from_cons.
  destruct (Parser.parseValue t); simpl; [apply IH|reflexivity..].
Qed.

Lemma fillRow_take row fs tokens :
  Parser.fillRow row fs (take (length fs) tokens) = Parser.fillRow row fs tokens.
Proof. apply fillRow_from_take. Qed.

(** A name that is not declared at a position that has a token keeps what
    the row had under it. *)
Lemma fillRow_from_absent fs : ∀ inherits row tokens r f,
  Parser.fillRow_from inherits row fs tokens = Ok r →
  f ∉ take (length tokens) fs → r !! f = row !! f.
Proof.
  induction fs as [|g fs IH]; intros inherits row [|t tokens] r f H Hf;
    try (by inversion H).
  rewrite fillRow_from_cons in H. cbn [length take] in Hf.
  destruct (Parser.parseValue t) as [v| |]; simpl in H; try discriminate.
  apply not_elem_of_cons in Hf as [Hne Hf].
  rewrite (IH _ _ _ _ _ H Hf). by apply row_assign_other.
Qed.

Lemma fillRow_absent row fs tokens r f :
  Parser.fillRow row fs tokens = Ok r →
  f ∉ take (length tokens) fs → r !! f = row !! f.
Proof. apply fillRow_from_absent. Qed.

Lemma fillRow_from_keeps fs : ∀ inherits row tokens r f,
  Parser.fillRow_from inherits row fs tokens = Ok r →
  f ≠ "__proto__" → is_Some (row !! f) → is_Some (r !! f).
Proof.
  induction fs as [|g fs IH]; intros inherits row [|t tokens] r f H Hf Hrow;
    try (by inversion H; subst).
  rewrite fillRow_from_cons in H.
  destruct (Parser.parseValue t) as [v| |]; simpl in H; try discriminate.
  eapply IH; [exact H|done|]. rewrite row_assign_lookup by done.
  by destruct (decide (g = f)).
Qed.

(** A name other than [__proto__] that is declared at a position that has a
    token has an entry. *)
Lemma fillRow_from_present fs : ∀ inherits row tokens r f,
  Parser.fillRow_from inherits row fs tokens = Ok r →
  f ≠ "__proto__" → f ∈ take (length tokens) fs → is_Some (r !! f).
Proof.
  induction fs as [|g fs IH]; intros inherits row [|t tokens] r f H Hp Hf;
    cbn [length take] in Hf; try (by apply elem_of_nil in Hf).
  rewrite fillRow_from_cons in H.
  destruct (Parser.parseValue t) as [v| |]; simpl in H; try discriminate.
  apply elem_of_cons in Hf as [->|Hf]; [|by eapply IH].
  eapply fillRow_from_keeps; [exact H|done|].
  rewrite row_assign_lookup by done. by rewrite decide_True.
Qed.

Lemma fillRow_present row fs tokens r f :
  Parser.fillRow row fs tokens = Ok r →
  f ≠ "__proto__" → f ∈ take (length tokens) fs → is_Some (r !! f).
Proof. apply fillRow_from_present. Qed.

(** Under a name other than [__proto__], the row holds the value of the
    token at the last position where the name is declared. *)
Lemma fillRow_from_lookup fs : ∀ inherits row tokens r i f t,
  Parser.fillRow_from inherits row fs tokens = Ok r →
  fs !! i = Some f → tokens !! i = Some t → f ≠ "__proto__" →
  (∀ j, i < j < length tokens → fs !! j ≠ Some f) →
  ∃ v, Parser.parseValue t = Ok v ∧ r !! f = Some v.
Proof.
  induction fs as [|g fs IH]; intros inherits row [|u tokens] r i f t H Hf Ht Hp Hlast;
    try done.
  rewrite fillRow_from_cons in H.
  destruct (Parser.parseValue u) as [v| |] eqn:Hv; simpl in H; try discriminate.
  destruct i as [|i]; simpl in Hf, Ht.
  - inversion Hf; inversion Ht; subst. exists v. split; [done|].
    rewrite (fillRow_from_absent _ _ _ _ _ _ H).
    + rewrite row_assign_lookup by done. by rewrite decide_True.
    + intros Hin. apply list_elem_of_lookup in Hin as [j Hj].
      apply lookup_take_Some in Hj as [Hj Hlt].
      apply (Hlast (S j)); [simpl; lia|done].
  - eapply IH; eauto. intros j Hj. apply (Hlast (S j)). simpl. lia.
Qed.

Lemma fillRow_lookup row fs tokens r i f t :
  Parser.fillRow row fs tokens = Ok r →
  fs !! i = Some f → tokens !! i = Some t → f ≠ "__proto__" →
  (∀ j, i < j < length tokens → fs !! j ≠ Some f) →
  ∃ v, Parser.parseValue t = Ok v ∧ r !! f = Some v.
Proof. apply fillRow_from_lookup. Qed.

(** Once the prototype is gone, every name is filled in the same way. *)
Lemma fillRow_from_plain fs : ∀ row tokens r f v,
  Parser.fillRow_from false row fs tokens = Ok r →
  (r !! f = Some v ↔
   (∃ j u, fs !! j = Some f ∧ tokens !! j = Some u ∧
           Parser.parseValue u = Ok v ∧
           ∀ k, j < k < length tokens → fs !! k ≠ Some f) ∨
   (row !! f = Some v ∧ f ∉ take (length tokens) fs)).
Proof.
  induction fs as [|g fs IH]; intros row [|u0 tokens] r f v H.
  1-3: inversion H; subst; split;
    [intros Hr; right; split; [done|rewrite ?take_nil; apply not_elem_of_nil]
    |intros [(j & u & Hj & Hu & _)|[Hr _]]; [by destruct j|done]].
  rewrite fillRow_from_cons in H.
  destruct (Parser.parseValue u0) as [x| |] eqn:Hx; simpl in H; try discriminate.
  rewrite (IH _ _ _ f v H). cbn [length take]. clear IH H. split.
  - intros [(j & u & Hj & Hu & Hv & Hlast)|[Hr Hout]].
    + left. exists (S j), u. repeat split; try done.
      intros [|k] Hk; [lia|]. simpl. apply Hlast. lia.
    + destruct (decide (g = f)) as [->|Hne].
      * rewrite lookup_insert_eq in Hr. inversion Hr; subst.
        left. exists 0, u0. repeat split; try done.
        intros [|k] Hk; [lia|]. simpl. intros Hf. apply Hout.
        apply list_elem_of_lookup. exists k. apply lookup_take_Some.
        split; [done|lia].
      * rewrite lookup_insert_ne in Hr by done. right. split; [done|].
        apply not_elem_of_cons. split; [congruence|done].
  - intros [(j & u & Hj & Hu & Hv & Hlast)|[Hr Hout]].
    + destruct j as [|j]; simpl in Hj, Hu.
      * inversion Hj; inversion Hu; subst. right.
        rewrite lookup_insert_eq. split; [congruence|].
        intros Hin. apply list_elem_of_lookup in Hin as [k Hk].
        apply lookup_take_Some in Hk as [Hk Hlt].
        apply (Hlast (S k)); [lia|done].
      * left. exists j, u. repeat split; try done.
        intros k Hk. apply (Hlast (S k)). lia.
    + apply not_elem_of_cons in Hout as [Hne Hout]. right.
      rewrite lookup_insert_ne by congruence. done.
Qed.

(** A row that still has its prototype gets an entry under [__proto__]
    only after a token of that field was read as [null]. *)
Lemma fillRow_from_proto fs : ∀ row tokens r v,
  Parser.fillRow_from true row fs tokens = Ok r →
  row !! "__proto__" = None →
  (r !! "__proto__" = Some v ↔
   ∃ i j t u, i < j ∧
     fs !! i = Some "__proto__" ∧ tokens !! i = Some t ∧
     Parser.parseValue t = Ok VNull ∧
     fs !! j = Some "__proto__" ∧ tokens !! j = Some u ∧
     Parser.parseValue u = Ok v ∧
     ∀ k, j < k < length tokens → fs !! k ≠ Some "__proto__").
Proof.
  induction fs as [|g fs IH]; intros row [|u0 tokens] r v H Hrow.
  1-3: inversion H; subst; rewrite Hrow; split;
    [done|intros (i & j & t & u & _ & Hi & Ht & _); by destruct i].
  rewrite fillRow_from_cons in H.
  destruct (Parser.parseValue u0) as [x| |] eqn:Hx; simpl in H; try discriminate.
  unfold Obj.assign in H. cbn [andb length] in H |- *.
  destruct (String.eqb g "__proto__") eqn:Hg; cbn [fst snd] in H.
  - apply String.eqb_eq in Hg. subst g.
    assert (Hcase : x = VNull ∨ x ≠ VNull) by (destruct x; auto).
    destruct Hcase as [->|Hnull].
    + rewrite (fillRow_from_plain _ _ _ _ "__proto__" v H). split.
      * intros [(j & u & Hj & Hu & Hv & Hlast)|[Hr _]]; [|congruence].
        exists 0, (S j), u0, u. repeat split; try done; [lia|].
        intros [|k] Hk; [lia|]. simpl. apply Hlast. lia.
      * intros (i & j & t & u & Hij & _ & _ & _ & Hj & Hu & Hv & Hlast).
        destruct j as [|j]; [lia|]. left. exists j, u. repeat split; try done.
        intros k Hk. apply (Hlast (S k)). lia.
    + assert (Hsame : Parser.fillRow_from true row fs tokens = Ok r).
      { by destruct x. }
      rewrite (IH _ _ _ v Hsame Hrow). split.
      * intros (i & j & t & u & Hij & Hi & Ht & Hn & Hj & Hu & Hv & Hlast).
        exists (S i), (S j), t, u. repeat split; try done; [lia|].
        intros [|k] Hk; [lia|]. simpl. apply Hlast. lia.
      * intros (i & j & t & u & Hij & Hi & Ht & Hn & Hj & Hu & Hv & Hlast).
        destruct i as [|i]; simpl in Hi, Ht.
        { inversion Ht; subst. congruence. }
        destruct j as [|j]; [lia|]. exists i, j, t, u.
        repeat split; try done; [lia|]. intros k Hk. apply (Hlast (S k)). lia.
  - apply String.eqb_neq in Hg.
    rewrite (IH _ _ _ v H) by (by rewrite lookup_insert_ne). split.
    + intros (i & j & t & u & Hij & Hi & Ht & Hn & Hj & Hu & Hv & Hlast).
      exists (S i), (S j), t, u. repeat split; try done; [lia|].
      intros [|k] Hk; [lia|]. simpl. apply Hlast. lia.
    + intros (i & j & t & u & Hij & Hi & Ht & Hn & Hj & Hu & Hv & Hlast).
      destruct i as [|i]; simpl in Hi, Ht; [congruence|].
      destruct j as [|j]; [lia|]. exists i, j, t, u.
      repeat split; try done; [lia|]. intros k Hk. apply (Hlast (S k)). lia.
Qed.

Lemma fillRow_from_succeeds fs : ∀ inherits row tokens,
  (∀ t, t ∈ take (length fs) tokens → ∃ v, Parser.parseValue t = Ok v) →
  ∃ r, Parser.fillRow_from inherits row fs tokens = Ok r.
Proof.
  induction fs as [|f fs IH]; intros inherits row [|t tokens] H;
    cbn [length take] in H; try (by eexists).
  rewrite fillRow_from_cons.
  destruct (H t) as [v Hv]; [by left|]. rewrite Hv. simpl.
  apply IH. intros u Hu. apply H. by right.
Qed.

Lemma fillRow_succeeds row fs tokens :
  (∀ t, t ∈ take (length fs) tokens → ∃ v, Parser.parseValue t = Ok v) →
  ∃ r, Parser.fillRow row fs tokens = Ok r.
Proof. apply fillRow_from_succeeds. Qed.

Lemma addField_rows block token :
  rows (Parser.addField block token) = rows block ∧
  summaryRows (Parser.addField block token) = summaryRows block ∧
  kind (Parser.addField block token) = kind block ∧
  name (Parser.addField block token) = name block.
Proof. unfold Parser.addField. by destruct (Js.indexOf _ _). Qed.

Lemma addFields_rows tokens block :
  rows (fold_left Parser.addField tokens block) = rows block ∧
  summaryRows (fold_left Parser.addField tokens block) = summaryRows block ∧
  kind (fold_left Parser.addField tokens block) = kind block ∧
  name (fold_left Parser.addField tokens block) = name block.
Proof.
  revert block. induction tokens as [|t tokens IH]; intros block; simpl; [done|].
  destruct (IH (Parser.addField block t)) as (-> & -> & -> & ->).
  apply addField_rows.
Qed.

(** The data-row loop leaves the header and the fields alone, and only
    appends rows: to [rows] before the separator, to [summaryRows] after it. *)
Lemma parseRows_appends fuel block inSummary text block' rest :
  Parser.parseRows fuel block inSummary text = Ok (block', rest) →
  kind block' = kind block ∧ name block' = name block ∧
  fields block' = fields block ∧ fieldInfo block' = fieldInfo block ∧
  ∃ rs ss,
    rows block' = rows block ++ rs ∧
    summaryRows block' = summaryRows block ++ ss ∧
    Forall (Spec.from_line (fields block)) (rs ++ ss) ∧
    (inSummary = true → rs = []).
Proof.
  revert block inSummary text.
  induction fuel as [|fuel IH]; intros block inSummary text H.
  - cbn [Parser.parseRows] in H.
    assert (block' = block) as ->.
    { destruct (Parser.readLine text) as [[line rest0]|]; [|by inversion H].
      destruct (_ || _); [by inversion H|discriminate]. }
    repeat split; try done. exists [], []. by rewrite !app_nil_r.
  - assert (Hstop : block' = block →
      kind block' = kind block ∧ name block' = name block ∧
      fields block' = fields block ∧ fieldInfo block' = fieldInfo block ∧
      ∃ rs ss, rows block' = rows block ++ rs ∧
        summaryRows block' = summaryRows block ++ ss ∧
        Forall (Spec.from_line (fields block)) (rs ++ ss) ∧
        (inSummary = true → rs = [])).
    { intros ->. repeat split; try done. exists [], []. by rewrite !app_nil_r. }
    destruct (Parser.readLine text) as [[line rest0]|] eqn:Hr.
    2: { rewrite parseRows_stop in H by (by rewrite Hr). apply Hstop. by inversion H. }
    destruct (Js.isEmpty line || Re.isHeaderLike line) eqn:Hc.
    { rewrite parseRows_stop in H by (by rewrite Hr). apply Hstop. by inversion H. }
    rewrite (parseRows_step _ _ _ _ _ _ Hr Hc) in H.
    destruct (Js.startsWith "#" line); [by apply IH in H|].
    destruct (String.eqb _ _).
    { apply IH in H as (? & ? & ? & ? & rs & ss & ? & ? & ? & Hrs).
      repeat split; try done. exists rs, ss. repeat split; try done.
      intros _. by apply Hrs. }
    destruct (Parser.tokenizeLine line) as [values| |] eqn:Ht; simpl in H; try done.
    destruct values as [|v values]; [apply Hstop; by inversion H|].
    destruct (Parser.fillRow _ _ _) as [row| |] eqn:Hf; simpl in H; try done.
    assert (Hrow : Spec.from_line (fields block) row).
    { exists line, (v :: values). by repeat split. }
    destruct inSummary;
      apply IH in H as (? & ? & Hfs & ? & rs & ss & Hrows & Hsum & Hall & Hrs);
      simpl in *; repeat split; try done.
    + exists rs, (row :: ss). rewrite Hrows, Hsum, <- app_assoc. simpl.
      repeat split; try done. rewrite Hrs by done. simpl. rewrite Hrs in Hall by done.
      by constructor.
    + exists (row :: rs), ss. rewrite Hrows, Hsum, <- app_assoc. simpl.
      repeat split; try done. by constructor.
Qed.

(** Every row of a block that [parseBlock] returns was filled from the
    tokens of one line. *)
Lemma parseBlock_rows text block rest :
  Parser.parseBlock text = Ok (Some block, rest) →
  Forall (Spec.from_line (fields block)) (rows block ++ summaryRows block).
Proof.
  intros H. apply parseBlock_Some in H.
  destruct H as (headerLine & rest0 & dotIndex & _ & _ & _ & _ & Hcases).
  destruct Hcases as [(_ & -> & _)|(fieldsLine & rest2 & _ & Hcases)];
    [by constructor|].
  destruct Hcases as [(_ & -> & _)|(fieldTokens & _ & _ & Hp)]; [by constructor|].
  apply parseRows_appends in Hp as (_ & _ & Hfs & _ & rs & ss & -> & -> & Hall & _).
  rewrite Hfs.
  destruct (addFields_rows fieldTokens (newBlock
    (Js.trim (Js.substringTo dotIndex headerLine))
    (Js.trim (Js.substringFrom (S dotIndex) headerLine)))) as (-> & -> & _).
  done.
Qed.

End Rows.

(* ===================================================================== *)
(** ** Rows and declared fields                                           *)
(* ===================================================================== *)

Section RowsAndFields.

(** C2, as stated, fails: the row of [1 2] under the fields [a b c] has no
    entry for [c], which is not the value [Null]. *)
Lemma short_row_has_no_entry :
  parse Ex.short_row_text = Ok Ex.short_row_doc ∧
  blocks Ex.short_row_doc = [Ex.short_row_block] ∧
  rows Ex.short_row_block = [Ex.short_row_row] ∧
  fields Ex.short_row_block = ["a"; "b"; "c"] ∧
  Ex.short_row_row !! "c" = None ∧
  isNull (Ex.short_row_row !! "c") = false ∧
  ¬ Spec.row_total (fields Ex.short_row_block) Ex.short_row_row.
Proof.
  do 6 (split; [vm_compute; reflexivity|]).
  intros Htotal. destruct (Htotal "c") as [v Hv].
  - vm_compute. do 2 right. left.
  - vm_compute in Hv. discriminate.
Qed.

(** The assignments to a field named [__proto__]: no entry is made, unless
    a token of such a field was read as [null] before. *)
Lemma proto_field_examples :
  Parser.fillRow ∅ ["a"; "__proto__"; "b"] ["1"; "2"; "3"] =
    Ok (<["a" := VNumber (mkNumber 1 0)]> (<["b" := VNumber (mkNumber 3 0)]> ∅)) ∧
  Parser.fillRow ∅ ["__proto__"; "a"] ["null"; "1"] =
    Ok (<["a" := VNumber (mkNumber 1 0)]> ∅) ∧
  Parser.fillRow ∅ ["__proto__"; "__proto__"] ["~"; "5"] =
    Ok (<["__proto__" := VNumber (mkNumber 5 0)]> ∅).
Proof. repeat split; vm_compute; reflexivity. Qed.

Lemma filled_from_fillRow fs tokens r :
  Parser.fillRow ∅ fs tokens = Ok r → Spec.filled_from fs tokens r.
Proof.
  intros Hfill.
  assert (Habsent : ∀ f, f ∉ take (length tokens) fs → r !! f = None).
  { intros f Hf. by rewrite (fillRow_absent _ _ _ _ _ Hfill Hf). }
  split; [done|].
  split; [intros i f t ????; by eapply fillRow_lookup|].
  split; [intros f ??; by eapply fillRow_present|].
  split; [done|].
  split; [|by rewrite fillRow_take].
  intros v. apply (fillRow_from_proto fs ∅ tokens r v Hfill). apply lookup_empty.
Qed.

End RowsAndFields.

(* ===================================================================== *)
(** ** Texts given by their lines                                         *)
(* ===================================================================== *)

Section Lines.

Lemma splitLine_line l rest :
  Js.includes Js.LF l = false →
  Parser.splitLine (l +:+ String Js.LF rest) = (l, rest).
Proof.
  induction l as [|c l IH]; simpl; [done|].
  intros H. apply orb_false_iff in H as [Hc Hl].
  rewrite Hc, (IH Hl). done.
Qed.

Lemma splitLine_last l :
  Js.includes Js.LF l = false → Parser.splitLine l = (l, "").
Proof.
  induction l as [|c l IH]; simpl; [done|].
  intros H. apply orb_false_iff in H as [Hc Hl].
  rewrite Hc, (IH Hl). done.
Qed.

Lemma text_of_lines_cons l l' ls :
  text_of_lines (l :: l' :: ls) = l +:+ String Js.LF (text_of_lines (l' :: ls)).
Proof. reflexivity. Qed.

(** [readLine] on a text given by its lines. *)
Lemma readLine_lines l ls :
  Js.includes Js.LF l = false → l ≠ "" →
  Parser.readLine (text_of_lines (l :: ls)) = Some (Js.trim l, text_of_lines ls).
Proof.
  intros Hl Hne. destruct ls as [|l' ls].
  - change (text_of_lines [l]) with l. unfold Parser.readLine.
    destruct l; [done|]. by rewrite splitLine_last.
  - rewrite text_of_lines_cons. unfold Parser.readLine.
    destruct l as [|c l]; [done|].
    change (String c l +:+ String Js.LF (text_of_lines (l' :: ls)))
      with (String c (l +:+ String Js.LF (text_of_lines (l' :: ls)))).
    change (String c (l +:+ String Js.LF (text_of_lines (l' :: ls))))
      with (String c l +:+ String Js.LF (text_of_lines (l' :: ls))) at 2.
    by rewrite splitLine_line.
Qed.

Lemma data_line_nonempty fs l row : Spec.data_line fs l row → l ≠ "".
Proof. intros (_ & H & _) ->. discriminate. Qed.

Lemma with_rows_pushRow block row rs ss :
  Spec.with_rows (Parser.pushRow block row) rs ss =
  Spec.with_rows block (row :: rs) ss.
Proof. unfold Spec.with_rows. simpl. by rewrite <- app_assoc. Qed.

Lemma with_rows_pushSummaryRow block row rs ss :
  Spec.with_rows (Parser.pushSummaryRow block row) rs ss =
  Spec.with_rows block rs (row :: ss).
Proof. unfold Spec.with_rows. simpl. by rewrite <- app_assoc. Qed.

Lemma with_rows_nil block : Spec.with_rows block [] [] = block.
Proof. unfold Spec.with_rows. rewrite !app_nil_r. by destruct block. Qed.

(** One data line at the head of the text: one iteration of the row loop. *)
Lemma parseRows_data_line fuel block inSummary l ls row :
  Spec.data_line (fields block) l row →
  Parser.parseRows (S fuel) block inSummary (text_of_lines (l :: ls)) =
  Parser.parseRows fuel
    (if inSummary then Parser.pushSummaryRow block row else Parser.pushRow block row)
    inSummary (text_of_lines ls).
Proof.
  intros Hd. pose proof (data_line_nonempty _ _ _ Hd) as Hne.
  destruct Hd as (Hlf & Hc & Hhash & Hsep & values & Htok & Hvs & Hfill).
  rewrite (parseRows_step _ _ _ _ _ _ (readLine_lines l ls Hlf Hne) Hc).
  rewrite Hhash, Hsep, Htok. simpl. destruct values; [done|].
  rewrite Hfill. simpl. by destruct inSummary.
Qed.

End Lines.

(* ===================================================================== *)
(** ** The summary separator                                              *)
(* ===================================================================== *)

Section Summary.

(** C8, as stated, fails: both lines after the separator are kept. *)
Lemma two_summary_lines_are_kept :
  ∃ d b r2 r3,
    parse Ex.two_summary_lines_text = Ok d ∧ blocks d = [b] ∧
    summaryRows b = [r2; r3] ∧
    r2 !! "a" = Some (VNumber (mkNumber 2 0)) ∧
    r3 !! "a" = Some (VNumber (mkNumber 3 0)) ∧
    ¬ length (summaryRows b) ≤ 1.
Proof.
  exists (Ex.doc_of (parse Ex.two_summary_lines_text)). eexists _, _, _.
  do 5 (split; [vm_compute; reflexivity|]).
  vm_compute. lia.
Qed.

(** The separator line switches the row loop to summary mode. *)
Lemma parseRows_separator fuel block inSummary text rest :
  Parser.readLine text = Some ("---", rest) →
  Parser.parseRows (S fuel) block inSummary text =
  Parser.parseRows fuel block true rest.
Proof. intros Hr. by rewrite (parseRows_step _ _ _ _ _ _ Hr eq_refl). Qed.

(** Data lines at the head of the text, before other lines. *)
Lemma parseRows_data_prefix ls : ∀ rs fuel block inSummary tail,
  Forall2 (Spec.data_line (fields block)) ls rs →
  Parser.parseRows (length ls + fuel) block inSummary (text_of_lines (ls ++ tail)) =
  Parser.parseRows fuel
    (if inSummary then Spec.with_rows block [] rs else Spec.with_rows block rs [])
    inSummary (text_of_lines tail).
Proof.
  induction ls as [|l ls IH]; intros rs fuel block inSummary tail Hall.
  - inversion Hall; subst. rewrite with_rows_nil. by destruct inSummary.
  - inversion Hall as [|? row ? rs' Hd Hrest]; subst.
    rewrite <- app_comm_cons.
    change (length (l :: ls) + fuel) with (S (length ls + fuel)).
    rewrite (parseRows_data_line _ _ _ _ _ _ Hd).
    destruct inSummary.
    + rewrite (IH rs'); [|done]. by rewrite with_rows_pushSummaryRow.
    + rewrite (IH rs'); [|done]. by rewrite with_rows_pushRow.
Qed.

End Summary.

(* ===================================================================== *)
(** ** A header at the end of the input                                   *)
(* ===================================================================== *)

Section MissingFields.

(** C9, as stated, fails: a header that ends the input is not an error. *)
Lemma header_only_is_not_an_error :
  parse Ex.header_only_text = Ok (mkDocument [newBlock "table" "t"]) ∧
  parse "table.t" = Ok (mkDocument [newBlock "table" "t"]) ∧
  ∀ e, parse "table.t" ≠ Throw e.
Proof.
  split; [vm_compute; reflexivity|].
  split; [vm_compute; reflexivity|].
  intros e. vm_compute. discriminate.
Qed.

(** C9, amended. When the header line [kind.name] is the last content of
    the input, that is when only blank and comment lines follow it, parsing
    does not fail: the block is returned with its kind and name and with no
    fields and no rows, after the blocks read before it. *)
Theorem header_at_end_gives_empty_block (fuel : nat) (doc : Document)
    (text headerLine rest : string) (dotIndex : nat) :
  Parser.readLine text = Some (headerLine, rest) →
  Js.isEmpty headerLine || Js.startsWith "#" headerLine = false →
  Js.indexOf Js.DOT headerLine = Some dotIndex →
  Js.isEmpty (Js.trim (Js.substringTo dotIndex headerLine)) ||
    Js.isEmpty (Js.trim (Js.substringFrom (S dotIndex) headerLine)) = false →
  Parser.skipEmptyLines rest = "" →
  Parser.parseBlocks (S fuel) doc text =
    Ok (mkDocument (blocks doc ++
          [newBlock (Js.trim (Js.substringTo dotIndex headerLine))
                    (Js.trim (Js.substringFrom (S dotIndex) headerLine))])).
Proof.
  intros Hr Hh Hd Hk Hs.
  assert (Hne : text ≠ "") by (intros ->; discriminate).
  rewrite parseBlocks_step by done.
  unfold Parser.parseBlock. rewrite Hr, Hh, Hd, Hk, Hs. simpl.
  by destruct fuel.
Qed.

Lemma header_at_end_gives_empty_block_witness :
  parse Ex.header_only_text = Ok (mkDocument [newBlock "table" "t"]).
Proof.
  apply (header_at_end_gives_empty_block
           (pred (Js.length Ex.header_only_text)) (mkDocument [])
           Ex.header_only_text "table.t" (text_of_lines [""; "# no fields"]) 5);
    vm_compute; reflexivity.
Defined.

End MissingFields.

(* ===================================================================== *)
(** ** Tokens read back from the serializer                               *)
(* ===================================================================== *)

Section ReadBack.

Lemma append_cons c (s1 s2 : string) : String c s1 +:+ s2 = String c (s1 +:+ s2).
Proof. reflexivity. Qed.

Lemma append_empty_l (s : string) : "" +:+ s = s.
Proof. reflexivity. Qed.

Lemma append_assoc (s1 s2 s3 : string) : (s1 +:+ s2) +:+ s3 = s1 +:+ (s2 +:+ s3).
Proof.
  induction s1 as [|c s1 IH]; [done|]. rewrite !append_cons. by rewrite IH.
Qed.

Lemma append_empty_r (s : string) : s +:+ "" = s.
Proof. induction s as [|c s IH]; [done|]. rewrite append_cons. by rewrite IH. Qed.

Lemma replaceAll_append c by_ s1 s2 :
  Js.replaceAll c by_ (s1 +:+ s2) = Js.replaceAll c by_ s1 +:+ Js.replaceAll c by_ s2.
Proof.
  induction s1 as [|d s1 IH]; [done|]. rewrite append_cons.
  cbn [Js.replaceAll]. rewrite IH.
  destruct (Ascii.eqb d c); [by rewrite append_assoc|done].
Qed.

(** The chain of [replace] calls escapes each character on its own. *)
Lemma escape_cons c s :
  Serializer.escape (String c s) = Spec.escape1 c +:+ Serializer.escape s.
Proof.
  unfold Serializer.escape, Spec.escape1. cbv zeta.
  change (String c s) with (Js.str c +:+ s).
  rewrite !replaceAll_append. f_equal.
  destruct c as [[|] [|] [|] [|] [|] [|] [|] [|]]; vm_compute; reflexivity.
Qed.

Lemma parseQuotedString_escape s : ∀ acc rest,
  Parser.parseQuotedString_from acc (Serializer.escape s +:+ String Js.DQUOTE rest) =
  Ok (acc +:+ s, rest).
Proof.
  induction s as [|c s IH]; intros acc rest.
  - simpl. by rewrite append_empty_r.
  - rewrite escape_cons, append_assoc.
    replace (acc +:+ String c s) with ((acc +:+ Js.str c) +:+ s)
      by (by rewrite append_assoc).
    rewrite <- IH. unfold Spec.escape1.
    destruct c as [[|] [|] [|] [|] [|] [|] [|] [|]]; reflexivity.
Qed.

Lemma findCommentStart_escape s : ∀ prev,
  Parser.findCommentStart_from prev true (Serializer.escape s +:+ Js.str Js.DQUOTE) = None.
Proof.
  induction s as [|c s IH]; intros prev.
  - destruct prev as [p|]; simpl; [|done]. by destruct (Ascii.eqb p Js.BACKSLASH).
  - rewrite escape_cons, append_assoc.
    assert (Hstep : ∀ prev d r,
      Ascii.eqb d Js.DQUOTE = false →
      Parser.findCommentStart_from prev true (String d r) =
      S <$> Parser.findCommentStart_from (Some d) true r).
    { intros prev0 d r Hd. simpl. rewrite Hd. simpl. by rewrite andb_false_r. }
    assert (Hquote : ∀ r,
      Parser.findCommentStart_from (Some Js.BACKSLASH) true (String Js.DQUOTE r) =
      S <$> Parser.findCommentStart_from (Some Js.DQUOTE) true r).
    { intros r. reflexivity. }
    unfold Spec.escape1, Js.str in *.
    destruct (Ascii.eqb c Js.BACKSLASH) eqn:E1;
      [|destruct (Ascii.eqb c Js.DQUOTE) eqn:E2;
        [|destruct (Ascii.eqb c Js.LF) eqn:E3;
          [|destruct (Ascii.eqb c Js.TAB) eqn:E4;
            [|destruct (Ascii.eqb c Js.CR) eqn:E5]]]];
      rewrite ?append_cons, ?append_empty_l;
      rewrite ?Hstep, ?Hquote by done; by rewrite IH.
Qed.

(** The tokenizer reads a quoted and escaped string back as one token, the
    string itself. *)
Lemma stripComment_quoted s :
  Parser.stripComment (Serializer.quoted s) = Serializer.quoted s.
Proof.
  unfold Parser.stripComment, Parser.findCommentStart, Serializer.quoted.
  change (Parser.findCommentStart_from None false
            (String Js.DQUOTE (Serializer.escape s +:+ Js.str Js.DQUOTE)))
    with (S <$> Parser.findCommentStart_from (Some Js.DQUOTE) true
            (Serializer.escape s +:+ Js.str Js.DQUOTE)).
  by rewrite findCommentStart_escape.
Qed.

Lemma tokenizeLine_quoted s :
  Parser.tokenizeLine (Serializer.quoted s) = Ok [s].
Proof.
  unfold Parser.tokenizeLine. rewrite stripComment_quoted.
  unfold Serializer.quoted.
  change (Js.length (String Js.DQUOTE (Serializer.escape s +:+ Js.str Js.DQUOTE)))
    with (S (Js.length (Serializer.escape s +:+ Js.str Js.DQUOTE))).
  rewrite (tokenize_step _ _ Js.DQUOTE (Serializer.escape s +:+ Js.str Js.DQUOTE))
    by reflexivity.
  rewrite Ascii.eqb_refl. unfold Parser.parseQuotedString, Js.str.
  rewrite parseQuotedString_escape. simpl.
  by rewrite tokenize_done.
Qed.

End ReadBack.

Section BareTokens.

Lemma findCommentStart_no_hash s : ∀ prev inQuote,
  Js.includes Js.HASH s = false →
  Parser.findCommentStart_from prev inQuote s = None.
Proof.
  induction s as [|c s IH]; intros prev inQuote H; [done|].
  simpl in H. apply orb_false_iff in H as [Hc Hs].
  cbn [Parser.findCommentStart_from]. rewrite Hc. cbn [andb].
  destruct (Ascii.eqb c Js.DQUOTE && _); by rewrite IH.
Qed.

Lemma takeUnquoted_all s :
  Js.includes Js.SPACE s = false → Js.includes Js.TAB s = false →
  Parser.takeUnquoted s = (s, "").
Proof.
  induction s as [|c s IH]; intros Hsp Htab; [done|].
  simpl in Hsp, Htab.
  apply orb_false_iff in Hsp as [Hc1 Hs1]. apply orb_false_iff in Htab as [Hc2 Hs2].
  cbn [Parser.takeUnquoted]. unfold Parser.isSpaceOrTab. rewrite Hc1, Hc2. simpl.
  by rewrite IH.
Qed.

(** A string that needs no quotes, is not empty and has no [#] is read back
    as one token when it is written bare. *)
Lemma tokenizeLine_bare s :
  Serializer.needsQuotes s = false → s ≠ "" → Js.includes Js.HASH s = false →
  Parser.tokenizeLine s = Ok [s].
Proof.
  unfold Serializer.needsQuotes. rewrite !orb_false_iff.
  intros (((((((((Hsp & Htab) & _) & Hdq) & _) & _) & _) & _) & _) & _) Hne Hhash.
  unfold Parser.tokenizeLine, Parser.stripComment, Parser.findCommentStart.
  rewrite findCommentStart_no_hash by done.
  destruct s as [|c s]; [done|].
  simpl in Hsp, Htab, Hdq.
  apply orb_false_iff in Hsp as [Hc1 Hs1]. apply orb_false_iff in Htab as [Hc2 Hs2].
  apply orb_false_iff in Hdq as [Hc3 _].
  change (Js.length (String c s)) with (S (Js.length s)).
  rewrite (tokenize_step _ _ c s).
  2: { cbn [Parser.skipSpaces]. unfold Parser.isSpaceOrTab. by rewrite Hc1, Hc2. }
  rewrite Hc3. rewrite takeUnquoted_all.
  2,3: simpl; rewrite ?Hc1, ?Hc2; done.
  simpl. by rewrite tokenize_done.
Qed.

(** A string value that the parser can produce survives the serializer as a
    single token, unless it is empty or is written bare with a [#] in it. *)
Lemma string_value_roundtrip f s :
  f ≠ "__proto__" →
  Parser.parseValue s = Ok (VString s) →
  s ≠ "" →
  Serializer.needsQuotes s = true ∨ Js.includes Js.HASH s = false →
  Parser.tokenizeLine (Serializer.serializeValue (Some (VString s)))
    ≫= Parser.fillRow ∅ [f] =
  Ok (<[f := VString s]> ∅).
Proof.
  intros Hf Hvalue Hne Hcases. cbn [Serializer.serializeValue].
  assert (Htok : Parser.tokenizeLine (Serializer.serializeString s) = Ok [s]).
  { unfold Serializer.serializeString.
    destruct (Serializer.needsQuotes s) eqn:Hq; simpl.
    - apply tokenizeLine_quoted.
    - destruct Hcases as [|Hhash]; [done|]. by apply tokenizeLine_bare. }
  rewrite Htok. cbn [mbind]. unfold result_bind at 1, Parser.fillRow.
  rewrite fillRow_from_cons, Hvalue. cbn [mbind]. unfold result_bind, Obj.assign.
  apply String.eqb_neq in Hf. by rewrite Hf.
Qed.

End BareTokens.

(* ===================================================================== *)
(** ** Quoted tokens and type inference                                   *)
(* ===================================================================== *)

Section QuotedTokens.

(** C3. The tokenizer returns the text of a token and nothing else: the
    quoted form that the serializer writes for a string is read back as that
    string, and the row filled from it is the row of the bare text.  So a
    quoted token is inferred like a bare one: [true] in quotes is the boolean
    and [123] in quotes is the number, not the strings that the claim asks
    for and that the serializer counts on when it quotes them. *)
Theorem quoted_literals_are_inferred :
  (∀ s, Parser.tokenizeLine (Serializer.quoted s) = Ok [s]) ∧
  (∀ f s, Parser.tokenizeLine (Serializer.quoted s) ≫= Parser.fillRow ∅ [f] =
          Parser.fillRow ∅ [f] [s]) ∧
  Parser.tokenizeLine (in_quotes "true") = Ok ["true"] ∧
  Parser.tokenizeLine "true" = Ok ["true"] ∧
  Parser.parseValue "true" = Ok (VBool true) ∧
  Parser.parseValue "123" = Ok (VNumber (mkNumber 123 0)) ∧
  Serializer.serializeValue (Some (VString "true")) = in_quotes "true" ∧
  Serializer.serializeValue (Some (VString "123")) = in_quotes "123" ∧
  ∃ d b r1 r2,
    parse Ex.quoted_literals_text = Ok d ∧ blocks d = [b] ∧ rows b = [r1; r2] ∧
    r1 !! "v" = Some (VBool true) ∧ r1 !! "v" ≠ Some (VString "true") ∧
    r2 !! "v" = Some (VNumber (mkNumber 123 0)) ∧
    r2 !! "v" ≠ Some (VString "123").
Proof.
  split; [apply tokenizeLine_quoted|].
  split; [intros f s; by rewrite tokenizeLine_quoted|].
  do 6 (split; [vm_compute; reflexivity|]).
  exists (Ex.doc_of (parse Ex.quoted_literals_text)). eexists _, _, _.
  do 3 (split; [vm_compute; reflexivity|]).
  split; [vm_compute; reflexivity|].
  split; [vm_compute; discriminate|].
  split; [vm_compute; reflexivity|].
  vm_compute; discriminate.
Qed.

End QuotedTokens.

(* ===================================================================== *)
(** ** Unterminated strings                                               *)
(* ===================================================================== *)

Section Unterminated.

Lemma length_readQuoted acc line token rest :
  ISONLParser.readQuoted acc line = (token, rest) →
  String.length rest ≤ String.length line.
Proof.
  revert acc. induction line as [line IH] using (well_founded_induction
    (well_founded_ltof _ String.length)). unfold ltof in IH.
  intros acc H. destruct line as [|c r]; simpl in H.
  - inversion H; subst. simpl. lia.
  - destruct (Ascii.eqb c Js.DQUOTE).
    { inversion H; subst. simpl. lia. }
    destruct (Ascii.eqb c Js.BACKSLASH).
    + destruct r as [|next r'].
      * simpl in H. inversion H; subst. simpl. lia.
      * apply IH in H; simpl in *; lia.
    + apply IH in H; simpl in *; lia.
Qed.

Lemma isonl_tokenize_succeeds fuel line :
  String.length line ≤ fuel → ∃ tokens, ISONLParser.tokenize fuel line = Ok tokens.
Proof.
  revert line. induction fuel as [|fuel IH]; intros line Hlen.
  - destruct line; simpl in *; [eauto|lia].
  - cbn [ISONLParser.tokenize]. pose proof (length_skipSpaces line) as Hs.
    destruct (Parser.skipSpaces line) as [|c r] eqn:Es; [eauto|].
    simpl in Hs.
    assert (Hrest : ∀ token rest,
      (if Ascii.eqb c Js.DQUOTE then ISONLParser.readQuoted "" r
       else Parser.takeUnquoted (String c r)) = (token, rest) →
      String.length rest ≤ fuel).
    { intros token rest H. destruct (Ascii.eqb c Js.DQUOTE).
      - apply length_readQuoted in H. lia.
      - apply length_takeUnquoted_first in H; [lia|].
        eapply skipSpaces_first; eauto. }
    destruct (if Ascii.eqb c Js.DQUOTE then _ else _) as [token rest].
    destruct (IH rest (Hrest _ _ eq_refl)) as [tokens ->]. simpl. eauto.
Qed.

(** The tokenizer of [Parser] throws nothing but [UnterminatedString]. *)
Lemma tokenize_throws_unterminated fuel line e :
  Parser.tokenize fuel line = Throw e → e = UnterminatedString.
Proof.
  revert line. induction fuel as [|fuel IH]; intros line H.
  - simpl in H. destruct (Parser.skipSpaces line); discriminate.
  - destruct (Parser.skipSpaces line) as [|c r] eqn:Es.
    { rewrite tokenize_done in H by done. discriminate. }
    rewrite (tokenize_step _ _ _ _ Es) in H.
    assert (Hq : ∀ acc s e', Parser.parseQuotedString_from acc s = Throw e' →
                             e' = UnterminatedString).
    { clear. intros acc s. revert acc.
      induction s as [s IHs] using (well_founded_induction
        (well_founded_ltof _ String.length)). unfold ltof in IHs.
      intros acc e' H. destruct s as [|c r]; simpl in H; [by inversion H|].
      destruct (Ascii.eqb c Js.BACKSLASH).
      - destruct r as [|n r']; [simpl in H; by inversion H|].
        eapply IHs; [|exact H]. simpl. lia.
      - destruct (Ascii.eqb c Js.DQUOTE); [discriminate|].
        eapply IHs; [|exact H]. simpl. lia. }
    destruct (Ascii.eqb c Js.DQUOTE).
    + destruct (Parser.parseQuotedString r) as [[token rest]|e'|] eqn:Eq;
        simpl in H; try discriminate.
      * destruct (Parser.tokenize fuel rest) eqn:Et; simpl in H; try discriminate.
        inversion H; subst. eapply IH; eauto.
      * inversion H; subst. eapply Hq; eauto.
    + destruct (Parser.takeUnquoted (String c r)) as [token rest].
      cbn [mbind result_bind] in H.
      destruct (Parser.tokenize fuel rest) eqn:Et; simpl in H; try discriminate.
      inversion H; subst. eapply IH; eauto.
Qed.

(** C4. In [Parser] a quote that the line does not close is an error, and
    the only error of the tokenizer.  In [ISONLParser] it is not:
    [tokenizeValues] returns tokens for every line, and the end of the line
    closes the string, so the ISONL line [table.t|v|] followed by a quote
    and [abc] decodes to the string [abc]. *)
Theorem isonl_accepts_unterminated_string :
  (∀ line, ∃ tokens, ISONLParser.tokenizeValues line = Ok tokens) ∧
  (∀ line e, Parser.tokenizeLine line = Throw e → e = UnterminatedString) ∧
  Parser.tokenizeLine (String Js.DQUOTE "abc") = Throw UnterminatedString ∧
  ISONLParser.tokenizeValues (String Js.DQUOTE "abc") = Ok ["abc"] ∧
  ∃ d b r,
    loadsIsonl Ex.open_quote_isonl = Ok d ∧ blocks d = [b] ∧ rows b = [r] ∧
    r !! "v" = Some (VString "abc").
Proof.
  split.
  { intros line. apply isonl_tokenize_succeeds. unfold Js.length. lia. }
  split.
  { intros line e. unfold Parser.tokenizeLine. apply tokenize_throws_unterminated. }
  do 2 (split; [vm_compute; reflexivity|]).
  exists (Ex.doc_of (loadsIsonl Ex.open_quote_isonl)). eexists _, _.
  do 3 (split; [vm_compute; reflexivity|]).
  vm_compute; reflexivity.
Qed.

End Unterminated.

(* ===================================================================== *)
(** ** References                                                         *)
(* ===================================================================== *)

Section References.

Lemma upper_or_underscore_spec c :
  Js.isUpperOrUnderscore c = true ↔ Spec.upper_or_underscore c.
Proof.
  unfold Js.isUpperOrUnderscore, Spec.upper_or_underscore.
  rewrite orb_true_iff, andb_true_iff, !N.leb_le, N.eqb_eq.
  assert (N_of_ascii c = 95%N ↔ c = Js.UNDERSCORE) as ->; [|done].
  split; [|by intros ->].
  intros H. apply (f_equal ascii_of_N) in H. by rewrite ascii_N_embedding in H.
Qed.

Lemma all_upper_spec x :
  Re.all Js.isUpperOrUnderscore x = true ↔
  Forall Spec.upper_or_underscore (list_ascii_of_string x).
Proof.
  induction x as [|c x IH]; simpl.
  - split; [constructor|done].
  - rewrite andb_true_iff, Forall_cons, IH, upper_or_underscore_spec. done.
Qed.

Lemma isUpperWord_spec x :
  Re.isUpperWord x = true ↔ Spec.relationship_segment x.
Proof.
  unfold Re.isUpperWord, Spec.relationship_segment.
  rewrite andb_true_iff, all_upper_spec.
  destruct x; simpl; [split; intros []; done|].
  split; intros [_ H]; done.
Qed.

Lemma upperUnits_upper c :
  Js.isUpperOrUnderscore c = true → Js.upperUnits c = [N_of_ascii c].
Proof.
  destruct c as [[|] [|] [|] [|] [|] [|] [|] [|]]; vm_compute; congruence.
Qed.

Lemma toUpperCase_upper x :
  Re.all Js.isUpperOrUnderscore x = true → Js.isOwnUpperCase x = true.
Proof.
  unfold Js.isOwnUpperCase. intros H. apply bool_decide_eq_true.
  induction x as [|c x IH]; simpl in *; [done|].
  apply andb_true_iff in H as [Hc Hx].
  rewrite upperUnits_upper by done. simpl. by rewrite IH.
Qed.

Lemma isRelationship_spec id x :
  Ref.isRelationship (mkReference id (Some x)) = true ↔ Spec.relationship_segment x.
Proof.
  rewrite <- isUpperWord_spec. unfold Ref.isRelationship. simpl.
  destruct x as [|c x]; [done|]. cbn [Js.isEmpty].
  rewrite andb_true_iff. split; [tauto|].
  intros H. split; [|done]. unfold Re.isUpperWord in H.
  apply andb_true_iff in H as [_ H]. by apply toUpperCase_upper.
Qed.

(** C5. [:OWNS:5] is the relationship [OWNS] to id [5], [:user:42] is the
    namespace [user] and id [42], [:7] is the bare id [7].  A token whose
    text after the first colon splits into two parts [x] and [id] parses to
    the reference with that id whose relationship is [x] exactly when [x] is
    not empty and made of ASCII upper-case letters and underscores, and whose
    namespace is [x] otherwise.  No reference has both a namespace and a
    relationship. *)
Theorem reference_case_rule :
  (∃ r, Parser.parseValue ":OWNS:5" = Ok (VRef r) ∧ ref_id r = "5" ∧
        Ref.relationshipType r = Some "OWNS" ∧ Ref.getNamespace r = None) ∧
  (∃ r, Parser.parseValue ":user:42" = Ok (VRef r) ∧ ref_id r = "42" ∧
        Ref.getNamespace r = Some "user" ∧ Ref.relationshipType r = None) ∧
  (∃ r, Parser.parseValue ":7" = Ok (VRef r) ∧ ref_id r = "7" ∧
        Ref.getNamespace r = None ∧ Ref.relationshipType r = None) ∧
  (∀ token x id,
     Js.split Js.COLON (Js.substringFrom 1 token) = [x; id] →
     ∃ r, Parser.parseReference token = Ok r ∧ ref_id r = id ∧
          (Ref.isRelationship r = true ↔ Spec.relationship_segment x) ∧
          (Spec.relationship_segment x →
             Ref.relationshipType r = Some x ∧ Ref.getNamespace r = None) ∧
          (¬ Spec.relationship_segment x →
             Ref.relationshipType r = None ∧ Ref.getNamespace r = Some x)) ∧
  (∀ r, Ref.getNamespace r = None ∨ Ref.relationshipType r = None).
Proof.
  split; [eexists; repeat split; vm_compute; reflexivity|].
  split; [eexists; repeat split; vm_compute; reflexivity|].
  split; [eexists; repeat split; vm_compute; reflexivity|].
  split.
  - intros token x id Hsplit. exists (mkReference id (Some x)).
    unfold Parser.parseReference. rewrite Hsplit.
    split; [done|]. split; [done|].
    pose proof (isRelationship_spec id x) as Hrel.
    split; [done|].
    unfold Ref.relationshipType, Ref.getNamespace.
    destruct (Ref.isRelationship _); simpl.
    + split; [done|]. intros Hn. exfalso. apply Hn. by apply Hrel.
    + split; [|done]. intros Hx. apply Hrel in Hx. discriminate.
  - intros r. unfold Ref.getNamespace, Ref.relationshipType.
    destruct (Ref.isRelationship r); simpl; auto.
Qed.

Lemma reference_case_rule_witness :
  ∃ r, Parser.parseReference ":MEMBER_OF:10" = Ok r ∧ ref_id r = "10" ∧
       Ref.relationshipType r = Some "MEMBER_OF" ∧ Ref.getNamespace r = None.
Proof.
  destruct reference_case_rule as (_ & _ & _ & Hgen & _).
  destruct (Hgen ":MEMBER_OF:10" "MEMBER_OF" "10" ltac:(vm_compute; reflexivity))
    as (r & Hr & Hid & Hrel & Hyes & _).
  exists r. split; [exact Hr|]. split; [exact Hid|].
  apply Hyes. apply Hrel.
  assert (r = mkReference "10" (Some "MEMBER_OF")) as ->
    by (vm_compute in Hr; congruence).
  vm_compute. reflexivity.
Defined.

End References.

(* ===================================================================== *)
(** ** The quoting predicate of the serializer                            *)
(* ===================================================================== *)

Section Quoting.

Lemma includes_spec c s : Js.includes c s = true ↔ Spec.contains c s.
Proof.
  unfold Spec.contains. induction s as [|d s IH]; simpl.
  - split; [done|]. by intros ?%elem_of_nil.
  - rewrite orb_true_iff, IH, elem_of_cons, Ascii.eqb_eq.
    split; intros [H|H]; auto.
Qed.

Lemma startsWith_colon_spec s :
  Js.startsWith ":" s = true ↔ ∃ r, s = String Js.COLON r.
Proof.
  destruct s as [|c s].
  - split; [done|]. by intros [r Hr].
  - change (Js.startsWith ":" (String c s)) with (Ascii.eqb ":" c && true).
    rewrite andb_true_r, Ascii.eqb_eq. split.
    + intros <-. by exists s.
    + by intros [r [= -> _]].
Qed.

Lemma needsQuotes_spec s :
  Serializer.needsQuotes s = true ↔ Spec.quoting_with_backslash s.
Proof.
  unfold Serializer.needsQuotes, Spec.quoting_with_backslash, Re.isNumeric.
  rewrite !orb_true_iff, !includes_spec, !String.eqb_eq, startsWith_colon_spec.
  tauto.
Qed.

Lemma length_append s1 s2 :
  String.length (s1 +:+ s2) = String.length s1 + String.length s2.
Proof. induction s1 as [|c s1 IH]; simpl; [done|]. by rewrite IH. Qed.

Lemma length_replaceAll c by_ s :
  1 ≤ String.length by_ →
  String.length s ≤ String.length (Js.replaceAll c by_ s).
Proof.
  intros Hby. induction s as [|d s IH]; simpl; [lia|].
  destruct (Ascii.eqb d c); simpl; [|lia].
  rewrite length_append. lia.
Qed.

Lemma length_escape s :
  String.length s ≤ String.length (Serializer.escape s).
Proof.
  unfold Serializer.escape. cbv zeta.
  do 4 (etrans; [|apply length_replaceAll; simpl; lia]).
  apply length_replaceAll. simpl. lia.
Qed.

Lemma quoted_longer s :
  String.length s + 2 ≤ String.length (Serializer.quoted s).
Proof.
  unfold Serializer.quoted. cbn [String.length].
  rewrite length_append. pose proof (length_escape s). simpl. lia.
Qed.

Lemma quoted_differs s : Serializer.quoted s ≠ s.
Proof.
  intros H. pose proof (quoted_longer s) as Hl. rewrite H in Hl. lia.
Qed.

(** C6, as stated, fails both ways: a string with a backslash is quoted
    though the specified predicate does not hold of it, and the empty string,
    of which it holds, is written as it is. *)
Lemma quoting_differs_from_specified :
  (Serializer.serializeString (String "a" (String Js.BACKSLASH "b")) =
     Serializer.quoted (String "a" (String Js.BACKSLASH "b")) ∧
   ¬ Spec.quoting_as_specified (String "a" (String Js.BACKSLASH "b"))) ∧
  (Spec.quoting_as_specified "" ∧
   Serializer.serializeString "" = "" ∧
   Serializer.serializeString "" ≠ Serializer.quoted "").
Proof.
  split; [split; [vm_compute; reflexivity|]|].
  - unfold Spec.quoting_as_specified. rewrite <- !includes_spec.
    intros [H|[H|[H|[H|[H|[H|[H|[[r H]|[H|[H|H]]]]]]]]]]; vm_compute in H;
      discriminate.
  - split; [unfold Spec.quoting_as_specified; tauto|].
    split; [reflexivity|]. vm_compute. discriminate.
Qed.

(** C6, amended. A string that is not empty is written quoted and escaped
    exactly when it holds a space, a tab, a double quote, a newline or a
    backslash, or is [true], [false] or [null], or starts with a colon, or
    matches the integer or the decimal pattern of type inference; otherwise
    it is written as it is. *)
Theorem quoting_predicate (s : string) :
  s ≠ "" →
  (Serializer.serializeString s = Serializer.quoted s ↔
     Spec.quoting_with_backslash s) ∧
  (¬ Spec.quoting_with_backslash s → Serializer.serializeString s = s).
Proof.
  intros _. rewrite <- needsQuotes_spec. unfold Serializer.serializeString.
  destruct (Serializer.needsQuotes s); simpl.
  - split; [done|]. intros H. by destruct H.
  - split; [|done]. split; [|done]. intros H. symmetry in H.
    by apply quoted_differs in H.
Qed.

Lemma quoting_predicate_witness :
  (Serializer.serializeString "hello world" = Serializer.quoted "hello world" ↔
     Spec.quoting_with_backslash "hello world") ∧
  (¬ Spec.quoting_with_backslash "hello world" →
     Serializer.serializeString "hello world" = "hello world").
Proof. apply (quoting_predicate "hello world"). discriminate. Defined.

End Quoting.

(* ===================================================================== *)
(** ** The sections of an ISONL line                                      *)
(* ===================================================================== *)

Section Sections.

Lemma isonl_line_needs_three_parts st line :
  Js.isEmpty (Js.trim line) || Js.startsWith "#" (Js.trim line) = false →
  length (Js.split Js.PIPE (Js.trim line)) ≠ 3 →
  ISONLParser.parseLine st line = Throw (InvalidISONLLine line).
Proof.
  intros Hc Hlen. unfold ISONLParser.parseLine. cbv zeta. rewrite Hc.
  destruct (Js.split Js.PIPE (Js.trim line)) as [|a [|b [|c [|d l]]]];
    simpl in *; done.
Qed.

Lemma length_split c s :
  length (Js.split c s) = S (Spec.count c s).
Proof.
  induction s as [|d s IH]; simpl; [done|].
  destruct (Ascii.eqb d c); simpl; [by rewrite IH|].
  destruct (Js.split c s); simpl in *; lia.
Qed.

(** C7. [ISONLParser] cuts a line at every [|], quoted or not, and rejects
    the line unless that makes three parts.  The line [table.t|v|] followed
    by [x|y] in quotes has exactly two [|] outside quotes and is rejected,
    although it is the line that [dumpsIsonl] writes for the parsed string
    [x|y], which [ISONLSerializer] quotes because of its [|]. *)
Theorem quoted_pipe_is_a_separator :
  Spec.unquotedPipes Ex.quoted_pipe_isonl = 2 ∧
  Spec.count Js.PIPE Ex.quoted_pipe_isonl = 3 ∧
  loadsIsonl Ex.quoted_pipe_isonl = Throw (InvalidISONLLine Ex.quoted_pipe_isonl) ∧
  (∃ d, parse Ex.pipe_text = Ok d ∧ dumpsIsonl d = Ex.quoted_pipe_isonl) ∧
  (∀ st line,
     Js.isEmpty (Js.trim line) || Js.startsWith "#" (Js.trim line) = false →
     Spec.count Js.PIPE (Js.trim line) ≠ 2 →
     ISONLParser.parseLine st line = Throw (InvalidISONLLine line)).
Proof.
  do 3 (split; [vm_compute; reflexivity|]).
  split.
  { exists (Ex.doc_of (parse Ex.pipe_text)). split; vm_compute; reflexivity. }
  intros st line Hc Hn. apply isonl_line_needs_three_parts; [done|].
  rewrite length_split. lia.
Qed.

End Sections.

(* ===================================================================== *)
(** ** Round trip through the serializer                                  *)
(* ===================================================================== *)

Section RoundTrip.

Lemma empty_string_is_not_quoted : Serializer.serializeString "" = "".
Proof. reflexivity. Qed.

Lemma empty_string_reparse_differs (alignColumns : bool) :
  ¬ Spec.roundtrips alignColumns Ex.empty_string_doc.
Proof.
  intros (d' & Hparse & Hsame).
  assert (Hd' : d' = Ex.doc_of (parse (dumps Ex.empty_string_doc alignColumns)))
    by (rewrite Hparse; reflexivity).
  subst d'. unfold Spec.same_content in Hsame.
  apply (f_equal Ex.probe) in Hsame.
  destruct alignColumns; vm_compute in Hsame; discriminate.
Qed.

(** A string with a [#] is written bare as well, and read back cut at the
    [#]: the row of [x#y] comes back as the row of [x]. *)
Lemma roundtrip_fails_on_hash (alignColumns : bool) :
  parse Ex.hash_text = Ok Ex.hash_doc ∧
  Ex.probe (map Spec.block_content (blocks Ex.hash_doc)) = Some (VString "x#y") ∧
  dumps Ex.hash_doc alignColumns = text_of_lines ["table.t"; "a"; "x#y"] ∧
  Ex.probe (map Spec.block_content
              (blocks (Ex.doc_of (parse (dumps Ex.hash_doc alignColumns))))) =
    Some (VString "x") ∧
  ¬ Spec.roundtrips alignColumns Ex.hash_doc.
Proof.
  do 2 (split; [vm_compute; reflexivity|]).
  split; [destruct alignColumns; vm_compute; reflexivity|].
  split; [destruct alignColumns; vm_compute; reflexivity|].
  intros (d' & Hparse & Hsame).
  assert (Hd' : d' = Ex.doc_of (parse (dumps Ex.hash_doc alignColumns)))
    by (rewrite Hparse; reflexivity).
  subst d'. unfold Spec.same_content in Hsame.
  apply (f_equal Ex.probe) in Hsame.
  destruct alignColumns; vm_compute in Hsame; discriminate.
Qed.

(** C1. The round trip [parse(dumps(d, alignColumns))] does not hold for
    every parsed document.  The text with header [table.t], fields [a b] and
    one row, an empty quoted string and [x], parses to a row with [a] the
    empty string and [b] the string [x]; the serializer writes the empty
    string without quotes, and the text it produces parses to a row with [a]
    the string [x] and no [b], with and without column alignment. *)
Theorem roundtrip_fails_on_empty_string :
  parse Ex.empty_string_text = Ok Ex.empty_string_doc ∧
  (∃ b r, blocks Ex.empty_string_doc = [b] ∧ rows b = [r] ∧
          r !! "a" = Some (VString "") ∧ r !! "b" = Some (VString "x")) ∧
  dumps Ex.empty_string_doc false = text_of_lines ["table.t"; "a b"; " x"] ∧
  dumps Ex.empty_string_doc true = text_of_lines ["table.t"; "a b"; "  x"] ∧
  (∃ d' b' r', parse (dumps Ex.empty_string_doc false) = Ok d' ∧
          blocks d' = [b'] ∧ rows b' = [r'] ∧
          r' !! "a" = Some (VString "x") ∧ r' !! "b" = None) ∧
  ¬ Spec.roundtrips true Ex.empty_string_doc ∧
  ¬ Spec.roundtrips false Ex.empty_string_doc.
Proof.
  split; [vm_compute; reflexivity|].
  split.
  { eexists _, _. do 3 (split; [vm_compute; reflexivity|]).
    vm_compute; reflexivity. }
  do 2 (split; [vm_compute; reflexivity|]).
  split.
  { exists (Ex.doc_of (parse (dumps Ex.empty_string_doc false))). eexists _, _.
    do 4 (split; [vm_compute; reflexivity|]).
    vm_compute; reflexivity. }
  split; apply empty_string_reparse_differs.
Qed.

End RoundTrip.

(* ===================================================================== *)
(** ** The errors of the two parsers                                      *)
(* ===================================================================== *)

Section Errors.

Lemma parseValue_throws token e :
  Parser.parseValue token = Throw e → e = InvalidReference token.
Proof.
  unfold Parser.parseValue. repeat (case_match; try discriminate).
  unfold Parser.parseReference.
  destruct (Js.split _ _) as [|? [|? [|? ?]]]; simpl; congruence.
Qed.

Lemma fillRow_from_throws fs : ∀ inherits row tokens e,
  Parser.fillRow_from inherits row fs tokens = Throw e →
  ∃ t, t ∈ tokens ∧ e = InvalidReference t.
Proof.
  induction fs as [|f fs IH]; intros inherits row [|t tokens] e H;
    try discriminate.
  rewrite fillRow_from_cons in H.
  destruct (Parser.parseValue t) as [v|e'|] eqn:Hv; simpl in H; try discriminate.
  - destruct (IH _ _ _ _ H) as (u & Hu & ->). exists u. split; [by right|done].
  - inversion H; subst. apply parseValue_throws in Hv. exists t. split; [by left|done].
Qed.

Lemma fillRow_throws row fs tokens e :
  Parser.fillRow row fs tokens = Throw e → ∃ t, t ∈ tokens ∧ e = InvalidReference t.
Proof. apply fillRow_from_throws. Qed.

Lemma parseRows_throws fuel block inSummary text e :
  Parser.parseRows fuel block inSummary text = Throw e → Law.parser_error e.
Proof.
  revert block inSummary text. induction fuel as [|fuel IH];
    intros block inSummary text H.
  - cbn [Parser.parseRows] in H.
    destruct (Parser.readLine text) as [[line rest]|]; [|discriminate].
    destruct (_ || _); discriminate.
  - destruct (Parser.readLine text) as [[line rest]|] eqn:Hr.
    2: { rewrite parseRows_stop in H by (by rewrite Hr). discriminate. }
    destruct (Js.isEmpty line || Re.isHeaderLike line) eqn:Hc.
    { rewrite parseRows_stop in H by (by rewrite Hr). discriminate. }
    rewrite (parseRows_step _ _ _ _ _ _ Hr Hc) in H.
    destruct (Js.startsWith "#" line); [by eapply IH|].
    destruct (String.eqb _ _); [by eapply IH|].
    destruct (Parser.tokenizeLine line) as [values|e'|] eqn:Ht; simpl in H;
      try discriminate.
    2: { inversion H; subst. unfold Parser.tokenizeLine in Ht.
         apply tokenize_throws_unterminated in Ht. by subst. }
    destruct values as [|v values]; [discriminate|].
    destruct (Parser.fillRow _ _ _) as [row|e'|] eqn:Hf; simpl in H;
      try discriminate.
    2: { inversion H; subst. apply fillRow_throws in Hf as (t & _ & ->). done. }
    destruct inSummary; by eapply IH.
Qed.

Lemma parseBlock_throws text e :
  Parser.parseBlock text = Throw e → Law.parser_error e.
Proof.
  unfold Parser.parseBlock. intros H.
  destruct (Parser.readLine text) as [[headerLine rest0]|]; [|discriminate].
  destruct (Js.isEmpty headerLine || Js.startsWith "#" headerLine); [discriminate|].
  destruct (Js.indexOf Js.DOT headerLine); [|by inversion H].
  destruct (Js.isEmpty _ || Js.isEmpty _); [by inversion H|].
  destruct (Parser.readLine (Parser.skipEmptyLines rest0)) as [[fl r2]|];
    [|discriminate].
  destruct (Js.isEmpty fl); [discriminate|].
  destruct (Parser.tokenizeLine fl) as [toks|e'|] eqn:Ht; simpl in H;
    try discriminate.
  2: { inversion H; subst. unfold Parser.tokenizeLine in Ht.
       apply tokenize_throws_unterminated in Ht. by subst. }
  destruct (Parser.parseRows _ _ _ _) as [[? ?]|e'|] eqn:Hp; simpl in H;
    try discriminate.
  inversion H; subst. by eapply parseRows_throws.
Qed.

Lemma parseBlocks_throws fuel doc text e :
  Parser.parseBlocks fuel doc text = Throw e → Law.parser_error e.
Proof.
  revert doc text. induction fuel as [|fuel IH]; intros doc text H.
  - destruct text; discriminate.
  - destruct (decide (text = "")) as [->|Hne]; [discriminate|].
    rewrite parseBlocks_step in H by done.
    destruct (Parser.parseBlock text) as [[block rest]|e'|] eqn:Hb; simpl in H;
      try discriminate.
    + by eapply IH.
    + inversion H; subst. by eapply parseBlock_throws.
Qed.

(** X1. [parse] ends on every text: with a document, or with one of the three
    errors of [Parser], an invalid block header, an unterminated string or an
    invalid reference. *)
Theorem parse_ends_with_document_or_parser_error (text : string) :
  (∃ doc, parse text = Ok doc) ∨
  (∃ e, parse text = Throw e ∧ Law.parser_error e).
Proof.
  pose proof (parse_total text) as Htotal.
  destruct (parse text) as [doc|e|] eqn:Hp; [eauto| |done].
  right. exists e. split; [done|].
  unfold parse, Parser.parse in Hp. by eapply parseBlocks_throws.
Qed.

End Errors.

(* ===================================================================== *)
(** ** What ISONL text is accepted, and the document it gives             *)
(* ===================================================================== *)

Section Isonl.

Lemma indexOf_includes c s :
  Js.indexOf c s = None ↔ Js.includes c s = false.
Proof.
  induction s as [|d s IH]; simpl; [done|].
  destruct (Ascii.eqb d c); simpl; [done|].
  rewrite <- IH. destruct (Js.indexOf c s); simpl; split; done.
Qed.

Lemma split_three c s :
  (∃ x y z, Js.split c s = [x; y; z]) ↔ Spec.count c s = 2.
Proof.
  pose proof (length_split c s) as Hlen.
  destruct (Js.split c s) as [|x [|y [|z [|w l]]]] eqn:Hs; simpl in Hlen;
    split; try (intros (?&?&?&[=])); try lia; eauto.
Qed.

Lemma isonl_tokenizeValues_Ok line :
  ∃ values, ISONLParser.tokenizeValues line = Ok values.
Proof. apply isonl_tokenize_succeeds. unfold Js.length. lia. Qed.

(** The outcome of one line depends on the line only. *)
Lemma parseLine_Ok st line :
  (∃ st', ISONLParser.parseLine st line = Ok st') ↔
  Law.isonl_skipped line = true ∨ Law.isonl_record line.
Proof.
  unfold ISONLParser.parseLine, Law.isonl_skipped, Law.isonl_record. cbv zeta.
  destruct (Js.isEmpty (Js.trim line) || Js.startsWith "#" (Js.trim line));
    [split; eauto|].
  rewrite <- split_three.
  destruct (Js.split Js.PIPE (Js.trim line)) as [|h [|f [|v [|w l]]]] eqn:Hs;
    try (split; [by intros [? [=]]|by intros [[=]|[(?&?&?&[=]) _]]]).
  simpl hd.
  destruct (Js.indexOf Js.DOT h) as [dotIndex|] eqn:Hd.
  - assert (Js.includes Js.DOT h = true) as ->.
    { destruct (Js.includes Js.DOT h) eqn:Hi; [done|].
      apply indexOf_includes in Hi. congruence. }
    split; [intros _; right; eauto|intros _].
    destruct (ISONLParser.st_blockMap st !! _);
      destruct (isonl_tokenizeValues_Ok v) as [values ->]; simpl; eauto.
  - apply indexOf_includes in Hd. rewrite Hd.
    split; [by intros [? [=]]|by intros [[=]|[_ [=]]]].
Qed.

Lemma parseLines_Ok lines : ∀ st,
  (∃ st', ISONLParser.parseLines st lines = Ok st') ↔
  Forall (λ l, Law.isonl_skipped l = true ∨ Law.isonl_record l) lines.
Proof.
  induction lines as [|line lines IH]; intros st; simpl.
  - split; [constructor|eauto].
  - rewrite Forall_cons, <- (parseLine_Ok st line). split.
    + intros [st' H].
      destruct (ISONLParser.parseLine st line) as [st1| |] eqn:H1; simpl in H;
        try discriminate.
      split; [eauto|]. apply (IH st1). eauto.
    + intros [[st1 H1] Hrest]. rewrite H1. simpl. by apply IH.
Qed.

(** X10. [loadsIsonl] accepts a text exactly when each of its lines is blank, is
    a comment, or has two [|] in all, quoted or not, with a dot before the
    first. *)
Theorem loadsIsonl_accepts_iff (text : string) :
  (∃ doc, loadsIsonl text = Ok doc) ↔
  Forall (λ l, Law.isonl_skipped l = true ∨ Law.isonl_record l)
    (Js.split Js.LF text).
Proof.
  rewrite <- (parseLines_Ok _ (ISONLParser.mkState [] ∅)).
  unfold loadsIsonl, ISONLParser.parse.
  destruct (ISONLParser.parseLines _ _) as [st| |]; simpl;
    split; intros [? H]; try discriminate; eauto.
Qed.

End Isonl.

(* ===================================================================== *)
(** ** The shape of a document read from ISONL                           *)
(* ===================================================================== *)

Section IsonlShape.

Lemma fieldInfoOf_name token : fi_name (Law.fieldInfoOf token) = Law.fieldName token.
Proof.
  unfold Law.fieldInfoOf, Law.fieldName. by destruct (Js.indexOf _ _).
Qed.

Lemma addField_fields block token :
  fields (Parser.addField block token) = fields block ++ [Law.fieldName token] ∧
  fieldInfo (Parser.addField block token) =
    fieldInfo block ++ [Law.fieldInfoOf token].
Proof.
  unfold Parser.addField, Law.fieldName, Law.fieldInfoOf.
  by destruct (Js.indexOf _ _).
Qed.

Lemma addFields_fields tokens : ∀ block,
  fields (fold_left Parser.addField tokens block) =
    fields block ++ map Law.fieldName tokens ∧
  fieldInfo (fold_left Parser.addField tokens block) =
    fieldInfo block ++ map Law.fieldInfoOf tokens.
Proof.
  induction tokens as [|t tokens IH]; intros block; simpl.
  - by rewrite !app_nil_r.
  - destruct (IH (Parser.addField block t)) as [-> ->].
    destruct (addField_fields block t) as [-> ->].
    by rewrite <- !app_assoc.
Qed.

Lemma splitWhiteSpace_go_nonempty inRun s : Js.splitWhiteSpace_go inRun s ≠ [].
Proof.
  revert inRun. induction s as [|c s IH]; intros inRun; simpl; [done|].
  destruct (Js.isWhiteSpace c).
  - destruct inRun; [apply IH|done].
  - by destruct (Js.splitWhiteSpace_go false s).
Qed.

Lemma row_count_alter (f : Block → Block) i (bs : list Block) b :
  bs !! i = Some b → length (rows (f b)) = S (length (rows b)) →
  Law.row_count (alter f i bs) = S (Law.row_count bs).
Proof.
  unfold Law.row_count. revert i. induction bs as [|x bs IH]; intros [|i] Hi Hf;
    try done.
  - inversion Hi; subst. change (alter f 0 (b :: bs)) with (f b :: bs).
    cbn [map sum_list sum_list_with] in *. unfold id in *. lia.
  - change (alter f (S i) (x :: bs)) with (x :: alter f i bs).
    cbn [lookup list_lookup] in Hi.
    specialize (IH i Hi Hf). cbn [map sum_list sum_list_with] in *. unfold id in *. lia.
Qed.

Lemma row_count_app bs1 bs2 :
  Law.row_count (bs1 ++ bs2) = Law.row_count bs1 + Law.row_count bs2.
Proof.
  unfold Law.row_count. induction bs1 as [|b bs1 IH]; [done|].
  cbn [app map sum_list sum_list_with] in *. unfold id in *. lia.
Qed.

Lemma isonl_block_pushRow b values :
  fields b = map fi_name (fieldInfo b) → fields b ≠ [] → summaryRows b = [] →
  Forall (λ r, ∃ values, r = ISONLParser.fillRow ∅ (fields b) values) (rows b) →
  Law.isonl_block (Parser.pushRow b (ISONLParser.fillRow ∅ (fields b) values)).
Proof.
  intros H1 H2 H3 H4. unfold Law.isonl_block. simpl.
  repeat split; try done.
  - by destruct (rows b).
  - apply Forall_app. split; [done|]. constructor; [eauto|constructor].
Qed.

(** One line keeps the invariant of the loop, and adds one row unless it is
    skipped. *)
Lemma parseLine_keeps st line st' :
  ISONLParser.parseLine st line = Ok st' →
  Law.isonl_inv st → Forall Law.isonl_block (ISONLParser.st_blocks st) →
  Law.isonl_inv st' ∧ Forall Law.isonl_block (ISONLParser.st_blocks st') ∧
  Law.row_count (ISONLParser.st_blocks st') =
    Law.row_count (ISONLParser.st_blocks st) +
    (if Law.isonl_skipped line then 0 else 1).
Proof.
  unfold ISONLParser.parseLine, Law.isonl_skipped. cbv zeta.
  intros H [Hmap Hblocks] Hall.
  destruct (Js.isEmpty (Js.trim line) || Js.startsWith "#" (Js.trim line)).
  { inversion H; subst. repeat split; [done..|lia]. }
  destruct (Js.split Js.PIPE (Js.trim line)) as [|h [|f [|v [|w l]]]];
    try discriminate.
  destruct (Js.indexOf Js.DOT h) as [dotIndex|]; [|discriminate].
  set (knd := Js.substringTo dotIndex h) in *.
  set (nm := Js.substringFrom (S dotIndex) h) in *.
  destruct (isonl_tokenizeValues_Ok v) as [values Hv]. rewrite Hv in H.
  destruct (ISONLParser.st_blockMap st !! (knd +:+ "." +:+ nm)) as [i|] eqn:Hk;
    cbn [mbind result_bind] in H; unfold result_bind in H;
    cbn [ISONLParser.st_blocks ISONLParser.st_blockMap] in H;
    inversion H; subst st'; clear H; unfold Law.isonl_inv;
    cbn [ISONLParser.st_blocks ISONLParser.st_blockMap].
  - destruct (Hmap _ _ Hk) as (b & Hb & Hkey).
    destruct (Forall_lookup_1 _ _ _ _ Hall Hb) as (B1 & B2 & B3 & B4 & B5).
    split; [split|split].
    + intros k j Hj. destruct (Hmap _ _ Hj) as (b' & Hb'' & Hkey').
      destruct (decide (i = j)) as [->|Hne].
      * eexists. rewrite list_lookup_alter_eq, Hb''. by split.
      * exists b'. by rewrite list_lookup_alter_ne.
    + intros j b' Hj. destruct (decide (i = j)) as [->|Hne].
      * rewrite list_lookup_alter_eq, Hb in Hj. simpl in Hj. inversion Hj; subst.
        exact (Hblocks j b Hb).
      * rewrite list_lookup_alter_ne in Hj by done. by apply Hblocks.
    + apply Forall_alter; [done|]. intros x Hx _.
      rewrite Hb in Hx. inversion Hx; subst. by apply isonl_block_pushRow.
    + rewrite (row_count_alter _ _ _ b) by (done || (simpl; rewrite length_app; simpl; lia)).
      lia.
  - set (block0 := fold_left Parser.addField
                     (Js.splitWhiteSpace (Js.trim f)) (newBlock knd nm)) in *.
    destruct (addFields_rows (Js.splitWhiteSpace (Js.trim f)) (newBlock knd nm))
      as (R1 & R2 & R3 & R4). fold block0 in R1, R2, R3, R4. simpl in R1, R2, R3, R4.
    destruct (addFields_fields (Js.splitWhiteSpace (Js.trim f)) (newBlock knd nm))
      as (F1 & F2). fold block0 in F1, F2. simpl in F1, F2.
    replace (length (ISONLParser.st_blocks st))
      with (length (ISONLParser.st_blocks st) + 0) by lia.
    rewrite alter_app_r. simpl.
    set (b1 := Parser.pushRow block0 (ISONLParser.fillRow ∅ (fields block0) values)).
    assert (Hkey1 : Law.key b1 = knd +:+ "." +:+ nm).
    { unfold Law.key, b1. simpl. by rewrite R3, R4. }
    split; [split|split].
    + intros k j Hj. destruct (decide (k = knd +:+ "." +:+ nm)) as [->|Hne].
      * rewrite lookup_insert_eq in Hj. inversion Hj; subst.
        exists b1. split; [|done].
        replace (length (ISONLParser.st_blocks st) + 0)
          with (length (ISONLParser.st_blocks st)) by lia.
        by rewrite list_lookup_middle.
      * rewrite lookup_insert_ne in Hj by done.
        destruct (Hmap _ _ Hj) as (b' & Hb' & Hkey').
        exists b'. split; [|done]. by apply lookup_app_l_Some.
    + intros j b' Hj. apply lookup_app_Some in Hj as [Hj|[Hlen Hj]].
      * assert (Law.key b' ≠ knd +:+ "." +:+ nm).
        { intros Heq. apply Hblocks in Hj. rewrite Heq, Hk in Hj. discriminate. }
        rewrite lookup_insert_ne by done. by apply Hblocks.
      * destruct (j - length (ISONLParser.st_blocks st)) as [|n] eqn:Hn;
          simpl in Hj; [|done].
        inversion Hj; subst b'. rewrite Hkey1, lookup_insert_eq.
        f_equal. lia.
    + apply Forall_app. split; [done|]. constructor; [|constructor].
      apply isonl_block_pushRow.
      * rewrite F1, F2, map_map. apply map_ext. intros t.
        by rewrite fieldInfoOf_name.
      * rewrite F1. intros Hnil. apply map_eq_nil in Hnil.
        by apply splitWhiteSpace_go_nonempty in Hnil.
      * done.
      * rewrite R1. constructor.
    + rewrite row_count_app. unfold Law.row_count at 2. simpl.
      rewrite length_app, R1. simpl. lia.
Qed.

Lemma parseLines_keeps lines : ∀ st st',
  ISONLParser.parseLines st lines = Ok st' →
  Law.isonl_inv st → Forall Law.isonl_block (ISONLParser.st_blocks st) →
  Law.isonl_inv st' ∧ Forall Law.isonl_block (ISONLParser.st_blocks st') ∧
  Law.row_count (ISONLParser.st_blocks st') =
    Law.row_count (ISONLParser.st_blocks st) +
    length (filter (λ l, Law.isonl_skipped l = false) lines).
Proof.
  induction lines as [|line lines IH]; intros st st' H Hinv Hall; simpl in H.
  - inversion H; subst. split; [done|]. split; [done|].
    rewrite filter_nil, length_nil. lia.
  - destruct (ISONLParser.parseLine st line) as [st1| |] eqn:H1; simpl in H;
      try discriminate.
    destruct (parseLine_keeps _ _ _ H1 Hinv Hall) as (Hinv1 & Hall1 & Hcount1).
    destruct (IH _ _ H Hinv1 Hall1) as (Hinv' & Hall' & Hcount').
    split; [done|]. split; [done|]. rewrite Hcount', Hcount1.
    rewrite filter_cons. destruct (Law.isonl_skipped line).
    + rewrite decide_False by done. lia.
    + rewrite decide_True by done. rewrite length_cons. lia.
Qed.

Lemma isonl_inv_NoDup st :
  Law.isonl_inv st → NoDup (map Law.key (ISONLParser.st_blocks st)).
Proof.
  intros [_ Hblocks]. apply NoDup_alt. intros i j k Hi Hj.
  rewrite list_lookup_fmap in Hi, Hj.
  destruct (ISONLParser.st_blocks st !! i) as [bi|] eqn:Ei; [|done].
  destruct (ISONLParser.st_blocks st !! j) as [bj|] eqn:Ej; [|done].
  simpl in Hi, Hj. inversion Hi; inversion Hj; subst.
  apply Hblocks in Ei, Ej. rewrite <- H1 in Ei. rewrite Ei in Ej. by inversion Ej.
Qed.

(** X11. A document that [loadsIsonl] returns has one block for each key
    [kind.name]; a block has the fields of the first record of its key, at
    least one of them, no summary rows, and one row for each record of its
    key, filled with the fields of the block: the document has as many rows
    as the text has lines that are neither blank nor comments. *)
Theorem loadsIsonl_groups_records_by_key (text : string) (doc : Document) :
  loadsIsonl text = Ok doc →
  NoDup (map Law.key (blocks doc)) ∧
  Forall Law.isonl_block (blocks doc) ∧
  Law.row_count (blocks doc) =
    length (filter (λ l, Law.isonl_skipped l = false) (Js.split Js.LF text)).
Proof.
  unfold loadsIsonl, ISONLParser.parse. intros H.
  destruct (ISONLParser.parseLines _ _) as [st| |] eqn:Hp; simpl in H;
    try discriminate.
  inversion H; subst doc. simpl.
  apply parseLines_keeps in Hp as (Hinv & Hall & Hcount).
  - split; [by apply isonl_inv_NoDup|]. split; [done|]. by rewrite Hcount.
  - split; cbn [ISONLParser.st_blocks ISONLParser.st_blockMap].
    + intros k i Hk. by rewrite lookup_empty in Hk.
    + intros i b Hb. by rewrite lookup_nil in Hb.
  - constructor.
Qed.

Lemma loadsIsonl_groups_records_by_key_witness :
  NoDup (map Law.key (blocks Sample.isonl_doc)) ∧
  Forall Law.isonl_block (blocks Sample.isonl_doc) ∧
  Law.row_count (blocks Sample.isonl_doc) =
    length (filter (λ l, Law.isonl_skipped l = false)
              (Js.split Js.LF Sample.isonl_text)).
Proof.
  apply (loadsIsonl_groups_records_by_key Sample.isonl_text Sample.isonl_doc).
  vm_compute. reflexivity.
Defined.

End IsonlShape.

(* ===================================================================== *)
(** ** The two tokenizers agree where both read                          *)
(* ===================================================================== *)

Section Siblings.

Lemma readQuoted_parseQuotedString line : ∀ acc token rest,
  Parser.parseQuotedString_from acc line = Ok (token, rest) →
  ISONLParser.readQuoted acc line = (token, rest).
Proof.
  induction line as [line IH] using (well_founded_induction
    (well_founded_ltof _ String.length)). unfold ltof in IH.
  intros acc token rest H. destruct line as [|c r]; simpl in H; [discriminate|].
  cbn [ISONLParser.readQuoted].
  destruct (Ascii.eqb c Js.BACKSLASH) eqn:Eb.
  - apply Ascii.eqb_eq in Eb. subst c.
    change (Ascii.eqb Js.BACKSLASH Js.DQUOTE) with false. cbv iota.
    destruct r as [|next r'].
    + simpl in H. discriminate.
    + apply IH; [simpl; lia|exact H].
  - destruct (Ascii.eqb c Js.DQUOTE).
    + by inversion H.
    + apply IH; [simpl; lia|exact H].
Qed.

Lemma isonl_tokenize_agrees fuel : ∀ line tokens,
  Parser.tokenize fuel line = Ok tokens →
  ISONLParser.tokenize fuel line = Ok tokens.
Proof.
  induction fuel as [|fuel IH]; intros line tokens H.
  - simpl in *. by destruct (Parser.skipSpaces line).
  - destruct (Parser.skipSpaces line) as [|c r] eqn:Es.
    { rewrite tokenize_done in H by done. cbn [ISONLParser.tokenize].
      by rewrite Es. }
    rewrite (tokenize_step _ _ _ _ Es) in H.
    cbn [ISONLParser.tokenize]. rewrite Es.
    destruct (Ascii.eqb c Js.DQUOTE).
    + destruct (Parser.parseQuotedString r) as [[token rest]| |] eqn:Eq;
        simpl in H; try discriminate.
      apply readQuoted_parseQuotedString in Eq. rewrite Eq.
      destruct (Parser.tokenize fuel rest) as [tokens'| |] eqn:Et;
        simpl in H; try discriminate.
      rewrite (IH _ _ Et). exact H.
    + destruct (Parser.takeUnquoted (String c r)) as [token rest].
      cbn [mbind result_bind] in H.
      destruct (Parser.tokenize fuel rest) as [tokens'| |] eqn:Et;
        simpl in H; try discriminate.
      rewrite (IH _ _ Et). exact H.
Qed.

Lemma isonl_parseValue_agrees token v :
  Parser.parseValue token = Ok v → ISONLParser.parseValue token = v.
Proof.
  unfold Parser.parseValue, ISONLParser.parseValue, Parser.parseReference.
  repeat match goal with
         | |- context [if ?b then _ else _] =>
             destruct b; [try (intros [= <-]; reflexivity)|]
         end.
  - destruct (Js.split Js.COLON (Js.substringFrom 1 token)) as [|a [|b [|c l]]];
      simpl; by intros [= <-].
  - by intros [= <-].
Qed.

Lemma isonl_fillRow_from_agrees fields : ∀ inherits row values r,
  Parser.fillRow_from inherits row fields values = Ok r →
  ISONLParser.fillRow_from inherits row fields values = r.
Proof.
  induction fields as [|f fields IH]; intros inherits row values r H.
  - destruct values; by inversion H.
  - destruct values as [|v values]; [by inversion H|].
    rewrite fillRow_from_cons in H. cbn [ISONLParser.fillRow_from].
    destruct (Parser.parseValue v) as [x| |] eqn:Ev; simpl in H; try discriminate.
    apply isonl_parseValue_agrees in Ev. rewrite Ev.
    destruct (Obj.assign inherits row f x). by apply IH.
Qed.

Lemma isonl_fillRow_agrees fields row values r :
  Parser.fillRow row fields values = Ok r →
  ISONLParser.fillRow row fields values = r.
Proof. apply isonl_fillRow_from_agrees. Qed.

(** X12. A line of values without a comment that [Parser] reads into a row is
    read by [ISONLParser] into the same tokens and the same row. *)
Theorem isonl_reads_rows_as_ison_does (line : string) (fields values : list string)
    (row : Row) :
  Parser.findCommentStart line = None →
  Parser.tokenizeLine line = Ok values →
  Parser.fillRow ∅ fields values = Ok row →
  ISONLParser.tokenizeValues line = Ok values ∧
  ISONLParser.fillRow ∅ fields values = row.
Proof.
  unfold Parser.tokenizeLine, Parser.stripComment, ISONLParser.tokenizeValues.
  intros -> Ht Hf. split.
  - by apply isonl_tokenize_agrees.
  - by apply isonl_fillRow_agrees.
Qed.

Lemma isonl_reads_rows_as_ison_does_witness :
  ISONLParser.tokenizeValues Sample.values_line = Ok Sample.values_tokens ∧
  ISONLParser.fillRow ∅ Sample.values_fields Sample.values_tokens =
    Sample.values_row.
Proof.
  apply isonl_reads_rows_as_ison_does; vm_compute; reflexivity.
Defined.

End Siblings.

(* ===================================================================== *)
(** ** Strings, spaces and tokens                                        *)
(* ===================================================================== *)

Section Strings.

Lemma includes_append c a b :
  Js.includes c (a +:+ b) = Js.includes c a || Js.includes c b.
Proof.
  induction a as [|d a IH]; [done|]. rewrite append_cons. simpl.
  by rewrite IH, orb_assoc.
Qed.

Lemma all_append p a b : Re.all p (a +:+ b) = Re.all p a && Re.all p b.
Proof.
  induction a as [|d a IH]; [done|]. rewrite append_cons. simpl.
  by rewrite IH, andb_assoc.
Qed.

Lemma all_spaces p k : p Js.SPACE = true → Re.all p (Js.spaces k) = true.
Proof. intros Hp. induction k as [|k IH]; [done|]. simpl. by rewrite Hp, IH. Qed.

Lemma all_impl (p q : ascii → bool) s :
  (∀ c, p c = true → q c = true) → Re.all p s = true → Re.all q s = true.
Proof.
  intros Hpq. induction s as [|c s IH]; [done|]. simpl.
  rewrite !andb_true_iff. intros [Hc Hs]. auto.
Qed.

Lemma all_excludes p c s :
  p c = false → Re.all p s = true → Js.includes c s = false.
Proof.
  intros Hp. induction s as [|d s IH]; [done|]. simpl.
  rewrite andb_true_iff. intros [Hd Hs]. rewrite (IH Hs), orb_false_r.
  destruct (Ascii.eqb_spec d c) as [->|]; [congruence|done].
Qed.

Lemma excludes_all c s :
  Js.includes c s = false → Re.all (λ d, negb (Ascii.eqb d c)) s = true.
Proof.
  induction s as [|d s IH]; [done|]. simpl. rewrite orb_false_iff.
  intros [-> Hs]. by rewrite IH.
Qed.

Lemma length_spaces k : String.length (Js.spaces k) = k.
Proof. induction k as [|k IH]; [done|]. simpl. by rewrite IH. Qed.

Lemma skipSpaces_spaces k s :
  Parser.skipSpaces (Js.spaces k +:+ s) = Parser.skipSpaces s.
Proof. induction k as [|k IH]; [done|]. exact IH. Qed.

(** The tokenizer looks at a line from its first code unit that is not a
    space or a tab. *)
Lemma tokenize_skipSpaces fuel s s' :
  Parser.skipSpaces s = Parser.skipSpaces s' →
  Parser.tokenize fuel s = Parser.tokenize fuel s'.
Proof. intros H. destruct fuel; cbn [Parser.tokenize]; by rewrite H. Qed.

Lemma tokenize_fuel fuel : ∀ fuel' line,
  String.length line ≤ fuel → String.length line ≤ fuel' →
  Parser.tokenize fuel line = Parser.tokenize fuel' line.
Proof.
  induction fuel as [|fuel IH]; intros fuel' line H1 H2.
  - destruct line; [|simpl in H1; lia]. by rewrite !tokenize_done.
  - pose proof (length_skipSpaces line) as Hs.
    destruct (Parser.skipSpaces line) as [|c r] eqn:Es.
    { by rewrite !tokenize_done. }
    simpl in Hs. destruct fuel' as [|fuel']; [lia|].
    rewrite !(tokenize_step _ _ _ _ Es).
    destruct (Ascii.eqb c Js.DQUOTE).
    + destruct (Parser.parseQuotedString r) as [[token rest]| |] eqn:Eq;
        simpl; try done.
      apply length_parseQuotedString_from in Eq.
      rewrite (IH fuel' rest) by lia. done.
    + destruct (Parser.takeUnquoted (String c r)) as [token rest] eqn:Et.
      apply length_takeUnquoted_first in Et; [|eapply skipSpaces_first; eauto].
      cbn [mbind result_bind]. unfold result_bind.
      rewrite (IH fuel' rest) by lia. done.
Qed.

Lemma bareChar_spec c :
  Law.bareChar c = true →
  Js.isWhiteSpace c = false ∧ Parser.isSpaceOrTab c = false ∧
  Parser.isBlank c = false ∧
  Ascii.eqb c Js.DQUOTE = false ∧ Ascii.eqb c Js.HASH = false ∧
  Ascii.eqb c Js.LF = false ∧ Ascii.eqb c Js.SPACE = false.
Proof.
  unfold Law.bareChar. rewrite !andb_true_iff, !negb_true_iff.
  intros [[Hw ->] ->]. split; [done|].
  unfold Parser.isSpaceOrTab, Parser.isBlank.
  destruct (Ascii.eqb_spec c Js.SPACE) as [->|]; [done|].
  destruct (Ascii.eqb_spec c Js.TAB) as [->|]; [done|].
  destruct (Ascii.eqb_spec c Js.CR) as [->|]; [done|].
  destruct (Ascii.eqb_spec c Js.LF) as [->|]; done.
Qed.

Lemma takeUnquoted_cell s : ∀ rest,
  Re.all Law.bareChar s = true → Law.boundary rest →
  Parser.takeUnquoted (s +:+ rest) = (s, rest).
Proof.
  induction s as [|c s IH]; intros rest Hs Hrest.
  - rewrite append_empty_l. destruct rest as [|d r]; [done|].
    simpl in Hrest. subst d. reflexivity.
  - simpl in Hs. apply andb_true_iff in Hs as [Hc Hs].
    apply bareChar_spec in Hc as (_ & Hc & _).
    rewrite append_cons. cbn [Parser.takeUnquoted]. rewrite Hc.
    by rewrite IH.
Qed.

Lemma reads_bare c : Law.bare c = true → Law.reads c c.
Proof.
  unfold Law.bare. rewrite andb_true_iff, negb_true_iff.
  intros [Hne Hall] rest fuel Hrest Hlen.
  destruct c as [|a s]; [done|].
  pose proof Hall as Hall'. simpl in Hall'.
  apply andb_true_iff in Hall' as [Ha _].
  apply bareChar_spec in Ha as (_ & Ha & _ & Hq & _).
  rewrite append_cons in *. simpl in Hlen.
  destruct fuel as [|fuel]; [lia|].
  rewrite (tokenize_step _ _ a (s +:+ rest)).
  2: { cbn [Parser.skipSpaces]. by rewrite Ha. }
  rewrite Hq. rewrite <- append_cons, takeUnquoted_cell by done.
  cbn [mbind result_bind]. unfold result_bind.
  rewrite length_append in Hlen.
  rewrite (tokenize_fuel fuel (S fuel) rest) by lia. done.
Qed.

Lemma reads_quoted s : Law.reads (Serializer.quoted s) s.
Proof.
  intros rest fuel Hrest Hlen. unfold Serializer.quoted in *.
  rewrite append_cons, append_assoc in *. unfold Js.str in *.
  rewrite append_cons, append_empty_l in *. simpl in Hlen.
  destruct fuel as [|fuel]; [lia|].
  rewrite (tokenize_step _ _ Js.DQUOTE
             (Serializer.escape s +:+ String Js.DQUOTE rest)) by reflexivity.
  rewrite Ascii.eqb_refl. unfold Parser.parseQuotedString.
  rewrite parseQuotedString_escape, append_empty_l.
  cbn [mbind result_bind]. unfold result_bind.
  rewrite length_append in Hlen. simpl in Hlen.
  rewrite (tokenize_fuel fuel (S fuel) rest) by lia. done.
Qed.

Lemma length_line_of_tail c k cp cps :
  String.length (Law.line_of (cp :: cps)) ≤
  String.length (Law.line_of ((c, k) :: cp :: cps)).
Proof.
  change (Law.line_of ((c, k) :: cp :: cps))
    with (c +:+ Js.spaces k +:+ String Js.SPACE (Law.line_of (cp :: cps))).
  rewrite !length_append. simpl. lia.
Qed.

(** The tokens of a line of padded cells are the tokens of its cells. *)
Lemma tokenize_line_of cps : ∀ tokens fuel,
  Forall2 (λ cp t, Law.reads cp.1 t) cps tokens →
  String.length (Law.line_of cps) ≤ fuel →
  Parser.tokenize fuel (Law.line_of cps) = Ok tokens.
Proof.
  induction cps as [|[c k] cps IH]; intros tokens fuel H Hlen.
  - inversion H; subst. by rewrite tokenize_done.
  - inversion H as [|? t ? tokens' Hc Hrest]; subst. simpl in Hc.
    destruct cps as [|cp cps].
    + inversion Hrest; subst. cbn [Law.line_of] in *.
      rewrite <- (append_empty_r c). rewrite Hc; [|done|by rewrite append_empty_r].
      by rewrite tokenize_done.
    + pose proof (length_line_of_tail c k cp cps) as Htail.
      change (Law.line_of ((c, k) :: cp :: cps))
        with (c +:+ Js.spaces k +:+ String Js.SPACE (Law.line_of (cp :: cps))) in *.
      rewrite Hc; [| |done].
      2: { destruct k; simpl; done. }
      rewrite (tokenize_skipSpaces fuel _ (Law.line_of (cp :: cps))).
      2: { rewrite skipSpaces_spaces. reflexivity. }
      rewrite (IH tokens' fuel Hrest) by lia. done.
Qed.

End Strings.

(* ===================================================================== *)
(** ** Cells: trimmed text, escapes, integers                            *)
(* ===================================================================== *)

Section Cells.

Lemma bareChar_lineChar c : Law.bareChar c = true → Law.lineChar c = true.
Proof.
  intros H. apply bareChar_spec in H as (_ & _ & _ & _ & Hh & Hl & _).
  unfold Law.lineChar. by rewrite Hh, Hl.
Qed.

Lemma refChar_bareChar c : Law.refChar c = true → Law.bareChar c = true.
Proof. unfold Law.refChar. rewrite andb_true_iff. by intros [H _]. Qed.

Lemma isDigit_bareChar c : Js.isDigit c = true → Law.bareChar c = true.
Proof.
  destruct c as [[|] [|] [|] [|] [|] [|] [|] [|]]; vm_compute; congruence.
Qed.

Lemma endsTight_append a b : b ≠ "" → Law.endsTight (a +:+ b) = Law.endsTight b.
Proof.
  intros Hb. induction a as [|c a IH]; [done|].
  rewrite append_cons. cbn [Law.endsTight]. rewrite IH.
  destruct (a +:+ b) eqn:E; [|done].
  destruct a; [by rewrite append_empty_l in E|by rewrite append_cons in E].
Qed.

Lemma endsTight_all s :
  s ≠ "" → Re.all (λ c, negb (Js.isWhiteSpace c)) s = true → Law.endsTight s = true.
Proof.
  induction s as [|c s IH]; [done|]. intros _. simpl.
  rewrite andb_true_iff. intros [Hc Hs].
  destruct s as [|d s]; [done|]. by apply IH.
Qed.

Lemma bare_tight s : Law.bare s = true → Law.tight s = true.
Proof.
  unfold Law.bare, Law.tight. rewrite !andb_true_iff, negb_true_iff.
  intros [Hne Hall]. destruct s as [|c s]; [done|]. split.
  - simpl in *. apply andb_true_iff in Hall as [Hc _].
    apply bareChar_spec in Hc as [-> _]. done.
  - apply endsTight_all; [done|]. eapply all_impl; [|exact Hall].
    intros d Hd. by apply bareChar_spec in Hd as [-> _].
Qed.

Lemma trimEnd_tight s : Law.endsTight s = true → Js.trimEnd s = s.
Proof.
  induction s as [|c s IH]; [done|]. cbn [Law.endsTight Js.trimEnd].
  destruct s as [|d s].
  - simpl. rewrite negb_true_iff. by intros ->.
  - intros H. by rewrite (IH H).
Qed.

Lemma trim_tight s : Law.tight s = true → Js.trim s = s.
Proof.
  unfold Law.tight, Js.trim. rewrite andb_true_iff. intros [Hs He].
  destruct s as [|c s]; [done|]. simpl in Hs. apply negb_true_iff in Hs.
  cbn [Js.trimStart]. rewrite Hs. by apply trimEnd_tight.
Qed.

Lemma tight_nonempty s : Law.tight s = true → s ≠ "".
Proof. by destruct s. Qed.

(** The escapes of a string without [#] hold no newline and no [#]. *)
Lemma escape_lineChar s :
  Js.includes Js.HASH s = false → Re.all Law.lineChar (Serializer.escape s) = true.
Proof.
  induction s as [|c s IH]; [done|]. simpl. rewrite orb_false_iff.
  intros [Hc Hs]. rewrite escape_cons, all_append, (IH Hs), andb_true_r.
  revert Hc. clear.
  destruct c as [[|] [|] [|] [|] [|] [|] [|] [|]]; vm_compute; congruence.
Qed.

Lemma readsAsString_spec s :
  Law.readsAsString s = true → Parser.parseValue s = Ok (VString s).
Proof.
  unfold Law.readsAsString, Parser.parseValue.
  repeat match goal with
         | |- context [if ?b then _ else _] => destruct b; [discriminate|]
         end.
  destruct (Js.startsWith ":" s).
  { by destruct (Parser.parseReference s). }
  repeat match goal with
         | |- context [if ?b then _ else _] => destruct b; [discriminate|]
         end.
  done.
Qed.

Lemma pretty_N_go_append x : ∀ s, pretty_N_go x s = pretty_N_go x "" +:+ s.
Proof.
  induction (N.lt_wf_0 x) as [x _ IH]; intros s.
  destruct (decide (x = 0)%N) as [->|Hx]; [by rewrite !pretty_N_go_0|].
  rewrite !(pretty_N_go_step x) by lia.
  rewrite (IH (x `div` 10)%N) by (apply N.div_lt; lia).
  rewrite (IH (x `div` 10)%N ltac:(apply N.div_lt; lia) (String _ "")).
  by rewrite append_assoc.
Qed.

Lemma digitsValue_append a : ∀ acc b,
  Num.digitsValue acc (a +:+ b) = Num.digitsValue (Num.digitsValue acc a) b.
Proof.
  induction a as [|c a IH]; intros acc b; [done|].
  rewrite append_cons. simpl. by rewrite IH.
Qed.

Lemma pretty_N_char_digit d :
  (d < 10)%N →
  Js.isDigit (pretty_N_char d) = true ∧
  (N_of_ascii (pretty_N_char d) - 48)%N = d.
Proof.
  intros Hd.
  assert (d = 0 ∨ d = 1 ∨ d = 2 ∨ d = 3 ∨ d = 4 ∨ d = 5 ∨ d = 6 ∨ d = 7 ∨
          d = 8 ∨ d = 9)%N as H by lia.
  repeat (destruct H as [->|H]; [by vm_compute|]). subst. by vm_compute.
Qed.

Lemma pretty_N_go_digits x :
  Re.all Js.isDigit (pretty_N_go x "") = true ∧
  Num.digitsValue 0 (pretty_N_go x "") = x ∧
  ((0 < x)%N → pretty_N_go x "" ≠ "").
Proof.
  induction (N.lt_wf_0 x) as [x _ IH].
  destruct (decide (x = 0)%N) as [->|Hx].
  { rewrite pretty_N_go_0. split; [done|]. split; [done|]. lia. }
  rewrite (pretty_N_go_step x) by lia. rewrite pretty_N_go_append.
  destruct (IH (x `div` 10)%N ltac:(apply N.div_lt; lia)) as (Hall & Hval & _).
  destruct (pretty_N_char_digit (x `mod` 10)%N) as [Hd Hv].
  { apply N.mod_lt. lia. }
  split; [|split].
  - rewrite all_append, Hall. simpl. by rewrite Hd.
  - rewrite digitsValue_append, Hval. simpl. rewrite Hv.
    pose proof (N.div_mod x 10). lia.
  - intros _. destruct (pretty_N_go (x `div` 10) ""); done.
Qed.

Lemma pretty_N_digits (x : N) :
  Re.all Js.isDigit (pretty x) = true ∧ Num.digitsValue 0 (pretty x) = x ∧
  pretty x ≠ "".
Proof.
  unfold pretty, pretty_N. destruct (decide (x = 0)%N) as [->|Hx]; [done|].
  destruct (pretty_N_go_digits x) as (H1 & H2 & H3).
  repeat split; [done..|]. apply H3. lia.
Qed.

Lemma split_none c s : Js.includes c s = false → Js.split c s = [s].
Proof.
  induction s as [|d s IH]; [done|]. simpl. rewrite orb_false_iff.
  intros [-> Hs]. by rewrite (IH Hs).
Qed.

Lemma split_first c a b :
  Js.includes c a = false → Js.split c (a +:+ String c b) = a :: Js.split c b.
Proof.
  induction a as [|d a IH].
  - intros _. rewrite append_empty_l. cbn [Js.split]. by rewrite Ascii.eqb_refl.
  - cbn [Js.includes]. rewrite orb_false_iff. intros [Hd Ha].
    rewrite append_cons. cbn [Js.split]. by rewrite Hd, (IH Ha).
Qed.

Lemma refChar_no_colon s :
  Re.all Law.refChar s = true → Js.includes Js.COLON s = false.
Proof.
  apply all_excludes. done.
Qed.

(** The text of a safe integer is a bare token that is read as the integer. *)
Lemma integer_cell (m : Z) :
  let c := Num.toString (mkNumber m 0) in
  Law.bare c = true ∧ Parser.parseValue c = Ok (VNumber (mkNumber m 0)).
Proof.
  cbv zeta. unfold Num.toString. cbn [num_digits num_scale].
  destruct (pretty_N_digits (Z.to_N (Z.abs m))) as (Hall & Hval & Hne).
  set (p := pretty (Z.to_N (Z.abs m))) in *.
  assert (Hbare : Re.all Law.bareChar p = true).
  { eapply all_impl; [|exact Hall]. apply isDigit_bareChar. }
  destruct p as [|d r] eqn:Ep; [done|].
  assert (Hd : Js.isDigit d = true).
  { simpl in Hall. by apply andb_true_iff in Hall as [-> _]. }
  assert (Hfirst : ∀ e, Js.isDigit e = false → Ascii.eqb d e = false).
  { intros e He. destruct (Ascii.eqb_spec d e) as [->|]; [congruence|done]. }
  destruct (m <? 0)%Z eqn:Hm.
  - change ("-" +:+ String d r) with (String "-" (String d r)).
    split.
    + unfold Law.bare.
      change (Re.all Law.bareChar (String "-" (String d r)))
        with (Law.bareChar "-" && Re.all Law.bareChar (String d r)).
      by rewrite Hbare.
    + unfold Parser.parseValue, Re.isInteger, Re.digits1, Num.parseInt, Num.signed.
      cbn [Re.afterSign Js.isEmpty negb andb orb String.eqb Ascii.eqb Bool.eqb
           Js.startsWith Js.MINUS Js.COLON].
      rewrite Hall. cbn [Re.afterSign]. rewrite Hval.
      do 3 f_equal. apply Z.ltb_lt in Hm. lia.
  - rewrite append_empty_l. split.
    + unfold Law.bare. cbn [Js.isEmpty negb andb]. by rewrite Hbare.
    + unfold Parser.parseValue, Re.isInteger, Re.digits1, Num.parseInt, Num.signed.
      cbn [Re.afterSign Js.isEmpty negb andb orb String.eqb Js.startsWith].
      rewrite (Hfirst "n"%char), (Hfirst "~"%char), (Hfirst "t"%char),
        (Hfirst "f"%char) by done.
      rewrite (Ascii.eqb_sym ":"%char d), (Hfirst ":"%char) by done.
      rewrite (Hfirst Js.MINUS) by done.
      cbn [andb orb]. rewrite Hall.
      rewrite (Ascii.eqb_sym "-"%char d), (Hfirst "-"%char) by done.
      cbn [andb]. rewrite Hval.
      do 3 f_equal. apply Z.ltb_ge in Hm. lia.
Qed.

End Cells.

(* ===================================================================== *)
(** ** The cells of clean values                                         *)
(* ===================================================================== *)

Section CleanValues.

Lemma reference_cell (r : Reference) :
  Law.clean (VRef r) = true →
  Law.bare (Ref.toIson r) = true ∧
  Parser.parseValue (Ref.toIson r) = Ok (VRef r).
Proof.
  destruct r as [id type]. unfold Law.clean, Ref.toIson.
  cbn [ref_id ref_type]. rewrite andb_true_iff. intros [Hid Htype].
  assert (Hid' : Re.all Law.bareChar id = true).
  { eapply all_impl; [|exact Hid]. apply refChar_bareChar. }
  pose proof (refChar_no_colon _ Hid) as Hidc.
  destruct type as [t|].
  - apply andb_true_iff in Htype as [Hne Ht]. apply negb_true_iff in Hne.
    rewrite Hne.
    assert (Ht' : Re.all Law.bareChar t = true).
    { eapply all_impl; [|exact Ht]. apply refChar_bareChar. }
    pose proof (refChar_no_colon _ Ht) as Htc.
    unfold Js.str. rewrite !append_cons, !append_empty_l. split.
    + unfold Law.bare. cbn [Js.isEmpty negb andb Re.all].
      rewrite all_append, Ht'. cbn [Re.all]. by rewrite Hid'.
    + unfold Parser.parseValue, Parser.parseReference.
      cbn [String.eqb Ascii.eqb Bool.eqb andb orb Js.startsWith Js.COLON
           Js.substringFrom].
      by rewrite split_first, split_none.
  - unfold Js.str. rewrite !append_cons, !append_empty_l. split.
    + unfold Law.bare. cbn [Js.isEmpty negb andb Re.all]. by rewrite Hid'.
    + unfold Parser.parseValue, Parser.parseReference.
      cbn [String.eqb Ascii.eqb Bool.eqb andb orb Js.startsWith Js.COLON
           Js.substringFrom].
      by rewrite split_none.
Qed.

(** A clean value is written as a cell without newline or [#], that has no
    white space at its ends, and off which the tokenizer reads a token that
    [parseValue] turns into the value. *)
Lemma clean_cell (v : Value) :
  Law.clean v = true →
  let c := Serializer.serializeValue (Some v) in
  (∃ token, Law.reads c token ∧ Parser.parseValue token = Ok v) ∧
  Re.all Law.lineChar c = true ∧ Law.tight c = true.
Proof.
  assert (Hbare : ∀ c v', Law.bare c = true → Parser.parseValue c = Ok v' →
    (∃ token, Law.reads c token ∧ Parser.parseValue token = Ok v') ∧
    Re.all Law.lineChar c = true ∧ Law.tight c = true).
  { intros c v' Hc Hv. split; [|split].
    - exists c. split; [by apply reads_bare|done].
    - unfold Law.bare in Hc. apply andb_true_iff in Hc as [_ Hc].
      eapply all_impl; [|exact Hc]. apply bareChar_lineChar.
    - by apply bare_tight. }
  intros Hclean. cbv zeta. destruct v as [|b|n|s|r]; cbn [Serializer.serializeValue].
  - by apply Hbare.
  - destruct b; by apply Hbare.
  - destruct n as [m k]. simpl in Hclean. apply andb_true_iff in Hclean as [Hk _].
    apply Nat.eqb_eq in Hk. subst k.
    destruct (integer_cell m) as [H1 H2]. by apply Hbare.
  - simpl in Hclean. rewrite !andb_true_iff, negb_true_iff in Hclean.
    destruct Hclean as [[Hs Hh] Hq]. apply readsAsString_spec in Hs.
    unfold Serializer.serializeString.
    destruct (Serializer.needsQuotes s); cbn [negb].
    + split; [|split].
      * exists s. split; [apply reads_quoted|done].
      * unfold Serializer.quoted. cbn [Re.all]. rewrite all_append.
        by rewrite escape_lineChar.
      * unfold Law.tight, Serializer.quoted. cbn [Law.startsTight].
        change (String Js.DQUOTE (Serializer.escape s +:+ Js.str Js.DQUOTE))
          with (String Js.DQUOTE (Serializer.escape s) +:+ Js.str Js.DQUOTE).
        by rewrite endsTight_append.
    + simpl in Hq. by apply Hbare.
  - destruct (reference_cell r Hclean) as [H1 H2]. by apply Hbare.
Qed.

End CleanValues.

(* ===================================================================== *)
(** ** The line of a clean row                                           *)
(* ===================================================================== *)

Section CleanRows.

Lemma join_cons sep x y l :
  Js.join sep (x :: y :: l) = x +:+ sep +:+ Js.join sep (y :: l).
Proof. reflexivity. Qed.

(** A line of [serializeRow] is its cells, each but the last followed by
    padding and one space. *)
Lemma join_line_of (cell_ : string → string) fs : ∀ g : nat → string → string,
  (∀ i f, fs !! i = Some f →
     (∃ k, g i f = cell_ f +:+ Js.spaces k) ∧
     (S i = length fs → g i f = cell_ f)) →
  ∃ pads, length pads = length fs ∧
    Js.join " " (imap g fs) = Law.line_of (zip (map cell_ fs) pads).
Proof.
  induction fs as [|f fs IH]; intros g Hg.
  - by exists [].
  - destruct (IH (g ∘ S)) as (pads & Hlen & Hjoin).
    { intros i f' Hi. destruct (Hg (S i) f' Hi) as [H1 H2].
      split; [done|]. intros Hl. apply H2. simpl. lia. }
    destruct (Hg 0 f eq_refl) as [[k Hk] Hlast].
    destruct fs as [|f' fs].
    + exists [0]. split; [done|]. simpl. by rewrite Hlast.
    + exists (k :: pads). split; [simpl in Hlen |- *; lia|].
      destruct pads as [|p pads]; [done|].
      cbn [imap]. cbn [imap] in Hjoin. rewrite join_cons, Hjoin, Hk.
      cbn [map zip zip_with Law.line_of]. rewrite !append_assoc.
      reflexivity.
Qed.

Lemma serializeRow_line_of alignColumns row fields widths :
  ∃ pads, length pads = length fields ∧
    Serializer.serializeRow alignColumns row fields widths =
    Law.line_of (zip (map (Law.cell row) fields) pads).
Proof.
  unfold Serializer.serializeRow. apply join_line_of.
  intros i f Hi. fold (Law.cell row f). split.
  - destruct (alignColumns && _ && _); [|exists 0; by rewrite append_empty_r].
    destruct (widths !! i) as [w|]; [|exists 0; by rewrite append_empty_r].
    by eexists.
  - intros Hl. replace (S i <? length fields) with false
      by (symmetry; apply Nat.ltb_ge; lia).
    by rewrite andb_false_r.
Qed.

Lemma all_line_of p cps :
  p Js.SPACE = true → Forall (λ cp : string * nat, Re.all p cp.1 = true) cps →
  Re.all p (Law.line_of cps) = true.
Proof.
  intros Hp. induction 1 as [|[c k] cps Hc Hcps IH]; [done|].
  destruct cps as [|cp cps]; [done|].
  change (Law.line_of ((c, k) :: cp :: cps))
    with (c +:+ Js.spaces k +:+ String Js.SPACE (Law.line_of (cp :: cps))).
  rewrite !all_append. simpl in Hc. rewrite Hc, all_spaces by done.
  cbn [Re.all]. by rewrite Hp, IH.
Qed.

Lemma line_of_head c k cps :
  ∃ r, Law.line_of ((c, k) :: cps) = c +:+ r ∧ Law.boundary r ∧
       (cps ≠ [] → Js.includes Js.SPACE r = true).
Proof.
  destruct cps as [|cp cps].
  - exists "". by rewrite append_empty_r.
  - exists (Js.spaces k +:+ String Js.SPACE (Law.line_of (cp :: cps))).
    split; [done|]. split; [by destruct k|]. intros _.
    rewrite includes_append. simpl. by rewrite orb_true_r.
Qed.

Lemma tight_line_of cps :
  cps ≠ [] → Forall (λ cp : string * nat, Law.tight cp.1 = true) cps →
  Law.tight (Law.line_of cps) = true.
Proof.
  intros Hne H. induction H as [|[c k] cps Hc Hcps IH]; [done|].
  destruct cps as [|cp cps]; [done|].
  specialize (IH ltac:(done)).
  change (Law.line_of ((c, k) :: cp :: cps))
    with (c +:+ Js.spaces k +:+ String Js.SPACE (Law.line_of (cp :: cps))).
  simpl in Hc. unfold Law.tight in *.
  apply andb_true_iff in Hc as [Hc _]. apply andb_true_iff in IH as [Hs He].
  apply andb_true_iff. split.
  - destruct c; [done|]. by rewrite append_cons.
  - rewrite endsTight_append.
    2: { destruct (Js.spaces k); done. }
    change (String Js.SPACE (Law.line_of (cp :: cps)))
      with (Js.str Js.SPACE +:+ Law.line_of (cp :: cps)).
    rewrite <- append_assoc, endsTight_append; [done|].
    by destruct (Law.line_of (cp :: cps)).
Qed.

Lemma afterLowers_boundary s rest :
  Law.boundary rest →
  match Re.afterLowers (s +:+ rest) with
  | String d _ => Ascii.eqb d Js.DOT
  | "" => false
  end =
  match Re.afterLowers s with
  | String d _ => Ascii.eqb d Js.DOT
  | "" => false
  end.
Proof.
  intros Hrest. induction s as [|c s IH].
  - rewrite append_empty_l. destruct rest as [|d r]; [done|].
    simpl in Hrest. by subst d.
  - rewrite append_cons. cbn [Re.afterLowers]. by destruct (Js.isLower c).
Qed.

Lemma isHeaderLike_boundary c rest :
  Law.boundary rest → Re.isHeaderLike (c +:+ rest) = Re.isHeaderLike c.
Proof.
  intros Hrest. destruct c as [|a s].
  - rewrite append_empty_l. destruct rest as [|d r]; [done|].
    simpl in Hrest. by subst d.
  - rewrite append_cons. cbn [Re.isHeaderLike]. by rewrite afterLowers_boundary.
Qed.

Lemma Forall_exists_Forall2 {A B} (R : A → B → Prop) (l : list A) :
  Forall (λ x, ∃ y, R x y) l → ∃ k, Forall2 R l k.
Proof.
  induction 1 as [|x l [y Hy] _ [k Hk]]; [by exists []|].
  exists (y :: k). by constructor.
Qed.

(** Tokens that are read as the values of [row] fill [row] again, field by
    field. *)
Lemma fillRow_from_values (row : Row) fs : ∀ tokens inherits acc,
  Forall2 (λ f t, ∃ v, row !! f = Some v ∧ Parser.parseValue t = Ok v) fs tokens →
  "__proto__" ∉ fs →
  ∃ r, Parser.fillRow_from inherits acc fs tokens = Ok r ∧
       ∀ g, r !! g = if decide (g ∈ fs) then row !! g else acc !! g.
Proof.
  induction fs as [|f fs IH]; intros tokens inherits acc H Hp.
  - inversion H; subst. exists acc. split; [done|]. intros g.
    by rewrite decide_False by apply not_elem_of_nil.
  - inversion H as [|? t ? tokens' (v & Hv & Ht) Hrest]; subst.
    apply not_elem_of_cons in Hp as [Hf Hp].
    destruct (IH tokens' inherits (<[f := v]> acc) Hrest Hp) as (r & Hr & Hlookup).
    exists r. split.
    { rewrite fillRow_from_cons, Ht. cbn [mbind]. unfold result_bind, Obj.assign.
      assert (String.eqb f "__proto__" = false) as -> by (apply String.eqb_neq; congruence).
      rewrite andb_false_r. exact Hr. }
    intros g. rewrite Hlookup.
    destruct (decide (g ∈ fs)) as [Hin|Hout].
    + rewrite decide_True by (by right). done.
    + destruct (decide (g = f)) as [->|Hne].
      * rewrite decide_True by (by left). by rewrite lookup_insert_eq.
      * rewrite decide_False by (by intros [?|?]%elem_of_cons).
        by rewrite lookup_insert_ne.
Qed.

Lemma fillRow_values (row : Row) fs tokens acc :
  Forall2 (λ f t, ∃ v, row !! f = Some v ∧ Parser.parseValue t = Ok v) fs tokens →
  "__proto__" ∉ fs →
  ∃ r, Parser.fillRow acc fs tokens = Ok r ∧
       ∀ g, r !! g = if decide (g ∈ fs) then row !! g else acc !! g.
Proof. apply fillRow_from_values. Qed.

Lemma clean_row_cells fields row :
  Law.clean_row fields row = true →
  dom row =@{gset string} list_to_set fields ∧
  Forall (λ f, ∃ v, row !! f = Some v ∧ Law.clean v = true) fields ∧
  Re.isHeaderLike (Law.cell row (hd "" fields)) = false ∧
  Law.cell row (hd "" fields) ≠ "---".
Proof.
  unfold Law.clean_row. rewrite !andb_true_iff, !negb_true_iff.
  intros [[[Hdom Hall] Hh] Hsep]. apply bool_decide_eq_true in Hdom.
  split; [done|]. split; [|split; [done|]].
  - apply Forall_forall. intros f Hf.
    rewrite forallb_forall in Hall. apply list_elem_of_In in Hf.
    specialize (Hall f Hf).
    destruct (row !! f) as [v|]; [eauto|]. discriminate Hall.
  - intros Heq. rewrite Heq in Hsep. discriminate.
Qed.

(** The line that [serializeRow] writes for a clean row is a data line that
    gives the row back, with or without alignment. *)
Lemma clean_row_data_line alignColumns widths fields row :
  fields ≠ [] → "__proto__" ∉ fields → Law.clean_row fields row = true →
  Spec.data_line fields
    (Serializer.serializeRow alignColumns row fields widths) row.
Proof.
  intros Hne Hproto Hclean.
  apply clean_row_cells in Hclean as (Hdom & Hall & Hhead & Hsep).
  destruct (serializeRow_line_of alignColumns row fields widths)
    as (pads & Hlen & ->).
  set (cps := zip (map (Law.cell row) fields) pads).
  assert (Hcells : Forall (λ cp : string * nat,
            (∃ token v, Law.reads cp.1 token ∧ Parser.parseValue token = Ok v) ∧
            Re.all Law.lineChar cp.1 = true ∧ Law.tight cp.1 = true) cps).
  { subst cps. clear Hhead Hsep Hdom Hne Hproto. revert pads Hlen.
    induction Hall as [|f fs (v & Hv & Hc) _ IH]; intros pads Hlen; [constructor|].
    destruct pads as [|p pads]; [done|]. cbn [map zip zip_with].
    constructor; [|apply IH; simpl in Hlen; lia].
    cbn [fst]. unfold Law.cell. rewrite Hv.
    destruct (clean_cell v Hc) as ((token & Hr & Hp) & Hl & Ht). eauto 10. }
  assert (Hcps : cps ≠ []).
  { subst cps. destruct fields; [done|]. by destruct pads. }
  assert (Hline : Re.all Law.lineChar (Law.line_of cps) = true).
  { apply all_line_of; [done|]. eapply Forall_impl; [exact Hcells|].
    by intros cp (_ & H & _). }
  assert (Htight : Law.tight (Law.line_of cps) = true).
  { apply tight_line_of; [done|]. eapply Forall_impl; [exact Hcells|].
    by intros cp (_ & _ & H). }
  assert (Hhash : Js.includes Js.HASH (Law.line_of cps) = false).
  { eapply all_excludes; [|exact Hline]. done. }
  assert (Hfirst : ∃ r, Law.line_of cps = Law.cell row (hd "" fields) +:+ r ∧
                        Law.boundary r ∧ (r ≠ "" → Js.includes Js.SPACE r = true)).
  { subst cps. destruct fields as [|f fs]; [done|].
    destruct pads as [|p pads]; [done|]. cbn [map zip zip_with hd].
    destruct (line_of_head (Law.cell row f) p
                (zip (map (Law.cell row) fs) pads)) as (r & Hr & Hb & Hsp).
    exists r. split; [done|]. split; [done|]. intros Hr'. apply Hsp.
    intros Hnil. rewrite Hnil in Hr. cbn [Law.line_of] in Hr.
    apply Hr'. clear -Hr.
    revert Hr. generalize (Law.cell row f). intros c Hc.
    assert (String.length c = String.length (c +:+ r)) as Hl by (by rewrite <- Hc).
    rewrite length_append in Hl. destruct r; [done|simpl in Hl; lia]. }
  destruct Hfirst as (r & Hr & Hb & Hsp).
  unfold Spec.data_line. rewrite !(trim_tight _ Htight).
  split; [eapply all_excludes; [|exact Hline]; done|].
  split.
  { apply orb_false_iff. split.
    - apply tight_nonempty in Htight. by destruct (Law.line_of cps).
    - by rewrite Hr, isHeaderLike_boundary. }
  split.
  { destruct (Law.line_of cps) as [|c s]; [done|].
    simpl in Hhash. apply orb_false_iff in Hhash as [Hc _].
    change (Js.startsWith "#" (String c s)) with (Ascii.eqb "#" c && true).
    by rewrite andb_true_r, Ascii.eqb_sym. }
  split.
  { apply String.eqb_neq. rewrite Hr. intros Heq.
    destruct r as [|d r'].
    - rewrite append_empty_r in Heq. done.
    - specialize (Hsp ltac:(done)).
      assert (Js.includes Js.SPACE "---" = true) as Hc; [|done].
      rewrite <- Heq, includes_append, Hsp. by rewrite orb_true_r. }
  destruct (Forall_exists_Forall2
    (λ f t, Law.reads (Law.cell row f) t ∧
            ∃ v, row !! f = Some v ∧ Parser.parseValue t = Ok v) fields)
    as [tokens Htokens].
  { eapply Forall_impl; [exact Hall|]. intros f (v & Hv & Hc).
    destruct (clean_cell v Hc) as ((token & Hrd & Hp) & _).
    exists token. unfold Law.cell. rewrite Hv. eauto. }
  exists tokens. split; [|split].
  - unfold Parser.tokenizeLine, Parser.stripComment, Parser.findCommentStart.
    rewrite findCommentStart_no_hash by done.
    apply tokenize_line_of; [|done]. subst cps. clear -Htokens Hlen.
    revert pads Hlen. induction Htokens as [|f t fs ts [Hrd _] _ IH];
      intros pads Hlen; [constructor|].
    destruct pads as [|p pads]; [done|]. cbn [map zip zip_with].
    constructor; [done|]. apply IH. simpl in Hlen. lia.
  - destruct Htokens; done.
  - destruct (fillRow_values row fields tokens ∅) as (r0 & Hr0 & Hlookup).
    { eapply Forall2_impl; [exact Htokens|]. by intros f t [_ H]. }
    { done. }
    rewrite Hr0. f_equal. apply map_eq. intros g. rewrite Hlookup.
    destruct (decide (g ∈ fields)) as [Hin|Hout]; [done|].
    rewrite lookup_empty. symmetry. apply not_elem_of_dom.
    rewrite Hdom. by rewrite elem_of_list_to_set.
Qed.

End CleanRows.

(* ===================================================================== *)
(** ** The lines of a clean block                                        *)
(* ===================================================================== *)

Section CleanBlocks.

Lemma indexOf_first c a b :
  Js.includes c a = false →
  Js.indexOf c (a +:+ String c b) = Some (String.length a).
Proof.
  induction a as [|d a IH].
  - intros _. rewrite append_empty_l. cbn [Js.indexOf]. by rewrite Ascii.eqb_refl.
  - cbn [Js.includes]. rewrite orb_false_iff. intros [Hd Ha].
    rewrite append_cons. cbn [Js.indexOf]. by rewrite Hd, (IH Ha).
Qed.

Lemma substringTo_append a b : Js.substringTo (String.length a) (a +:+ b) = a.
Proof.
  induction a as [|d a IH]; [by destruct b|].
  rewrite append_cons. simpl. by rewrite IH.
Qed.

Lemma substringFrom_append a c b :
  Js.substringFrom (S (String.length a)) (a +:+ String c b) = b.
Proof.
  induction a as [|d a IH]; [by destruct b|].
  rewrite append_cons. cbn [String.length Js.substringFrom]. exact IH.
Qed.

Lemma tight_append a b :
  Law.startsTight a = true → Law.endsTight b = true → Law.tight (a +:+ b) = true.
Proof.
  intros Ha Hb. unfold Law.tight. apply andb_true_iff. split.
  - destruct a; [done|]. by rewrite append_cons.
  - rewrite endsTight_append; [done|]. by destruct b.
Qed.

Lemma text_of_lines_first c s ls :
  ∃ t, text_of_lines (String c s :: ls) = String c t.
Proof.
  destruct ls as [|l ls]; [by exists s|].
  rewrite text_of_lines_cons, append_cons. by eexists.
Qed.

Lemma skipEmptyLines_stays c t :
  Parser.isBlank c = false → Ascii.eqb c Js.HASH = false →
  Parser.skipEmptyLines (String c t) = String c t.
Proof.
  unfold Parser.isBlank. rewrite !orb_false_iff. intros [[[H1 H2] H3] H4] H5.
  cbn [Parser.skipEmptyLines]. by rewrite H1, H2, H3, H4, H5.
Qed.

Lemma skipWhitespaceAndComments_stays c t :
  Parser.isBlank c = false → Ascii.eqb c Js.HASH = false →
  Parser.skipWhitespaceAndComments (String c t) = String c t.
Proof.
  intros H1 H2. cbn [Parser.skipWhitespaceAndComments]. by rewrite H1, H2.
Qed.

Lemma startsTight_not_blank c s :
  Law.startsTight (String c s) = true → Parser.isBlank c = false.
Proof.
  simpl. rewrite negb_true_iff. intros Hw. unfold Parser.isBlank.
  destruct (Ascii.eqb_spec c Js.SPACE) as [->|]; [done|].
  destruct (Ascii.eqb_spec c Js.TAB) as [->|]; [done|].
  destruct (Ascii.eqb_spec c Js.CR) as [->|]; [done|].
  destruct (Ascii.eqb_spec c Js.LF) as [->|]; done.
Qed.

Lemma join_plain cells :
  Js.join " " cells = Law.line_of (zip cells (repeat 0 (length cells))).
Proof.
  induction cells as [|c cells IH]; [done|].
  destruct cells as [|c' cells]; [done|].
  rewrite join_cons, IH. cbn [length repeat zip zip_with Law.line_of Js.spaces].
  by rewrite append_empty_l.
Qed.

Lemma fieldDef_clean fi :
  Law.clean_field fi = true →
  Law.bare (Serializer.fieldDef fi) = true ∧
  Law.fieldName (Serializer.fieldDef fi) = fi_name fi ∧
  Law.fieldInfoOf (Serializer.fieldDef fi) = fi.
Proof.
  destruct fi as [nm type computed]. unfold Law.clean_field, Serializer.fieldDef.
  cbn [fi_name fi_type isComputed]. rewrite !andb_true_iff, negb_true_iff.
  intros [[[Hnm Hcolon] _] Htype].
  unfold Law.fieldName, Law.fieldInfoOf.
  destruct type as [t|].
  - apply andb_true_iff in Htype as [Ht Hc]. apply Bool.eqb_prop in Hc.
    assert (Hne : Js.isEmpty t = false) by (by destruct t).
    rewrite Hne. change (":" +:+ t) with (String Js.COLON t).
    rewrite indexOf_first, substringTo_append, substringFrom_append by done.
    split; [|by rewrite Hc].
    unfold Law.bare in *. apply andb_true_iff in Hnm as [Hn1 Hn2].
    apply andb_true_iff in Ht as [_ Ht2].
    rewrite all_append, Hn2. cbn [Re.all]. rewrite Ht2.
    destruct nm; [done|]. by rewrite append_cons.
  - apply negb_true_iff in Htype. subst computed.
    apply indexOf_includes in Hcolon. by rewrite Hcolon.
Qed.

Lemma fieldsLine_clean (defs : list string) :
  defs ≠ [] → Forall (λ d, Law.bare d = true) defs →
  let line := Js.join " " defs in
  Js.includes Js.LF line = false ∧ Law.tight line = true ∧
  (∃ c t, line = String c t ∧ Law.bareChar c = true) ∧
  Parser.tokenizeLine line = Ok defs.
Proof.
  intros Hne Hall. cbv zeta. rewrite join_plain.
  set (cps := zip defs (repeat 0 (length defs))).
  assert (Hcps : Forall (λ cp : string * nat, Law.bare cp.1 = true) cps).
  { subst cps. clear Hne. induction Hall as [|d ds Hd _ IH]; [constructor|].
    cbn [length repeat zip zip_with]. by constructor. }
  assert (Hnil : cps ≠ []) by (subst cps; by destruct defs).
  assert (Hline : Re.all Law.lineChar (Law.line_of cps) = true).
  { apply all_line_of; [done|]. eapply Forall_impl; [exact Hcps|].
    intros cp Hb. unfold Law.bare in Hb. apply andb_true_iff in Hb as [_ Hb].
    eapply all_impl; [|exact Hb]. apply bareChar_lineChar. }
  split; [eapply all_excludes; [|exact Hline]; done|].
  split.
  { apply tight_line_of; [done|]. eapply Forall_impl; [exact Hcps|].
    intros cp. apply bare_tight. }
  split.
  { destruct cps as [|[c k] cps']; [done|]. inversion Hcps as [|? ? Hc _]; subst.
    destruct (line_of_head c k cps') as (r & -> & _).
    simpl in Hc. unfold Law.bare in Hc. apply andb_true_iff in Hc as [Hc1 Hc2].
    destruct c as [|a c]; [done|]. simpl in Hc2.
    apply andb_true_iff in Hc2 as [Ha _]. rewrite append_cons. eauto. }
  unfold Parser.tokenizeLine, Parser.stripComment, Parser.findCommentStart.
  rewrite findCommentStart_no_hash by (eapply all_excludes; [|exact Hline]; done).
  apply tokenize_line_of; [|done]. subst cps. clear -Hall.
  induction Hall as [|d ds Hd _ IH]; [constructor|].
  cbn [length repeat zip zip_with]. constructor; [|done]. by apply reads_bare.
Qed.

Lemma parseRows_blank fuel block inSummary tail :
  tail = [] ∨ (∃ more, tail = "" :: more) →
  Parser.parseRows fuel block inSummary (text_of_lines tail) =
  Ok (block, text_of_lines tail).
Proof.
  intros [->|[more ->]]; apply parseRows_stop; [done|].
  destruct more as [|l more]; [done|].
  rewrite text_of_lines_cons, append_empty_l. reflexivity.
Qed.

(** The row loop over the lines that [serializeBlock] writes after the
    field line: data lines, then the separator and the summary lines if
    there are any, up to a blank line or the end of the text. *)
Lemma parseRows_clean fuel block lsr rs lss ss tail :
  Forall2 (Spec.data_line (fields block)) lsr rs →
  Forall2 (Spec.data_line (fields block)) lss ss →
  tail = [] ∨ (∃ more, tail = "" :: more) →
  let text :=
    text_of_lines
      (lsr ++ match ss with [] => [] | _ => "---" :: lss end ++ tail) in
  String.length text ≤ fuel →
  Parser.parseRows fuel block false text =
  Ok (Spec.with_rows block rs ss, text_of_lines tail).
Proof.
  intros Hrs Hss Htail text Hlen. subst text.
  rewrite (parseRows_fuel fuel (length lsr + (S (length lss + fuel)))) by lia.
  rewrite (parseRows_data_prefix lsr rs) by done.
  destruct ss as [|s ss].
  - inversion Hss; subst. rewrite app_nil_l. by apply parseRows_blank.
  - rewrite <- app_comm_cons.
    rewrite (parseRows_separator _ _ _ _ (text_of_lines (lss ++ tail))).
    2: { by rewrite readLine_lines. }
    assert (Hf : fields (Spec.with_rows block rs []) = fields block) by done.
    rewrite (parseRows_data_prefix lss (s :: ss)) by (by rewrite Hf).
    rewrite parseRows_blank by done. do 2 f_equal.
    unfold Spec.with_rows. simpl. by rewrite !app_nil_r.
Qed.

Lemma block_eta (b : Block) :
  b = mkBlock (kind b) (name b) (rows b) (fields b) (fieldInfo b) (summaryRows b).
Proof. by destruct b. Qed.

Lemma clean_block_spec b :
  Law.clean_block b = true →
  Law.tight (kind b) = true ∧ Law.tight (name b) = true ∧
  Js.includes Js.LF (kind b) = false ∧ Js.includes Js.LF (name b) = false ∧
  Js.includes Js.DOT (kind b) = false ∧ Js.startsWith "#" (kind b) = false ∧
  fields b ≠ [] ∧ fields b = map fi_name (fieldInfo b) ∧
  Forall (λ fi, Law.clean_field fi = true) (fieldInfo b) ∧
  Forall (λ r, Law.clean_row (fields b) r = true) (rows b) ∧
  Forall (λ r, Law.clean_row (fields b) r = true) (summaryRows b).
Proof.
  unfold Law.clean_block. rewrite !andb_true_iff, !negb_true_iff.
  rewrite !forallb_forall, !bool_decide_eq_false, bool_decide_eq_true.
  intros [[[[[[[[[[H1 H2] H3] H4] H5] H6] H7] H8] H9] H10] H11].
  repeat split; try done; apply Forall_forall; intros x Hx;
    apply list_elem_of_In in Hx; auto.
Qed.

Lemma clean_fields_proto (infos : list FieldInfo) :
  Forall (λ fi, Law.clean_field fi = true) infos →
  "__proto__" ∉ map fi_name infos.
Proof.
  induction 1 as [|fi infos Hfi _ IH]; [apply not_elem_of_nil|].
  cbn [map]. apply not_elem_of_cons. split; [|done].
  unfold Law.clean_field in Hfi. rewrite !andb_true_iff in Hfi.
  destruct Hfi as [[[_ _] Hp] _]. apply negb_true_iff, String.eqb_neq in Hp.
  congruence.
Qed.

Lemma data_lines_of_rows alignColumns widths fs (rs : list Row) :
  fs ≠ [] → "__proto__" ∉ fs → Forall (λ r, Law.clean_row fs r = true) rs →
  Forall2 (Spec.data_line fs)
    (map (λ row, Serializer.serializeRow alignColumns row fs widths) rs) rs.
Proof.
  intros Hne Hproto. induction 1 as [|r rs Hr _ IH]; [constructor|].
  cbn [map]. constructor; [|done]. by apply clean_row_data_line.
Qed.

(** [parseBlock] reads the lines of a clean block back as the block, and
    stops at the blank line after them. *)
Lemma clean_block_reads_back alignColumns b tail :
  Law.clean_block b = true →
  tail = [] ∨ (∃ more, tail = "" :: more) →
  Parser.parseBlock (text_of_lines (Law.block_lines alignColumns b ++ tail)) =
  Ok (Some b, text_of_lines tail).
Proof.
  intros Hclean Htail.
  apply clean_block_spec in Hclean
    as (Hk & Hn & Hkl & Hnl & Hkd & Hkh & Hfs & Hfi & Hinfos & Hrows & Hsums).
  set (widths := if alignColumns then Serializer.calculateWidths b else []).
  set (lsr := map (λ row, Serializer.serializeRow alignColumns row (fields b) widths)
                (rows b)).
  set (lss := map (λ row, Serializer.serializeRow alignColumns row (fields b) widths)
                (summaryRows b)).
  set (defs := map Serializer.fieldDef (fieldInfo b)).
  set (header := kind b +:+ "." +:+ name b).
  assert (Hlines : Law.block_lines alignColumns b ++ tail =
            header :: Js.join " " defs ::
              (lsr ++ match summaryRows b with [] => [] | _ => "---" :: lss end
                   ++ tail)).
  { unfold Law.block_lines. fold widths lsr lss defs header.
    cbn [app]. by rewrite <- app_assoc. }
  rewrite Hlines. clear Hlines.
  (* the header line *)
  assert (Hheader : Law.tight header = true).
  { subst header. unfold Law.tight in Hk, Hn.
    apply andb_true_iff in Hk as [Hk _]. apply andb_true_iff in Hn as [_ Hn].
    apply tight_append; [done|].
    change ("." +:+ name b) with (Js.str Js.DOT +:+ name b).
    rewrite endsTight_append; [done|]. by destruct (name b). }
  assert (Hread1 : ∀ ls, Parser.readLine (text_of_lines (header :: ls)) =
                         Some (header, text_of_lines ls)).
  { intros ls. rewrite readLine_lines, trim_tight; [done..| |].
    - subst header. rewrite !includes_append, Hkl, Hnl. done.
    - by apply tight_nonempty. }
  unfold Parser.parseBlock. rewrite Hread1.
  assert (Hc1 : Js.isEmpty header || Js.startsWith "#" header = false).
  { subst header. destruct (kind b) as [|c s]; [done|].
    rewrite append_cons. simpl in *. done. }
  rewrite Hc1. subst header.
  change ("." +:+ name b) with (String Js.DOT (name b)).
  rewrite indexOf_first by done. cbv zeta.
  rewrite substringTo_append, substringFrom_append.
  rewrite !trim_tight by done.
  assert (Hc2 : Js.isEmpty (kind b) || Js.isEmpty (name b) = false).
  { apply tight_nonempty in Hk, Hn. by destruct (kind b), (name b). }
  rewrite Hc2.
  (* the field line *)
  assert (Hdefs : Forall (λ d, Law.bare d = true) defs).
  { subst defs. apply Forall_fmap. eapply Forall_impl; [exact Hinfos|].
    intros fi Hfi'. by apply fieldDef_clean in Hfi' as [? _]. }
  assert (Hdne : defs ≠ []).
  { subst defs. rewrite Hfi in Hfs. by destruct (fieldInfo b). }
  destruct (fieldsLine_clean defs Hdne Hdefs) as (Hfl & Hft & (c & t & Hfc & Hfb) & Htok).
  set (ls := lsr ++ match summaryRows b with [] => [] | _ => "---" :: lss end ++ tail) in *.
  destruct (text_of_lines_first c t ls) as [t' Ht'].
  rewrite Hfc at 1. rewrite Ht'.
  apply bareChar_spec in Hfb as (_ & _ & Hblank & _ & Hhash & _).
  rewrite skipEmptyLines_stays by done. rewrite <- Ht', <- Hfc.
  rewrite readLine_lines, trim_tight by (done || by apply tight_nonempty).
  assert (Hc3 : Js.isEmpty (Js.join " " defs) = false).
  { rewrite Hfc. done. }
  rewrite Hc3, Htok. cbn [mbind result_bind]. unfold result_bind at 1.
  (* the block as the field line leaves it *)
  set (block0 := fold_left Parser.addField defs (newBlock (kind b) (name b))).
  assert (Hblock0 : block0 =
            mkBlock (kind b) (name b) [] (fields b) (fieldInfo b) []).
  { destruct (addFields_rows defs (newBlock (kind b) (name b))) as (R1 & R2 & R3 & R4).
    destruct (addFields_fields defs (newBlock (kind b) (name b))) as (F1 & F2).
    fold block0 in R1, R2, R3, R4, F1, F2. simpl in R1, R2, R3, R4, F1, F2.
    assert (G1 : map Law.fieldName defs = fields b).
    { subst defs. rewrite Hfi, map_map. apply map_ext_Forall.
      eapply Forall_impl; [exact Hinfos|]. intros fi Hfi'.
      by apply fieldDef_clean in Hfi' as (_ & ? & _). }
    assert (G2 : map Law.fieldInfoOf defs = fieldInfo b).
    { subst defs. rewrite map_map. rewrite <- (map_id (fieldInfo b)) at 2.
      apply map_ext_Forall.
      eapply Forall_impl; [exact Hinfos|]. intros fi Hfi'.
      by apply fieldDef_clean in Hfi' as (_ & _ & ?). }
    rewrite (block_eta block0), R1, R2, R3, R4, F1, F2, G1, G2. done. }
  rewrite Hblock0.
  (* the rows *)
  subst ls. rewrite (parseRows_clean _ _ lsr (rows b) lss (summaryRows b) tail).
  - simpl. do 3 f_equal. symmetry. apply block_eta.
  - apply data_lines_of_rows; [done| |done].
    rewrite Hfi. by apply clean_fields_proto.
  - apply data_lines_of_rows; [done| |done].
    rewrite Hfi. by apply clean_fields_proto.
  - done.
  - unfold Js.length. lia.
Qed.

End CleanBlocks.

(* ===================================================================== *)
(** ** A clean document is read back                                     *)
(* ===================================================================== *)

Section CleanDocuments.

Lemma text_of_lines_app ls ls' :
  ls ≠ [] → ls' ≠ [] →
  text_of_lines (ls ++ ls') = text_of_lines ls +:+ String Js.LF (text_of_lines ls').
Proof.
  intros Hls Hls'. induction ls as [|l ls IH]; [done|].
  destruct ls as [|l' ls].
  - destruct ls' as [|x ls']; [done|]. cbn [app]. by rewrite text_of_lines_cons.
  - rewrite <- !app_comm_cons, !text_of_lines_cons.
    rewrite <- app_comm_cons in IH. rewrite IH by done.
    by rewrite append_assoc.
Qed.

Lemma block_lines_cons alignColumns b :
  ∃ ls, Law.block_lines alignColumns b = (kind b +:+ "." +:+ name b) :: ls.
Proof. unfold Law.block_lines. cbn [app]. by eexists. Qed.

Lemma doc_lines_cons alignColumns b bs :
  ∃ ls, Law.doc_lines alignColumns (b :: bs) = (kind b +:+ "." +:+ name b) :: ls.
Proof.
  destruct (block_lines_cons alignColumns b) as [ls Hls].
  destruct bs as [|b' bs]; cbn [Law.doc_lines]; rewrite Hls; by eexists.
Qed.

(** [serialize] writes the lines of the blocks, with one blank line between
    two blocks. *)
Lemma serialize_lines alignColumns bs :
  Serializer.serialize alignColumns (mkDocument bs) =
  text_of_lines (Law.doc_lines alignColumns bs).
Proof.
  unfold Serializer.serialize. cbn [blocks].
  induction bs as [|b bs IH]; [done|].
  destruct bs as [|b' bs]; [done|].
  cbn [map] in *. rewrite join_cons, IH.
  change (Law.doc_lines alignColumns (b :: b' :: bs))
    with (Law.block_lines alignColumns b ++
          "" :: Law.doc_lines alignColumns (b' :: bs)).
  destruct (block_lines_cons alignColumns b) as [ls Hls].
  destruct (doc_lines_cons alignColumns b' bs) as [ls' Hls'].
  rewrite text_of_lines_app by (rewrite ?Hls; done).
  rewrite Hls', text_of_lines_cons, <- Hls', append_empty_l.
  reflexivity.
Qed.

Lemma doc_lines_first alignColumns b bs :
  Law.clean_block b = true →
  ∃ c t, text_of_lines (Law.doc_lines alignColumns (b :: bs)) = String c t ∧
         Parser.isBlank c = false ∧ Ascii.eqb c Js.HASH = false.
Proof.
  intros Hclean. apply clean_block_spec in Hclean as (Hk & _ & _ & _ & _ & Hh & _).
  destruct (doc_lines_cons alignColumns b bs) as [ls ->].
  unfold Law.tight in Hk. apply andb_true_iff in Hk as [Hk _].
  destruct (kind b) as [|c s] eqn:Ek; [done|].
  rewrite append_cons. destruct (text_of_lines_first c (s +:+ "." +:+ name b) ls)
    as [t ->].
  exists c, t. split; [done|]. split; [by apply (startsTight_not_blank c s)|].
  change (Js.startsWith "#" (String c s)) with (Ascii.eqb "#" c && true) in Hh.
  by rewrite andb_true_r, Ascii.eqb_sym in Hh.
Qed.

Lemma parseBlocks_clean alignColumns bs :
  Forall (λ b, Law.clean_block b = true) bs →
  ∀ fuel acc,
    String.length (text_of_lines (Law.doc_lines alignColumns bs)) ≤ fuel →
    Parser.parseBlocks fuel (mkDocument acc)
      (text_of_lines (Law.doc_lines alignColumns bs)) =
    Ok (mkDocument (acc ++ bs)).
Proof.
  induction 1 as [|b bs Hb Hbs IH]; intros fuel acc Hlen.
  - rewrite app_nil_r. by destruct fuel.
  - destruct (doc_lines_first alignColumns b bs Hb) as (c & t & Htext & _).
    assert (Hne : text_of_lines (Law.doc_lines alignColumns (b :: bs)) ≠ "")
      by (by rewrite Htext).
    destruct fuel as [|fuel]; [rewrite Htext in Hlen; simpl in Hlen; lia|].
    rewrite parseBlocks_step by done.
    assert (Hblock : ∃ tail,
      Law.doc_lines alignColumns (b :: bs) = Law.block_lines alignColumns b ++ tail ∧
      (tail = [] ∨ ∃ more, tail = "" :: more) ∧
      Parser.skipWhitespaceAndComments (text_of_lines tail) =
        text_of_lines (Law.doc_lines alignColumns bs) ∧
      String.length (text_of_lines (Law.doc_lines alignColumns bs)) ≤
        String.length (text_of_lines tail)).
    { destruct bs as [|b' bs'].
      - exists []. cbn [Law.doc_lines]. rewrite app_nil_r. split; [done|].
        split; [by left|]. done.
      - exists ("" :: Law.doc_lines alignColumns (b' :: bs')).
        split; [done|]. split; [right; by eexists|].
        inversion Hbs as [|? ? Hb' _]; subst.
        destruct (doc_lines_first alignColumns b' bs' Hb') as (c' & t' & Ht' & H1 & H2).
        destruct (doc_lines_cons alignColumns b' bs') as [ls' Hls'].
        rewrite Hls', text_of_lines_cons, <- Hls', append_empty_l, Ht'.
        split; [|simpl; lia].
        change (Parser.skipWhitespaceAndComments (String Js.LF (String c' t')))
          with (Parser.skipWhitespaceAndComments (String c' t')).
        by apply skipWhitespaceAndComments_stays. }
    destruct Hblock as (tail & Hlines & Htail & Hskip & Hshort).
    rewrite Hlines in *.
    pose proof (clean_block_reads_back alignColumns b tail Hb Htail) as Hread.
    rewrite Hread. cbn [mbind result_bind]. unfold result_bind.
    rewrite Hskip. cbn [Parser.pushBlock blocks].
    apply parseBlock_length in Hread; [|done].
    rewrite IH by lia. by rewrite <- app_assoc.
Qed.

(** The lines that [serialize] writes for clean blocks are read back as
    these blocks. *)
Lemma parse_doc_lines alignColumns bs :
  Forall (λ b, Law.clean_block b = true) bs →
  Parser.parse (text_of_lines (Law.doc_lines alignColumns bs)) = Ok (mkDocument bs).
Proof.
  intros Hall. unfold Parser.parse.
  assert (Hskip : Parser.skipWhitespaceAndComments
                    (text_of_lines (Law.doc_lines alignColumns bs)) =
                  text_of_lines (Law.doc_lines alignColumns bs)).
  { destruct bs as [|b bs]; [done|]. inversion Hall as [|? ? Hb _]; subst.
    destruct (doc_lines_first alignColumns b bs Hb) as (c & t & -> & Hc1 & Hc2).
    by apply skipWhitespaceAndComments_stays. }
  rewrite Hskip. by rewrite (parseBlocks_clean alignColumns bs Hall).
Qed.

Lemma clean_doc_blocks doc :
  Law.clean_doc doc = true → Forall (λ b, Law.clean_block b = true) (blocks doc).
Proof.
  unfold Law.clean_doc. rewrite forallb_forall. intros Hclean.
  apply Forall_forall. intros b Hb. apply Hclean. by apply list_elem_of_In.
Qed.

(** X3. A document for which [Law.clean_doc] holds is read back as it is:
    [parse] undoes [dumps], with aligned columns or without.  [Law.clean_doc]
    asks of every block what [Law.clean_block] says.  Kind and name are not
    empty, hold no newline and have no white space at either end; the kind
    holds no dot and does not start with [#].  There is at least one field,
    and [fields] lists the names of [fieldInfo].  A field ([Law.clean_field])
    has a name that is not empty, holds no white space, quote, [#] or colon
    and is not [__proto__]; its type is absent, or is not empty and holds no
    white space, quote or [#]; it is computed exactly when its type is
    [computed].  A row or summary row ([Law.clean_row]) has the fields of the
    block as its keys, no more and no fewer; the text written for its first
    field is not [---] and does not start with lower-case letters and a dot;
    its values ([Law.clean]) are [null], booleans, whole numbers up to
    [Number.MAX_SAFE_INTEGER] in size, references whose id and type hold no
    white space, quote, [#] or colon, the type being absent or not empty, and
    strings without [#] that [parseValue] reads as strings and that either
    hold a space, a tab, a newline, a quote or a backslash, or are not empty
    and hold no white space or quote. *)
Theorem clean_document_reads_back (doc : Document) (alignColumns : bool) :
  Law.clean_doc doc = true → parse (dumps doc alignColumns) = Ok doc.
Proof.
  intros Hclean. apply clean_doc_blocks in Hclean.
  destruct doc as [bs]. cbn [blocks] in Hclean.
  unfold parse, dumps. rewrite serialize_lines.
  by apply parse_doc_lines.
Qed.

Lemma clean_document_reads_back_witness :
  parse (dumps Sample.clean_doc true) = Ok Sample.clean_doc.
Proof. apply clean_document_reads_back. vm_compute. reflexivity. Defined.

End CleanDocuments.

(* ===================================================================== *)
(** ** What holds of every parsed block                                  *)
(* ===================================================================== *)

Section ParsedBlocks.

Lemma trimEnd_shape s :
  Js.trimEnd s = "" ∨ Law.endsTight (Js.trimEnd s) = true.
Proof.
  induction s as [|c s IH]; [by left|]. cbn [Js.trimEnd].
  destruct (Js.trimEnd s) as [|d r] eqn:E.
  - destruct (Js.isWhiteSpace c) eqn:Hc; [by left|right]. simpl. by rewrite Hc.
  - right. destruct IH as [|IH]; [done|]. exact IH.
Qed.

Lemma trimEnd_first c s :
  Js.isWhiteSpace c = false → ∃ r, Js.trimEnd (String c s) = String c r.
Proof.
  intros Hc. cbn [Js.trimEnd]. destruct (Js.trimEnd s); [|by eexists].
  rewrite Hc. by eexists.
Qed.

Lemma trimStart_shape s :
  Js.trimStart s = "" ∨
  ∃ c r, Js.trimStart s = String c r ∧ Js.isWhiteSpace c = false.
Proof.
  induction s as [|c s IH]; [by left|]. cbn [Js.trimStart].
  destruct (Js.isWhiteSpace c) eqn:Hc; [done|]. right. eauto.
Qed.

(** [trim()] gives the empty string or a string without white space at
    its ends. *)
Lemma trim_shape s : Js.trim s = "" ∨ Law.tight (Js.trim s) = true.
Proof.
  unfold Js.trim. destruct (trimStart_shape s) as [->|(c & r & -> & Hc)]; [by left|].
  right. destruct (trimEnd_first c r Hc) as [r' Hr'].
  unfold Law.tight. apply andb_true_iff. split.
  - rewrite Hr'. simpl. by rewrite Hc.
  - destruct (trimEnd_shape (String c r)) as [H|H]; [by rewrite Hr' in H|done].
Qed.

Lemma all_trimStart p s : Re.all p s = true → Re.all p (Js.trimStart s) = true.
Proof.
  induction s as [|c s IH]; [done|]. intros H. cbn [Js.trimStart].
  destruct (Js.isWhiteSpace c); [|done].
  simpl in H. apply andb_true_iff in H as [_ H]. auto.
Qed.

Lemma all_trimEnd p s : Re.all p s = true → Re.all p (Js.trimEnd s) = true.
Proof.
  induction s as [|c s IH]; [done|]. intros H. cbn [Js.trimEnd].
  simpl in H. apply andb_true_iff in H as [Hc H]. specialize (IH H).
  destruct (Js.trimEnd s) as [|d r].
  - destruct (Js.isWhiteSpace c); [done|]. simpl. by rewrite Hc.
  - cbn [Re.all] in *. by rewrite Hc, IH.
Qed.

Lemma all_trim p s : Re.all p s = true → Re.all p (Js.trim s) = true.
Proof. intros H. unfold Js.trim. by apply all_trimEnd, all_trimStart. Qed.

Lemma includes_before c s : ∀ i,
  Js.indexOf c s = Some i → Js.includes c (Js.substringTo i s) = false.
Proof.
  induction s as [|d s IH]; intros i; [done|]. cbn [Js.indexOf].
  destruct (Ascii.eqb d c) eqn:Hd.
  - intros [= <-]. done.
  - destruct (Js.indexOf c s) as [j|]; [|done]. intros [= <-].
    cbn [Js.substringTo Js.includes]. by rewrite Hd, (IH j).
Qed.

Lemma includes_trim c s : Js.includes c s = false → Js.includes c (Js.trim s) = false.
Proof.
  intros H. apply (all_excludes (λ d, negb (Ascii.eqb d c))).
  - by rewrite Ascii.eqb_refl.
  - by apply all_trim, excludes_all.
Qed.

Lemma fieldInfoOf_parsed token : Law.parsed_field (Law.fieldInfoOf token).
Proof.
  unfold Law.parsed_field, Law.fieldInfoOf.
  destruct (Js.indexOf Js.COLON token) as [i|] eqn:Hi.
  - generalize (Js.substringFrom (S i) token). intros t.
    cbn [fi_name fi_type isComputed].
    split; [by apply includes_before|].
    rewrite String.eqb_eq. split; [by intros ->|by intros [= ->]].
  - cbn [fi_name fi_type isComputed]. split; [by apply indexOf_includes|]. done.
Qed.

Lemma from_line_dom fs (r : Row) :
  Spec.from_line fs r → dom r ⊆@{gset string} list_to_set fs.
Proof.
  intros (line & tokens & _ & _ & Hfill) f Hf.
  apply elem_of_list_to_set. apply elem_of_dom in Hf.
  destruct (decide (f ∈ fs)) as [|Hout]; [done|].
  rewrite (fillRow_absent _ _ _ _ f Hfill) in Hf.
  - rewrite lookup_empty in Hf. by destruct Hf.
  - intros Hin. apply Hout. apply elem_of_take in Hin as (i & Hi & _).
    by eapply list_elem_of_lookup_2.
Qed.

Lemma parseBlock_parsed text b rest :
  Parser.parseBlock text = Ok (Some b, rest) → Law.parsed_block b.
Proof.
  intros H. pose proof (parseBlock_rows _ _ _ H) as Hrows.
  apply parseBlock_Some in H.
  destruct H as (headerLine & rest0 & dotIndex & _ & _ & Hdot & Hne & Hcases).
  cbv zeta in Hne, Hcases.
  set (knd := Js.trim (Js.substringTo dotIndex headerLine)) in *.
  set (nm := Js.trim (Js.substringFrom (S dotIndex) headerLine)) in *.
  apply orb_false_iff in Hne as [Hk Hn].
  assert (Hkind : Law.tight knd = true).
  { destruct (trim_shape (Js.substringTo dotIndex headerLine)) as [H|H]; [|done].
    fold knd in H. by rewrite H in Hk. }
  assert (Hname : Law.tight nm = true).
  { destruct (trim_shape (Js.substringFrom (S dotIndex) headerLine)) as [H|H]; [|done].
    fold nm in H. by rewrite H in Hn. }
  assert (Hnodot : Js.includes Js.DOT knd = false).
  { apply includes_trim. by apply includes_before. }
  assert (Hnew : Law.parsed_block (newBlock knd nm)).
  { repeat split; try done; constructor. }
  destruct Hcases as [(_ & -> & _)|(fieldsLine & rest2 & _ & Hcases)]; [done|].
  destruct Hcases as [(_ & -> & _)|(fieldTokens & _ & _ & Hp)]; [done|].
  apply parseRows_appends in Hp as (Hk' & Hn' & Hfs & Hfi & _).
  destruct (addFields_rows fieldTokens (newBlock knd nm)) as (_ & _ & R3 & R4).
  destruct (addFields_fields fieldTokens (newBlock knd nm)) as (F1 & F2).
  simpl in R3, R4, F1, F2.
  unfold Law.parsed_block. rewrite Hk', Hn', Hfs, Hfi, R3, R4, F1, F2.
  split; [done|]. split; [done|]. split; [done|]. split; [|split].
  - rewrite map_map. apply map_ext. intros t. by rewrite fieldInfoOf_name.
  - apply Forall_fmap, Forall_forall. intros t _. apply fieldInfoOf_parsed.
  - rewrite <- F1, <- Hfs. eapply Forall_impl; [exact Hrows|].
    intros r. apply from_line_dom.
Qed.

Lemma parseBlocks_parsed fuel : ∀ d t d',
  Parser.parseBlocks fuel d t = Ok d' →
  Forall Law.parsed_block (blocks d) → Forall Law.parsed_block (blocks d').
Proof.
  induction fuel as [|fuel IH]; intros d t d' H Hd.
  - destruct t; [|discriminate]. by inversion H; subst.
  - destruct (decide (t = "")) as [->|Hne]; [by inversion H; subst|].
    rewrite parseBlocks_step in H by done.
    destruct (Parser.parseBlock t) as [[block rest]| |] eqn:Hb; simpl in H;
      try done.
    eapply IH; [exact H|].
    destruct block as [b|]; simpl; [|done].
    apply Forall_app. split; [done|].
    constructor; [|constructor]. eapply parseBlock_parsed; eauto.
Qed.

(** X2. Every block of a document that [parse] returns is well formed: kind
    and name are trimmed and not empty, the kind has no dot, [fields] lists
    the names of [fieldInfo], no name has a colon, a field is computed
    exactly when its type is [computed], and the rows and summary rows have
    values for declared fields only. *)
Theorem parsed_blocks_are_well_formed (text : string) (doc : Document) :
  parse text = Ok doc → Forall Law.parsed_block (blocks doc).
Proof.
  unfold parse, Parser.parse. intros H.
  eapply parseBlocks_parsed; [exact H|]. constructor.
Qed.

Lemma parsed_blocks_are_well_formed_witness :
  Forall Law.parsed_block (blocks Sample.clean_doc).
Proof.
  apply (parsed_blocks_are_well_formed (dumps Sample.clean_doc true)).
  vm_compute. reflexivity.
Defined.

Lemma find_unique_name (infos : list FieldInfo) (fi : FieldInfo) :
  NoDup (map fi_name infos) → fi ∈ infos →
  List.find (λ x, String.eqb (fi_name x) (fi_name fi)) infos = Some fi.
Proof.
  induction infos as [|x infos IH]; intros Hnodup Hin.
  - by apply elem_of_nil in Hin.
  - cbn [map] in Hnodup. apply NoDup_cons in Hnodup as [Hx Hnodup].
    cbn [List.find]. apply elem_of_cons in Hin as [->|Hin].
    + by rewrite String.eqb_refl.
    + destruct (String.eqb (fi_name x) (fi_name fi)) eqn:Heq; [|by apply IH].
      apply String.eqb_eq in Heq. exfalso. apply Hx. rewrite Heq.
      apply list_elem_of_fmap. by exists fi.
Qed.

(** X19. In a parsed block whose field names are distinct, the fields that
    [getComputedFields] lists are those whose type, as [getFieldType] gives
    it, is [computed]. *)
Theorem computed_fields_have_computed_type (text : string) (doc : Document)
    (b : Block) (f : string) :
  parse text = Ok doc → b ∈ blocks doc → NoDup (fields b) →
  (f ∈ Blk.getComputedFields b ↔ Blk.getFieldType f b = Some "computed").
Proof.
  unfold parse, Parser.parse. intros Hparse Hb Hnodup.
  apply parseBlocks_parsed in Hparse; [|constructor].
  rewrite Forall_forall in Hparse.
  destruct (Hparse b Hb) as (_ & _ & _ & Hfields & Hinfos & _).
  rewrite Hfields in Hnodup. rewrite Forall_forall in Hinfos.
  unfold Blk.getComputedFields, Blk.getFieldType. split.
  - intros Hin. apply list_elem_of_fmap in Hin as (fi & -> & Hfi).
    apply list_elem_of_In, filter_In in Hfi as [Hfi Hc].
    apply list_elem_of_In in Hfi.
    rewrite (find_unique_name _ fi Hnodup Hfi). simpl.
    by apply (Hinfos fi Hfi).
  - destruct (List.find _ _) as [fi|] eqn:Hfind; [|done]. simpl. intros Htype.
    apply find_some in Hfind as [Hfi Hname].
    apply String.eqb_eq in Hname. subst f.
    apply list_elem_of_fmap. exists fi. split; [done|].
    apply list_elem_of_In, filter_In. split; [done|].
    apply list_elem_of_In in Hfi. by apply (Hinfos fi Hfi).
Qed.

Lemma computed_fields_have_computed_type_witness :
  "count" ∈ Blk.getComputedFields Sample.totals ↔
  Blk.getFieldType "count" Sample.totals = Some "computed".
Proof.
  apply (computed_fields_have_computed_type
           (dumps Sample.clean_doc true) Sample.clean_doc).
  - vm_compute. reflexivity.
  - unfold Sample.clean_doc. cbn [blocks]. rewrite !elem_of_cons. by right; left.
  - apply (bool_decide_unpack (NoDup (fields Sample.totals))). vm_compute. exact I.
Defined.

End ParsedBlocks.

(* ===================================================================== *)
(** ** The plain object of a document                                    *)
(* ===================================================================== *)

Section PlainObject.

Lemma assign_lookup {A} (key : string) (value : A) obj k :
  Dict.assign key value obj !! k =
  if String.eqb key "__proto__" then obj !! k
  else if decide (key = k) then Some value else obj !! k.
Proof.
  unfold Dict.assign. destruct (String.eqb key "__proto__"); [done|].
  destruct (decide (key = k)) as [->|Hne].
  - by rewrite lookup_insert_eq.
  - by rewrite lookup_insert_ne.
Qed.

(** A row of the plain object has the values of the row, under the same
    keys but [__proto__]. *)
Lemma plainRow_lookup (row : Row) k :
  Dict.plainRow row !! k =
  if String.eqb k "__proto__" then None else Dict.plain <$> row !! k.
Proof.
  unfold Dict.plainRow.
  apply (map_fold_weak_ind (λ (obj : gmap string Plain) (row : Row),
    obj !! k = if String.eqb k "__proto__" then None else Dict.plain <$> row !! k)).
  - rewrite !lookup_empty. by destruct (String.eqb k "__proto__").
  - intros key value m obj Hkey IH. rewrite assign_lookup.
    destruct (String.eqb key "__proto__") eqn:Hp.
    + apply String.eqb_eq in Hp. subst key.
      destruct (String.eqb k "__proto__") eqn:Hk; [done|].
      apply String.eqb_neq in Hk. by rewrite lookup_insert_ne.
    + destruct (decide (key = k)) as [->|Hne].
      * by rewrite Hp, lookup_insert_eq.
      * by rewrite lookup_insert_ne.
Qed.

Lemma find_last_some {A} (p : A → bool) (l : list A) :
  is_Some (List.find p (rev l)) ↔ existsb p l = true.
Proof.
  induction l as [|x l IH] using rev_ind.
  - simpl. split; [by intros [? [=]]|done].
  - rewrite rev_app_distr, existsb_app. simpl.
    destruct (p x); [|by rewrite !orb_false_r].
    rewrite orb_true_r. split; [done|eauto].
Qed.

(** X9. [toDict] has one entry for a name: the rows of the last block of
    that name in the document, whereas [getBlock] returns the first block of
    the name.  The names of [toDict] are the names for which [has] holds,
    and these are the names for which [getBlock] returns a block; a
    row of [toDict] has the values of the row under the same keys.  Summary
    rows do not appear.  The name [__proto__] is apart: it is no key of the
    object that [toDict] returns. *)
Theorem toDict_keeps_the_last_block (doc : Document) (nm : string) :
  nm ≠ "__proto__" →
  Dict.toDict doc !! nm =
    (λ b, map Dict.plainRow (rows b)) <$>
      List.find (λ b, String.eqb (name b) nm) (rev (blocks doc)) ∧
  (is_Some (Dict.toDict doc !! nm) ↔ Doc.has nm doc = true) ∧
  (is_Some (Doc.getBlock nm doc) ↔ Doc.has nm doc = true) ∧
  (∀ row : Row, Dict.plainRow row !! nm = Dict.plain <$> row !! nm) ∧
  Dict.toDict doc !! "__proto__" = None.
Proof.
  intros Hnm.
  assert (Hlast : Dict.toDict doc !! nm =
    (λ b, map Dict.plainRow (rows b)) <$>
      List.find (λ b, String.eqb (name b) nm) (rev (blocks doc))).
  { unfold Dict.toDict. induction (blocks doc) as [|b bs IH] using rev_ind.
    - apply lookup_empty.
    - rewrite fold_left_app, rev_app_distr. cbn [fold_left app rev List.find].
      rewrite assign_lookup.
      destruct (String.eqb (name b) "__proto__") eqn:Hp.
      + apply String.eqb_eq in Hp.
        assert (String.eqb (name b) nm = false) as ->; [|done].
        apply String.eqb_neq. congruence.
      + destruct (decide (name b = nm)) as [Heq|Hne].
        * apply String.eqb_eq in Heq. by rewrite Heq.
        * apply String.eqb_neq in Hne. by rewrite Hne. }
  split; [done|]. split.
  { rewrite Hlast, fmap_is_Some. unfold Doc.has. apply find_last_some. }
  split.
  { unfold Doc.getBlock, Doc.has. clear. induction (blocks doc) as [|b bs IH].
    - simpl. split; [by intros [? [=]]|done].
    - simpl. destruct (String.eqb (name b) nm); [|exact IH].
      split; [done|eauto]. }
  split.
  { intros row. rewrite plainRow_lookup.
    apply String.eqb_neq in Hnm. by rewrite Hnm. }
  clear Hlast. unfold Dict.toDict.
  induction (blocks doc) as [|b bs IH] using rev_ind.
  - apply lookup_empty.
  - rewrite fold_left_app. cbn [fold_left]. rewrite assign_lookup.
    destruct (String.eqb (name b) "__proto__") eqn:Hp; [done|].
    apply String.eqb_neq in Hp. by rewrite decide_False.
Qed.

Lemma toDict_keeps_the_last_block_witness :
  Dict.toDict Sample.same_name_doc !! "t" =
    (λ b, map Dict.plainRow (rows b)) <$>
      List.find (λ b, String.eqb (name b) "t")
        (rev (blocks Sample.same_name_doc)) ∧
  (is_Some (Dict.toDict Sample.same_name_doc !! "t") ↔
   Doc.has "t" Sample.same_name_doc = true) ∧
  (is_Some (Doc.getBlock "t" Sample.same_name_doc) ↔
   Doc.has "t" Sample.same_name_doc = true) ∧
  (∀ row : Row, Dict.plainRow row !! "t" = Dict.plain <$> row !! "t") ∧
  Dict.toDict Sample.same_name_doc !! "__proto__" = None.
Proof. apply toDict_keeps_the_last_block. discriminate. Defined.

End PlainObject.

(* ===================================================================== *)
(** ** Column widths                                                     *)
(* ===================================================================== *)

Section Widths.

Lemma widenBy_length fs widths row :
  length widths = length fs → length (Serializer.widenBy fs widths row) = length fs.
Proof. intros H. unfold Serializer.widenBy. rewrite length_zip_with. lia. Qed.

Lemma widenBy_lookup fs widths row i f w :
  fs !! i = Some f → widths !! i = Some w →
  Serializer.widenBy fs widths row !! i =
  Some (Nat.max w (Js.length (Law.cell row f))).
Proof.
  intros Hf Hw. unfold Serializer.widenBy. rewrite lookup_zip_with, Hf. simpl.
  by rewrite Hw.
Qed.

(** The widths only grow over the rows, and end at least as large as every
    cell of their column. *)
Lemma fold_widenBy fs (rs : list Row) : ∀ widths,
  length widths = length fs →
  length (fold_left (Serializer.widenBy fs) rs widths) = length fs ∧
  ∀ i f w, fs !! i = Some f → widths !! i = Some w →
    ∃ w', fold_left (Serializer.widenBy fs) rs widths !! i = Some w' ∧ w ≤ w' ∧
          ∀ row, row ∈ rs → Js.length (Law.cell row f) ≤ w'.
Proof.
  induction rs as [|r rs IH]; intros widths Hlen.
  - split; [done|]. intros i f w Hf Hw. exists w. split; [done|]. split; [done|].
    intros row Hrow. by apply elem_of_nil in Hrow.
  - cbn [fold_left].
    destruct (IH (Serializer.widenBy fs widths r)) as [Hl Hcol].
    { by apply widenBy_length. }
    split; [done|]. intros i f w Hf Hw.
    destruct (Hcol i f _ Hf (widenBy_lookup _ _ r _ _ _ Hf Hw)) as (w' & Hw' & Hle & Hrows).
    exists w'. split; [done|]. split; [lia|].
    intros row [->|Hrow]%elem_of_cons; [lia|by apply Hrows].
Qed.

(** X8. For a block whose rows and summary rows have a value under every
    field of the block, [calculateWidths] gives one width for each field;
    the width of a column is at least the length of its field name, and every
    cell of the column, in the rows and in the summary rows, is padded to
    exactly that width.  The rows are taken with their fields because
    [calculateWidths] reads [row[field]]: see [Serializer.widenBy]. *)
Theorem aligned_cells_fill_their_columns (b : Block) :
  Forall (Spec.row_total (fields b)) (rows b ++ summaryRows b) →
  length (Serializer.calculateWidths b) = length (fields b) ∧
  ∀ row i f, row ∈ rows b ++ summaryRows b → fields b !! i = Some f →
    ∃ w, Serializer.calculateWidths b !! i = Some w ∧ Js.length f ≤ w ∧
         Js.length (Js.padEnd w (Law.cell row f)) = w.
Proof.
  intros _. unfold Serializer.calculateWidths.
  destruct (fold_widenBy (fields b) (rows b ++ summaryRows b)
              (map Js.length (fields b))) as [Hlen Hcol].
  { by rewrite length_map. }
  split; [done|]. intros row i f Hrow Hf.
  destruct (Hcol i f (Js.length f) Hf) as (w & Hw & Hle & Hrows).
  { by rewrite list_lookup_fmap, Hf. }
  exists w. split; [done|]. split; [done|].
  specialize (Hrows row Hrow). unfold Js.padEnd, Js.length in *.
  rewrite length_append, length_spaces. lia.
Qed.

Lemma aligned_cells_fill_their_columns_witness :
  length (Serializer.calculateWidths Sample.users) = length (fields Sample.users) ∧
  ∀ row i f, row ∈ rows Sample.users ++ summaryRows Sample.users →
    fields Sample.users !! i = Some f →
    ∃ w, Serializer.calculateWidths Sample.users !! i = Some w ∧
         Js.length f ≤ w ∧ Js.length (Js.padEnd w (Law.cell row f)) = w.
Proof.
  apply (aligned_cells_fill_their_columns Sample.users).
  unfold Sample.users. cbn [rows summaryRows fields app].
  repeat constructor; intros f Hf;
    rewrite !elem_of_cons, elem_of_nil in Hf;
    destruct Hf as [->|[->|[->|[->|[]]]]]; vm_compute; eauto.
Defined.

End Widths.

(* ===================================================================== *)
(** ** Comments, errors of values, line breaks, blank space              *)
(* ===================================================================== *)

Section Comments.

Lemma findCommentStart_append line comment : ∀ prev inQuote,
  Parser.findCommentStart_from prev inQuote line = None →
  Law.inQuoteAfter prev inQuote line = false →
  Parser.findCommentStart_from prev inQuote (line +:+ String Js.HASH comment) =
  Some (String.length line).
Proof.
  induction line as [|c line IH]; intros prev inQuote Hnone Hq.
  - simpl in Hq. subst inQuote. rewrite append_empty_l.
    cbn [Parser.findCommentStart_from]. reflexivity.
  - rewrite append_cons. cbn [Parser.findCommentStart_from Law.inQuoteAfter] in *.
    destruct (Ascii.eqb c Js.DQUOTE && _).
    + destruct (Parser.findCommentStart_from (Some c) (negb inQuote) line) eqn:E;
        [done|]. by rewrite (IH _ _ E Hq).
    + destruct (Ascii.eqb c Js.HASH && negb inQuote); [done|].
      destruct (Parser.findCommentStart_from (Some c) inQuote line) eqn:E;
        [done|]. by rewrite (IH _ _ E Hq).
Qed.

(** X4. When [findCommentStart] finds no comment in a line and has its
    [inQuote] flag off at the end of it ([Law.inQuoteAfter]), a [#] put after
    the line, with any text after it, changes nothing for [tokenizeLine]: it
    gives for the longer line what it gives for the line alone, the same
    tokens or the same error. *)
Theorem inline_comment_is_ignored (line comment : string) :
  Parser.findCommentStart line = None →
  Law.inQuoteAfter None false line = false →
  Parser.tokenizeLine (line +:+ String Js.HASH comment) =
  Parser.tokenizeLine line.
Proof.
  intros Hnone Hq. unfold Parser.tokenizeLine, Parser.stripComment.
  unfold Parser.findCommentStart in *.
  by rewrite findCommentStart_append, Hnone, substringTo_append.
Qed.

Lemma inline_comment_is_ignored_witness :
  Parser.tokenizeLine (Sample.commented_line +:+ String Js.HASH " note") =
  Parser.tokenizeLine Sample.commented_line.
Proof. apply inline_comment_is_ignored; vm_compute; reflexivity. Defined.

End Comments.

Section ValueErrors.

(** X5. [parseValue] throws for one kind of token only: a token that starts
    with a colon and has two colons or more after it.  The error is
    [InvalidReference] with the token. *)
Theorem parseValue_throws_iff (token : string) :
  (∀ e, Parser.parseValue token = Throw e → e = InvalidReference token) ∧
  (Parser.parseValue token = Throw (InvalidReference token) ↔
   Js.startsWith ":" token = true ∧
   2 ≤ Spec.count Js.COLON (Js.substringFrom 1 token)).
Proof.
  unfold Parser.parseValue, Parser.parseReference.
  pose proof (length_split Js.COLON (Js.substringFrom 1 token)) as Hlen.
  destruct (String.eqb token "null" || String.eqb token "~") eqn:E1.
  { split; [done|]. split; [done|]. intros [Hs _].
    apply orb_true_iff in E1 as [E|E]; apply String.eqb_eq in E; by subst. }
  destruct (String.eqb token "true") eqn:E2.
  { split; [done|]. split; [done|]. intros [Hs _].
    apply String.eqb_eq in E2. by subst. }
  destruct (String.eqb token "false") eqn:E3.
  { split; [done|]. split; [done|]. intros [Hs _].
    apply String.eqb_eq in E3. by subst. }
  destruct (Js.startsWith ":" token).
  - destruct (Js.split Js.COLON (Js.substringFrom 1 token)) as [|a [|b [|c l]]];
      simpl in Hlen; simpl.
    + lia.
    + split; [done|]. split; [done|]. intros [_ H]. lia.
    + split; [done|]. split; [done|]. intros [_ H]. lia.
    + split; [by intros e [= <-]|]. split; [|done]. intros _. split; [done|lia].
  - destruct (Re.isInteger token), (Re.isDecimal token);
      (split; [done|]); (split; [done|by intros [? _]]).
Qed.

End ValueErrors.

Section OneLine.

Lemma escape_no_break s :
  Re.all (λ c, negb (Ascii.eqb c Js.LF) && negb (Ascii.eqb c Js.TAB) &&
               negb (Ascii.eqb c Js.CR)) (Serializer.escape s) = true.
Proof.
  induction s as [|c s IH]; [done|]. rewrite escape_cons, all_append, IH, andb_true_r.
  clear. destruct c as [[|] [|] [|] [|] [|] [|] [|] [|]]; vm_compute; reflexivity.
Qed.

(** X7. Whatever the string, the text that [serializeString] returns for it
    holds no newline character and no tab character. *)
Theorem serialized_string_stays_on_its_line (s : string) :
  Js.includes Js.LF (Serializer.serializeString s) = false ∧
  Js.includes Js.TAB (Serializer.serializeString s) = false.
Proof.
  unfold Serializer.serializeString.
  destruct (Serializer.needsQuotes s) eqn:Hq; cbn [negb].
  - pose proof (escape_no_break s) as H. unfold Serializer.quoted.
    split; cbn [Js.includes]; rewrite includes_append; cbn [Js.str Js.includes].
    + rewrite (all_excludes _ Js.LF _ eq_refl H). done.
    + rewrite (all_excludes _ Js.TAB _ eq_refl H). done.
  - unfold Serializer.needsQuotes in Hq. rewrite !orb_false_iff in Hq.
    by destruct Hq as (((((((((_ & H1) & H2) & _) & _) & _) & _) & _) & _) & _).
Qed.

End OneLine.

Section Skipping.

Lemma skipEmptyLines_eq text :
  Parser.skipEmptyLines text = Parser.skipWhitespaceAndComments text ∧
  Parser.skipEmptyComment text = Parser.skipComment text.
Proof.
  induction text as [|c r [IH1 IH2]]; [done|].
  cbn [Parser.skipEmptyLines Parser.skipEmptyComment
       Parser.skipWhitespaceAndComments Parser.skipComment].
  rewrite IH1, IH2. split; [|done]. unfold Parser.isBlank.
  destruct (Ascii.eqb c Js.SPACE), (Ascii.eqb c Js.TAB), (Ascii.eqb c Js.CR),
    (Ascii.eqb c Js.LF); done.
Qed.

Lemma skip_shape text :
  (∃ skipped, text = skipped +:+ Parser.skipWhitespaceAndComments text) ∧
  (∃ skipped, text = skipped +:+ Parser.skipComment text) ∧
  match Parser.skipWhitespaceAndComments text with
  | "" => True
  | String c _ => Parser.isBlank c = false ∧ Ascii.eqb c Js.HASH = false
  end ∧
  match Parser.skipComment text with
  | "" => True
  | String c _ => Parser.isBlank c = false ∧ Ascii.eqb c Js.HASH = false
  end.
Proof.
  induction text as [|c r ([s1 IH1] & [s2 IH2] & IH3 & IH4)].
  { repeat split; by exists "". }
  cbn [Parser.skipWhitespaceAndComments Parser.skipComment].
  split; [|split; [|split]].
  - destruct (Parser.isBlank c); [exists (String c s1); by rewrite append_cons, <- IH1|].
    destruct (Ascii.eqb c Js.HASH); [exists (String c s2); by rewrite append_cons, <- IH2|].
    by exists "".
  - destruct (Ascii.eqb c Js.LF); [exists (String c s1); by rewrite append_cons, <- IH1|].
    exists (String c s2). by rewrite append_cons, <- IH2.
  - destruct (Parser.isBlank c) eqn:Hb; [done|].
    destruct (Ascii.eqb c Js.HASH) eqn:Hh; done.
  - destruct (Ascii.eqb c Js.LF); done.
Qed.

(** X6. The two scans over blank space and comment lines, [skipEmptyLines]
    after a header and [skipWhitespaceAndComments] between blocks, are the
    same function; what they leave is an end of the text, and it is empty
    or starts with a character that is not a space, a tab, a return, a
    newline or [#]. *)
Theorem skipping_stops_at_content (text : string) :
  Parser.skipEmptyLines text = Parser.skipWhitespaceAndComments text ∧
  (∃ skipped, text = skipped +:+ Parser.skipWhitespaceAndComments text) ∧
  match Parser.skipWhitespaceAndComments text with
  | "" => True
  | String c _ => Parser.isBlank c = false ∧ c ≠ Js.HASH
  end.
Proof.
  split; [apply skipEmptyLines_eq|]. destruct (skip_shape text) as (H1 & _ & H2 & _).
  split; [done|]. destruct (Parser.skipWhitespaceAndComments text) as [|c r]; [done|].
  destruct H2 as [Hb Hh]. split; [done|]. intros ->. done.
Qed.

End Skipping.

(* ===================================================================== *)
(** ** The cells of an ISONL line                                         *)
(* ===================================================================== *)

Section IsonlCells.

Lemma isonl_escape_cons c s :
  ISONLSerializer.escape (String c s) =
  Law.isonl_escape1 c +:+ ISONLSerializer.escape s.
Proof.
  unfold ISONLSerializer.escape, Law.isonl_escape1. cbv zeta.
  change (String c s) with (Js.str c +:+ s).
  rewrite !replaceAll_append. f_equal.
  destruct c as [[|] [|] [|] [|] [|] [|] [|] [|]]; vm_compute; reflexivity.
Qed.

(** [Parser] reads back what [ISONLSerializer] escapes. *)
Lemma parseQuotedString_isonl_escape s : ∀ acc rest,
  Parser.parseQuotedString_from acc
    (ISONLSerializer.escape s +:+ String Js.DQUOTE rest) =
  Ok (acc +:+ s, rest).
Proof.
  induction s as [|c s IH]; intros acc rest.
  - simpl. by rewrite append_empty_r.
  - rewrite isonl_escape_cons, append_assoc.
    replace (acc +:+ String c s) with ((acc +:+ Js.str c) +:+ s)
      by (by rewrite append_assoc).
    rewrite <- IH. unfold Law.isonl_escape1.
    destruct c as [[|] [|] [|] [|] [|] [|] [|] [|]]; reflexivity.
Qed.

Lemma reads_isonl_quoted s :
  Law.reads (String Js.DQUOTE (ISONLSerializer.escape s +:+ Js.str Js.DQUOTE)) s.
Proof.
  intros rest fuel Hrest Hlen.
  rewrite append_cons, append_assoc in *. unfold Js.str in *.
  rewrite append_cons, append_empty_l in *. simpl in Hlen.
  destruct fuel as [|fuel]; [lia|].
  rewrite (tokenize_step _ _ Js.DQUOTE
             (ISONLSerializer.escape s +:+ String Js.DQUOTE rest)) by reflexivity.
  rewrite Ascii.eqb_refl. unfold Parser.parseQuotedString.
  rewrite parseQuotedString_isonl_escape, append_empty_l.
  cbn [mbind result_bind]. unfold result_bind.
  rewrite length_append in Hlen. simpl in Hlen.
  rewrite (tokenize_fuel fuel (S fuel) rest) by lia. done.
Qed.

Lemma isonl_escape_partChar s :
  Js.includes Js.PIPE s = false →
  Re.all Law.partChar (ISONLSerializer.escape s) = true.
Proof.
  induction s as [|c s IH]; [done|]. simpl. rewrite orb_false_iff.
  intros [Hc Hs]. rewrite isonl_escape_cons, all_append, (IH Hs), andb_true_r.
  revert Hc. clear.
  destruct c as [[|] [|] [|] [|] [|] [|] [|] [|]]; vm_compute; congruence.
Qed.

Lemma isonlChar_spec c :
  Law.isonlChar c = true →
  Js.isWhiteSpace c = false ∧ Parser.isSpaceOrTab c = false ∧
  Ascii.eqb c Js.DQUOTE = false ∧ Law.partChar c = true.
Proof.
  unfold Law.isonlChar, Law.partChar.
  rewrite !andb_true_iff, !negb_true_iff.
  intros [[Hw ->] ->]. split; [done|].
  unfold Parser.isSpaceOrTab.
  destruct (Ascii.eqb_spec c Js.SPACE) as [->|]; [done|].
  destruct (Ascii.eqb_spec c Js.TAB) as [->|]; [done|].
  destruct (Ascii.eqb_spec c Js.LF) as [->|]; done.
Qed.

Lemma takeUnquoted_token s : ∀ rest,
  Re.all Law.isonlChar s = true → Law.boundary rest →
  Parser.takeUnquoted (s +:+ rest) = (s, rest).
Proof.
  induction s as [|c s IH]; intros rest Hs Hrest.
  - rewrite append_empty_l. destruct rest as [|d r]; [done|].
    simpl in Hrest. subst d. reflexivity.
  - simpl in Hs. apply andb_true_iff in Hs as [Hc Hs].
    apply isonlChar_spec in Hc as (_ & Hc & _).
    rewrite append_cons. cbn [Parser.takeUnquoted]. rewrite Hc.
    by rewrite IH.
Qed.

Lemma reads_token c : Law.isonl_token c = true → Law.reads c c.
Proof.
  unfold Law.isonl_token. rewrite andb_true_iff, negb_true_iff.
  intros [Hne Hall] rest fuel Hrest Hlen.
  destruct c as [|a s]; [done|].
  pose proof Hall as Hall'. simpl in Hall'.
  apply andb_true_iff in Hall' as [Ha _].
  apply isonlChar_spec in Ha as (_ & Ha & Hq & _).
  rewrite append_cons in *. simpl in Hlen.
  destruct fuel as [|fuel]; [lia|].
  rewrite (tokenize_step _ _ a (s +:+ rest)).
  2: { cbn [Parser.skipSpaces]. by rewrite Ha. }
  rewrite Hq. rewrite <- append_cons, takeUnquoted_token by done.
  cbn [mbind result_bind]. unfold result_bind.
  rewrite length_append in Hlen.
  rewrite (tokenize_fuel fuel (S fuel) rest) by lia. done.
Qed.

Lemma all_and (p q : ascii → bool) s :
  Re.all (λ c, p c && q c) s = Re.all p s && Re.all q s.
Proof.
  induction s as [|c s IH]; [done|]. simpl. rewrite IH.
  destruct (p c), (q c), (Re.all p s); done.
Qed.

(** A clean value is written by [ISONLSerializer] as a cell without newline
    or [|], that has no white space at its ends, and off which the
    tokenizer reads a token that [parseValue] turns into the value. *)
Lemma isonl_cell (v : Value) :
  Law.isonl_clean v = true →
  let c := ISONLSerializer.serializeValue (Some v) in
  (∃ token, Law.reads c token ∧ Parser.parseValue token = Ok v) ∧
  Re.all Law.partChar c = true ∧ Law.tight c = true.
Proof.
  assert (Hother : ∀ v',
    ISONLSerializer.serializeValue (Some v') = Serializer.serializeValue (Some v') →
    Law.clean v' &&
      negb (Js.includes Js.PIPE (ISONLSerializer.serializeValue (Some v'))) = true →
    (∃ token, Law.reads (ISONLSerializer.serializeValue (Some v')) token ∧
              Parser.parseValue token = Ok v') ∧
    Re.all Law.partChar (ISONLSerializer.serializeValue (Some v')) = true ∧
    Law.tight (ISONLSerializer.serializeValue (Some v')) = true).
  { intros v' Hsame. rewrite andb_true_iff, negb_true_iff. intros [Hc Hp].
    rewrite Hsame in *. destruct (clean_cell v' Hc) as (Hr & Hl & Ht).
    split; [done|]. split; [|done].
    unfold Law.partChar. rewrite all_and. apply andb_true_iff. split.
    - eapply all_impl; [|exact Hl]. intros c. unfold Law.lineChar.
      rewrite andb_true_iff. by intros [-> _].
    - by apply excludes_all. }
  intros Hclean. cbv zeta. destruct v as [|b|n|s|r]; try (by apply Hother).
  cbn [Law.isonl_clean] in Hclean. rewrite !andb_true_iff, negb_true_iff in Hclean.
  destruct Hclean as [[Hs Hp] Hq]. apply readsAsString_spec in Hs.
  cbn [ISONLSerializer.serializeValue].
  destruct (ISONLSerializer.needsQuotes s).
  - split; [|split].
    + exists s. split; [apply reads_isonl_quoted|done].
    + cbn [Re.all]. rewrite all_append. by rewrite isonl_escape_partChar.
    + unfold Law.tight. cbn [Law.startsTight].
      change (String Js.DQUOTE (ISONLSerializer.escape s +:+ Js.str Js.DQUOTE))
        with (String Js.DQUOTE (ISONLSerializer.escape s) +:+ Js.str Js.DQUOTE).
      by rewrite endsTight_append.
  - simpl in Hq. split; [|split].
    + exists s. split; [by apply reads_token|done].
    + unfold Law.isonl_token in Hq. apply andb_true_iff in Hq as [_ Hq].
      eapply all_impl; [|exact Hq]. intros c Hc.
      by apply isonlChar_spec in Hc as (_ & _ & _ & ?).
    + unfold Law.isonl_token in Hq. apply andb_true_iff in Hq as [Hne Hq].
      apply negb_true_iff in Hne. unfold Law.tight. apply andb_true_iff.
      assert (Hws : Re.all (λ c, negb (Js.isWhiteSpace c)) s = true).
      { eapply all_impl; [|exact Hq]. intros c Hc.
        apply isonlChar_spec in Hc as [-> _]. done. }
      split.
      * destruct s as [|c s]; [done|]. simpl in Hws.
        apply andb_true_iff in Hws as [Hc _]. exact Hc.
      * apply endsTight_all; [by destruct s|done].
Qed.

End IsonlCells.

(* ===================================================================== *)
(** ** A clean document is read back from ISONL                           *)
(* ===================================================================== *)

Section IsonlLines.

Lemma splitWhiteSpace_go_word d : ∀ inRun,
  d ≠ "" → Re.all (λ c, negb (Js.isWhiteSpace c)) d = true →
  Js.splitWhiteSpace_go inRun d = [d].
Proof.
  induction d as [|c r IH]; intros inRun Hne Hall; [done|].
  simpl in Hall. apply andb_true_iff in Hall as [Hc Hr].
  apply negb_true_iff in Hc. cbn [Js.splitWhiteSpace_go]. rewrite Hc.
  destruct r as [|c' r']; [done|]. by rewrite IH.
Qed.

Lemma splitWhiteSpace_go_word_space d rest : ∀ inRun,
  d ≠ "" → Re.all (λ c, negb (Js.isWhiteSpace c)) d = true →
  Js.splitWhiteSpace_go inRun (d +:+ String Js.SPACE rest) =
  d :: Js.splitWhiteSpace_go true rest.
Proof.
  induction d as [|c r IH]; intros inRun Hne Hall; [done|].
  simpl in Hall. apply andb_true_iff in Hall as [Hc Hr].
  apply negb_true_iff in Hc. rewrite append_cons.
  cbn [Js.splitWhiteSpace_go]. rewrite Hc.
  destruct r as [|c' r']; [by rewrite append_empty_l|]. by rewrite IH.
Qed.

(** Words without white space, joined by one space, are split again at the
    spaces. *)
Lemma splitWhiteSpace_join defs :
  defs ≠ [] →
  Forall (λ d, d ≠ "" ∧ Re.all (λ c, negb (Js.isWhiteSpace c)) d = true) defs →
  ∀ inRun, Js.splitWhiteSpace_go inRun (Js.join " " defs) = defs.
Proof.
  intros Hne Hall. induction Hall as [|d ds [Hd1 Hd2] _ IH]; [done|].
  intros inRun. destruct ds as [|d' ds].
  - by apply splitWhiteSpace_go_word.
  - rewrite join_cons.
    change (" " +:+ Js.join " " (d' :: ds)) with (String Js.SPACE (Js.join " " (d' :: ds))).
    rewrite splitWhiteSpace_go_word_space by done. by rewrite IH.
Qed.

Lemma split_join c lines :
  lines ≠ [] → Forall (λ l, Js.includes c l = false) lines →
  Js.split c (Js.join (Js.str c) lines) = lines.
Proof.
  intros Hne Hall. induction Hall as [|l ls Hl _ IH]; [done|].
  destruct ls as [|l' ls].
  - by apply split_none.
  - rewrite join_cons.
    change (Js.str c +:+ Js.join (Js.str c) (l' :: ls))
      with (String c (Js.join (Js.str c) (l' :: ls))).
    rewrite split_first by done. by rewrite IH.
Qed.

Lemma bare_words d :
  Law.bare d = true →
  d ≠ "" ∧ Re.all (λ c, negb (Js.isWhiteSpace c)) d = true.
Proof.
  unfold Law.bare. rewrite andb_true_iff, negb_true_iff. intros [Hne Hall].
  split; [by destruct d|]. eapply all_impl; [|exact Hall].
  intros c Hc. by apply bareChar_spec in Hc as [-> _].
Qed.

Lemma addFields_clean knd nm infos :
  Forall (λ fi, Law.clean_field fi = true) infos →
  fold_left Parser.addField (map Serializer.fieldDef infos) (newBlock knd nm) =
  mkBlock knd nm [] (map fi_name infos) infos [].
Proof.
  intros Hinfos.
  set (defs := map Serializer.fieldDef infos).
  set (block0 := fold_left Parser.addField defs (newBlock knd nm)).
  destruct (addFields_rows defs (newBlock knd nm)) as (R1 & R2 & R3 & R4).
  destruct (addFields_fields defs (newBlock knd nm)) as (F1 & F2).
  fold block0 in R1, R2, R3, R4, F1, F2. simpl in R1, R2, R3, R4, F1, F2.
  assert (G1 : map Law.fieldName defs = map fi_name infos).
  { subst defs. rewrite map_map. apply map_ext_Forall.
    eapply Forall_impl; [exact Hinfos|]. intros fi Hfi'.
    by apply fieldDef_clean in Hfi' as (_ & ? & _). }
  assert (G2 : map Law.fieldInfoOf defs = infos).
  { subst defs. rewrite map_map. rewrite <- (map_id infos) at 2.
    apply map_ext_Forall.
    eapply Forall_impl; [exact Hinfos|]. intros fi Hfi'.
    by apply fieldDef_clean in Hfi' as (_ & _ & ?). }
  rewrite (block_eta block0), R1, R2, R3, R4, F1, F2, G1, G2. done.
Qed.

Lemma isonl_clean_row_cells fields row :
  Law.isonl_clean_row fields row = true →
  dom row =@{gset string} list_to_set fields ∧
  Forall (λ f, ∃ v, row !! f = Some v ∧ Law.isonl_clean v = true) fields.
Proof.
  unfold Law.isonl_clean_row. rewrite !andb_true_iff.
  intros [Hdom Hall]. apply bool_decide_eq_true in Hdom.
  split; [done|]. apply Forall_forall. intros f Hf.
  rewrite forallb_forall in Hall. apply list_elem_of_In in Hf.
  specialize (Hall f Hf). destruct (row !! f) as [v|]; [eauto|]. discriminate Hall.
Qed.

(** The values part of the line of a clean row gives the row back. *)
Lemma isonl_values fields row :
  fields ≠ [] → "__proto__" ∉ fields → Law.isonl_clean_row fields row = true →
  let vals :=
    Js.join " " (map (λ f, ISONLSerializer.serializeValue (row !! f)) fields) in
  (∃ tokens, ISONLParser.tokenizeValues vals = Ok tokens ∧
             ISONLParser.fillRow ∅ fields tokens = row) ∧
  Re.all Law.partChar vals = true ∧ Law.endsTight vals = true.
Proof.
  intros Hne Hproto Hclean. cbv zeta.
  apply isonl_clean_row_cells in Hclean as [Hdom Hall].
  set (cell_ := λ f, ISONLSerializer.serializeValue (row !! f)).
  rewrite join_plain.
  set (cps := zip (map cell_ fields) (repeat 0 (length (map cell_ fields)))).
  assert (Hcells : Forall (λ cp : string * nat,
            Re.all Law.partChar cp.1 = true ∧ Law.tight cp.1 = true) cps).
  { subst cps. clear Hdom Hne Hproto.
    induction Hall as [|f fs (v & Hv & Hc) _ IH]; [constructor|].
    cbn [map length repeat zip zip_with]. constructor; [|done].
    cbn [fst]. unfold cell_. rewrite Hv.
    by destruct (isonl_cell v Hc) as (_ & ? & ?). }
  assert (Hcps : cps ≠ []) by (subst cps; by destruct fields).
  destruct (Forall_exists_Forall2
    (λ f t, Law.reads (cell_ f) t ∧
            ∃ v, row !! f = Some v ∧ Parser.parseValue t = Ok v) fields)
    as [tokens Htokens].
  { eapply Forall_impl; [exact Hall|]. intros f (v & Hv & Hc).
    destruct (isonl_cell v Hc) as ((token & Hrd & Hp) & _).
    exists token. unfold cell_. rewrite Hv. eauto. }
  split; [|split].
  - exists tokens. split.
    + unfold ISONLParser.tokenizeValues. apply isonl_tokenize_agrees.
      apply tokenize_line_of; [|done]. subst cps. clear -Htokens.
      induction Htokens as [|f t fs ts [Hrd _] _ IH]; [constructor|].
      cbn [map length repeat zip zip_with]. by constructor.
    + destruct (fillRow_values row fields tokens ∅) as (r0 & Hr0 & Hlookup).
      { eapply Forall2_impl; [exact Htokens|]. by intros f t [_ H]. }
      { done. }
      apply isonl_fillRow_agrees in Hr0. rewrite Hr0.
      apply map_eq. intros g. rewrite Hlookup.
      destruct (decide (g ∈ fields)) as [Hin|Hout]; [done|].
      rewrite lookup_empty. symmetry. apply not_elem_of_dom.
      rewrite Hdom. by rewrite elem_of_list_to_set.
  - apply all_line_of; [done|]. eapply Forall_impl; [exact Hcells|].
    by intros cp [? _].
  - assert (Ht : Law.tight (Law.line_of cps) = true).
    { apply tight_line_of; [done|]. eapply Forall_impl; [exact Hcells|].
      by intros cp [_ ?]. }
    unfold Law.tight in Ht. by apply andb_true_iff in Ht as [_ ?].
Qed.

Lemma isonl_clean_block_spec b :
  Law.isonl_clean_block b = true →
  Law.startsTight (kind b) = true ∧
  Js.includes Js.LF (kind b) = false ∧ Js.includes Js.PIPE (kind b) = false ∧
  Js.includes Js.DOT (kind b) = false ∧ Js.startsWith "#" (kind b) = false ∧
  Js.includes Js.LF (name b) = false ∧ Js.includes Js.PIPE (name b) = false ∧
  fields b ≠ [] ∧ fields b = map fi_name (fieldInfo b) ∧
  Forall (λ fi, Law.clean_field fi = true ∧
                Js.includes Js.PIPE (Serializer.fieldDef fi) = false)
    (fieldInfo b) ∧
  rows b ≠ [] ∧ summaryRows b = [] ∧
  Forall (λ r, Law.isonl_clean_row (fields b) r = true) (rows b).
Proof.
  unfold Law.isonl_clean_block. rewrite !andb_true_iff, !negb_true_iff.
  rewrite !forallb_forall, !bool_decide_eq_false, !bool_decide_eq_true.
  intros [[[[[[[[[[[[H1 H2] H3] H4] H5] H6] H7] H8] H9] H10] H11] H12] H13].
  repeat split; try done; apply Forall_forall; intros x Hx;
    apply list_elem_of_In in Hx.
  - specialize (H10 x Hx). rewrite andb_true_iff, negb_true_iff in H10. done.
  - auto.
Qed.

(** What [parseLine] does with the line of a clean row: it finds or makes
    the block of the key and pushes the row. *)
Lemma parseLine_clean st b row :
  Law.isonl_clean_block b = true →
  Law.isonl_clean_row (fields b) row = true →
  ∃ tokens,
    ISONLParser.fillRow ∅ (fields b) tokens = row ∧
    ISONLParser.parseLine st (Law.isonl_line b row) =
    let '(st1, index) :=
      match ISONLParser.st_blockMap st !! Law.key b with
      | Some index => (st, index)
      | None =>
          (ISONLParser.mkState
             (ISONLParser.st_blocks st ++
                [mkBlock (kind b) (name b) [] (fields b) (fieldInfo b) []])
             (<[Law.key b := length (ISONLParser.st_blocks st)]>
                (ISONLParser.st_blockMap st)),
           length (ISONLParser.st_blocks st))
      end in
    Ok (ISONLParser.mkState
          (alter (λ block,
             Parser.pushRow block
               (ISONLParser.fillRow ∅ (fields block) tokens))
             index (ISONLParser.st_blocks st1))
          (ISONLParser.st_blockMap st1)).
Proof.
  intros Hb Hrow.
  apply isonl_clean_block_spec in Hb
    as (Hk & Hkl & Hkp & Hkd & Hkh & Hnl & Hnp & Hfs & Hfi & Hinfos & _).
  assert (Hproto : "__proto__" ∉ fields b).
  { rewrite Hfi. apply clean_fields_proto. eapply Forall_impl; [exact Hinfos|].
    by intros fi [? _]. }
  destruct (isonl_values (fields b) row Hfs Hproto Hrow)
    as ((tokens & Htok & Hfill) & Hvp & Hve).
  exists tokens. split; [done|].
  set (vals := Js.join " "
         (map (λ f, ISONLSerializer.serializeValue (row !! f)) (fields b))) in *.
  set (defs := map Serializer.fieldDef (fieldInfo b)).
  assert (Hdefs : Forall (λ d, Law.bare d = true) defs).
  { subst defs. apply Forall_fmap. eapply Forall_impl; [exact Hinfos|].
    intros fi [Hc _]. by apply fieldDef_clean in Hc as [? _]. }
  assert (Hdne : defs ≠ []).
  { subst defs. rewrite Hfi in Hfs. by destruct (fieldInfo b). }
  destruct (fieldsLine_clean defs Hdne Hdefs) as (Hfl & Hft & _ & _).
  assert (Hfp : Js.includes Js.PIPE (Js.join " " defs) = false).
  { rewrite join_plain. apply (all_excludes (λ c, negb (Ascii.eqb c Js.PIPE))); [done|].
    apply all_line_of; [done|]. subst defs. clear -Hinfos.
    induction Hinfos as [|fi fis [_ Hp] _ IH]; [constructor|].
    cbn [map length repeat zip zip_with]. constructor; [|done].
    by apply excludes_all. }
  set (header := kind b +:+ "." +:+ name b).
  assert (Hline : Law.isonl_line b row =
            header +:+ String Js.PIPE (Js.join " " defs +:+ String Js.PIPE vals)).
  { reflexivity. }
  assert (Hhp : Js.includes Js.PIPE header = false).
  { subst header. by rewrite !includes_append, Hkp, Hnp. }
  assert (Htight : Law.tight (Law.isonl_line b row) = true).
  { rewrite Hline. apply tight_append.
    - subst header. destruct (kind b); [done|]. by rewrite append_cons.
    - change (String Js.PIPE (Js.join " " defs +:+ String Js.PIPE vals))
        with (String Js.PIPE (Js.join " " defs) +:+ String Js.PIPE vals).
      rewrite endsTight_append by done. by destruct vals. }
  unfold ISONLParser.parseLine. cbv zeta. rewrite (trim_tight _ Htight).
  assert (Hc1 : Js.isEmpty (Law.isonl_line b row) ||
                Js.startsWith "#" (Law.isonl_line b row) = false).
  { rewrite Hline. subst header. destruct (kind b) as [|c s]; [done|].
    rewrite !append_cons. simpl in *. done. }
  rewrite Hc1, Hline.
  rewrite split_first by done. rewrite split_first by done.
  rewrite split_none.
  2: { apply (all_excludes Law.partChar); [done|exact Hvp]. }
  subst header. change ("." +:+ name b) with (String Js.DOT (name b)).
  rewrite indexOf_first by done.
  rewrite substringTo_append, substringFrom_append.
  change (kind b +:+ "." +:+ name b) with (Law.key b).
  fold vals. rewrite Htok. cbn [mbind result_bind]. unfold result_bind.
  rewrite (trim_tight _ Hft). unfold Js.splitWhiteSpace.
  rewrite splitWhiteSpace_join.
  2: done.
  2: { eapply Forall_impl; [exact Hdefs|]. apply bare_words. }
  subst defs. rewrite addFields_clean.
  2: { eapply Forall_impl; [exact Hinfos|]. by intros fi [? _]. }
  rewrite <- Hfi. reflexivity.
Qed.

End IsonlLines.

Section IsonlDocuments.

Lemma parseLine_new st b row :
  Law.isonl_clean_block b = true →
  Law.isonl_clean_row (fields b) row = true →
  ISONLParser.st_blockMap st !! Law.key b = None →
  ISONLParser.parseLine st (Law.isonl_line b row) =
  Ok (ISONLParser.mkState
        (ISONLParser.st_blocks st ++
           [Parser.pushRow
              (mkBlock (kind b) (name b) [] (fields b) (fieldInfo b) []) row])
        (<[Law.key b := length (ISONLParser.st_blocks st)]>
           (ISONLParser.st_blockMap st))).
Proof.
  intros Hb Hrow Hkey.
  destruct (parseLine_clean st b row Hb Hrow) as (tokens & Hfill & ->).
  rewrite Hkey. cbn [ISONLParser.st_blocks ISONLParser.st_blockMap].
  replace (length (ISONLParser.st_blocks st))
    with (length (ISONLParser.st_blocks st) + 0) at 1 by lia.
  rewrite alter_app_r. cbn [alter list_alter fields]. by rewrite Hfill.
Qed.

Lemma parseLine_old b row prev cur m :
  Law.isonl_clean_block b = true →
  Law.isonl_clean_row (fields b) row = true →
  m !! Law.key b = Some (length prev) → fields cur = fields b →
  ISONLParser.parseLine (ISONLParser.mkState (prev ++ [cur]) m)
    (Law.isonl_line b row) =
  Ok (ISONLParser.mkState (prev ++ [Parser.pushRow cur row]) m).
Proof.
  intros Hb Hrow Hkey Hcur.
  destruct (parseLine_clean (ISONLParser.mkState (prev ++ [cur]) m) b row Hb Hrow)
    as (tokens & Hfill & ->).
  cbn [ISONLParser.st_blocks ISONLParser.st_blockMap]. rewrite Hkey.
  cbn [ISONLParser.st_blocks ISONLParser.st_blockMap].
  replace (length prev) with (length prev + 0) at 1 by lia.
  rewrite alter_app_r. cbn [alter list_alter]. by rewrite Hcur, Hfill.
Qed.

Lemma fold_pushRow rs : ∀ cur,
  fold_left Parser.pushRow rs cur =
  mkBlock (kind cur) (name cur) (rows cur ++ rs) (fields cur) (fieldInfo cur)
    (summaryRows cur).
Proof.
  induction rs as [|r rs IH]; intros cur.
  - rewrite app_nil_r. apply block_eta.
  - cbn [fold_left]. rewrite IH. cbn [Parser.pushRow kind name rows fields
      fieldInfo summaryRows]. by rewrite <- app_assoc.
Qed.

(** The lines of the further rows of a block push these rows to it. *)
Lemma parseLines_rows b prev m rs : ∀ cur rest,
  Law.isonl_clean_block b = true →
  Forall (λ r, Law.isonl_clean_row (fields b) r = true) rs →
  m !! Law.key b = Some (length prev) → fields cur = fields b →
  ISONLParser.parseLines (ISONLParser.mkState (prev ++ [cur]) m)
    (map (Law.isonl_line b) rs ++ rest) =
  ISONLParser.parseLines
    (ISONLParser.mkState (prev ++ [fold_left Parser.pushRow rs cur]) m) rest.
Proof.
  induction rs as [|r rs IH]; intros cur rest Hb Hrs Hkey Hcur; [done|].
  inversion Hrs as [|? ? Hr Hrs']; subst.
  cbn [map app ISONLParser.parseLines].
  rewrite (parseLine_old b r prev cur m) by done.
  cbn [mbind result_bind]. try unfold result_bind at 1.
  rewrite IH by done. done.
Qed.

Lemma isonl_line_no_LF b row :
  Law.isonl_clean_block b = true →
  Law.isonl_clean_row (fields b) row = true →
  Js.includes Js.LF (Law.isonl_line b row) = false.
Proof.
  intros Hb Hrow.
  apply isonl_clean_block_spec in Hb
    as (Hk & Hkl & Hkp & Hkd & Hkh & Hnl & Hnp & Hfs & Hfi & Hinfos & _).
  assert (Hproto : "__proto__" ∉ fields b).
  { rewrite Hfi. apply clean_fields_proto. eapply Forall_impl; [exact Hinfos|].
    by intros fi [? _]. }
  destruct (isonl_values (fields b) row Hfs Hproto Hrow) as (_ & Hvp & _).
  assert (Hdefs : Forall (λ d, Law.bare d = true)
            (map Serializer.fieldDef (fieldInfo b))).
  { apply Forall_fmap. eapply Forall_impl; [exact Hinfos|].
    intros fi [Hc _]. by apply fieldDef_clean in Hc as [? _]. }
  destruct (fieldsLine_clean (map Serializer.fieldDef (fieldInfo b)))
    as (Hfl & _); [|done|].
  { rewrite Hfi in Hfs. by destruct (fieldInfo b). }
  unfold Law.isonl_line. rewrite !includes_append, Hkl, Hnl, Hfl.
  rewrite (all_excludes Law.partChar Js.LF _ eq_refl Hvp). done.
Qed.

Lemma parseLines_doc bs : ∀ prev m,
  Forall (λ b, Law.isonl_clean_block b = true) bs →
  NoDup (map Law.key (prev ++ bs)) →
  dom m =@{gset string} list_to_set (map Law.key prev) →
  ∃ m', ISONLParser.parseLines (ISONLParser.mkState prev m)
          (concat (map ISONLSerializer.blockLines bs)) =
        Ok (ISONLParser.mkState (prev ++ bs) m').
Proof.
  induction bs as [|b bs IH]; intros prev m Hbs Hnodup Hdom.
  - exists m. by rewrite app_nil_r.
  - inversion Hbs as [|? ? Hb Hbs']; subst.
    pose proof (isonl_clean_block_spec b Hb)
      as (_ & _ & _ & _ & _ & _ & _ & _ & _ & _ & Hrne & Hsum & Hrows).
    cbn [map concat].
    change (ISONLSerializer.blockLines b) with (map (Law.isonl_line b) (rows b)).
    destruct (rows b) as [|r rs] eqn:Erows; [done|].
    inversion Hrows as [|? ? Hr Hrs]; subst.
    assert (Hkey : m !! Law.key b = None).
    { apply not_elem_of_dom. rewrite Hdom, elem_of_list_to_set.
      rewrite map_app in Hnodup. apply NoDup_app in Hnodup as (_ & Hdisj & _).
      intros Hin. apply (Hdisj _ Hin). cbn [map]. by left. }
    cbn [map app ISONLParser.parseLines].
    rewrite (parseLine_new (ISONLParser.mkState prev m) b r Hb Hr Hkey).
    cbn [mbind result_bind ISONLParser.st_blocks ISONLParser.st_blockMap].
    try unfold result_bind at 1.
    rewrite (parseLines_rows b prev _ rs) by (done || apply lookup_insert_eq).
    rewrite fold_pushRow. cbn [Parser.pushRow kind name rows fields fieldInfo
      summaryRows app].
    assert (Hblock : mkBlock (kind b) (name b) (r :: rs) (fields b) (fieldInfo b) []
                     = b).
    { rewrite <- Erows, <- Hsum. symmetry. apply block_eta. }
    rewrite Hblock.
    destruct (IH (prev ++ [b]) (<[Law.key b := length prev]> m)) as [m' Hm'].
    + done.
    + by rewrite <- app_assoc.
    + rewrite dom_insert_L, Hdom, map_app, list_to_set_app_L.
      cbn [map list_to_set]. rewrite (right_id_L ∅ (∪)). apply (comm_L (∪)).
    + exists m'. rewrite Hm'. by rewrite <- app_assoc.
Qed.

(** The lines that [ISONLSerializer] writes for clean blocks with distinct
    keys are read back as these blocks. *)
Lemma parse_isonl_lines bs :
  Forall (λ b, Law.isonl_clean_block b = true) bs →
  NoDup (map Law.key bs) →
  ISONLParser.parse
    (Js.join (Js.str Js.LF) (concat (map ISONLSerializer.blockLines bs))) =
  Ok (mkDocument bs).
Proof.
  intros Hall Hnodup. unfold ISONLParser.parse.
  destruct (parseLines_doc bs [] ∅ Hall Hnodup) as [m' Hm']; [done|].
  set (lines := concat (map ISONLSerializer.blockLines bs)) in *.
  destruct (decide (lines = [])) as [Hnil|Hne].
  - rewrite Hnil in *. simpl in Hm'. inversion Hm'; subst. reflexivity.
  - rewrite split_join; [by rewrite Hm'|done|].
    subst lines. clear -Hall. induction Hall as [|b bs Hb _ IH]; [constructor|].
    cbn [map concat]. apply Forall_app. split; [|done].
    change (ISONLSerializer.blockLines b) with (map (Law.isonl_line b) (rows b)).
    apply Forall_fmap.
    pose proof (isonl_clean_block_spec b Hb)
      as (_ & _ & _ & _ & _ & _ & _ & _ & _ & _ & _ & _ & Hrows).
    eapply Forall_impl; [exact Hrows|]. intros r Hr.
    by apply isonl_line_no_LF.
Qed.

Lemma isonl_clean_doc_blocks doc :
  Law.isonl_clean_doc doc = true →
  Forall (λ b, Law.isonl_clean_block b = true) (blocks doc) ∧
  NoDup (map Law.key (blocks doc)).
Proof.
  unfold Law.isonl_clean_doc. rewrite andb_true_iff, bool_decide_eq_true.
  rewrite forallb_forall. intros [Hclean Hnodup]. split; [|done].
  apply Forall_forall. intros b Hb. apply Hclean. by apply list_elem_of_In.
Qed.

(** X13. A document for which [Law.isonl_clean_doc] holds is read back as it
    is: [loadsIsonl] undoes [dumpsIsonl].  [Law.isonl_clean_doc] asks that no
    two blocks have the same kind and name, and of every block what
    [Law.isonl_clean_block] says.  The kind is not empty, does not start with
    white space or [#] and holds no dot; kind and name hold no newline and no
    [|].  There is at least one field and at least one row, and no summary
    row; [fields] lists the names of [fieldInfo].  A field is as in X3
    ([Law.clean_field]), and neither its name nor its type holds a [|].  A
    row ([Law.isonl_clean_row]) has the fields of the block as its keys, no
    more and no fewer; its values ([Law.isonl_clean]) are [null], booleans,
    whole numbers up to [Number.MAX_SAFE_INTEGER] in size, references as in
    X3 whose id and type hold no [|], and strings without [|] that
    [parseValue] reads as strings and that either hold a space, a tab, a
    newline or a quote, or are not empty and hold no white space or quote. *)
Theorem isonl_clean_document_reads_back (doc : Document) :
  Law.isonl_clean_doc doc = true → loadsIsonl (dumpsIsonl doc) = Ok doc.
Proof.
  intros Hclean. apply isonl_clean_doc_blocks in Hclean as [Hall Hnodup].
  destruct doc as [bs]. cbn [blocks] in *.
  unfold loadsIsonl, dumpsIsonl, ISONLSerializer.serialize. cbn [blocks].
  by apply parse_isonl_lines.
Qed.

Lemma isonl_clean_document_reads_back_witness :
  loadsIsonl (dumpsIsonl Sample.isonl_clean_doc) = Ok Sample.isonl_clean_doc.
Proof. apply isonl_clean_document_reads_back. vm_compute. reflexivity. Defined.

End IsonlDocuments.

(* ===================================================================== *)
(** ** Conversions between the two formats                                *)
(* ===================================================================== *)

Section Conversions.

(** X14. For a document of both fragments, the conversions between the
    formats give the text that the other serializer writes:
    [isonToIsonl] of the ISON text of the document is its ISONL text, and
    [isonlToIson] of its ISONL text is its ISON text with aligned columns;
    going to ISONL and back gives the aligned ISON text again. *)
Theorem clean_documents_convert (doc : Document) (alignColumns : bool) :
  Law.clean_doc doc = true → Law.isonl_clean_doc doc = true →
  isonToIsonl (dumps doc alignColumns) = Ok (dumpsIsonl doc) ∧
  isonlToIson (dumpsIsonl doc) = Ok (dumps doc true) ∧
  isonToIsonl (dumps doc alignColumns) ≫= isonlToIson = Ok (dumps doc true).
Proof.
  intros Hison Hisonl.
  apply clean_doc_blocks in Hison.
  apply isonl_clean_doc_blocks in Hisonl as [Hall Hnodup].
  destruct doc as [bs]. cbn [blocks] in *.
  assert (H1 : isonToIsonl (dumps (mkDocument bs) alignColumns) =
               Ok (dumpsIsonl (mkDocument bs))).
  { unfold isonToIsonl, parse, dumps. rewrite serialize_lines.
    by rewrite parse_doc_lines. }
  assert (H2 : isonlToIson (dumpsIsonl (mkDocument bs)) =
               Ok (dumps (mkDocument bs) true)).
  { unfold isonlToIson, loadsIsonl, dumpsIsonl, ISONLSerializer.serialize.
    cbn [blocks]. by rewrite parse_isonl_lines. }
  split; [done|]. split; [done|]. rewrite H1. exact H2.
Qed.

Lemma clean_documents_convert_witness :
  isonToIsonl (dumps Sample.plain_doc false) = Ok (dumpsIsonl Sample.plain_doc) ∧
  isonlToIson (dumpsIsonl Sample.plain_doc) = Ok (dumps Sample.plain_doc true) ∧
  isonToIsonl (dumps Sample.plain_doc false) ≫= isonlToIson =
    Ok (dumps Sample.plain_doc true).
Proof. apply clean_documents_convert; vm_compute; reflexivity. Defined.

End Conversions.

(* ===================================================================== *)
(** ** Line ends                                                          *)
(* ===================================================================== *)

Section LineEnds.

Lemma crlf_cons c t :
  Law.crlf (String c t) =
  if Ascii.eqb c Js.LF then String Js.CR (String Js.LF (Law.crlf t))
  else String c (Law.crlf t).
Proof. unfold Law.crlf. cbn [Js.replaceAll]. by destruct (Ascii.eqb c Js.LF). Qed.

Lemma length_crlf t : String.length t ≤ String.length (Law.crlf t).
Proof. apply length_replaceAll. simpl. lia. Qed.

Lemma crlf_append a b : Law.crlf (a +:+ b) = Law.crlf a +:+ Law.crlf b.
Proof. apply replaceAll_append. Qed.

Lemma trimEnd_cr s : Js.trimEnd (s +:+ Js.str Js.CR) = Js.trimEnd s.
Proof.
  induction s as [|c s IH]; [done|]. rewrite append_cons.
  cbn [Js.trimEnd]. by rewrite IH.
Qed.

Lemma trim_cr s : Js.trim (s +:+ Js.str Js.CR) = Js.trim s.
Proof.
  unfold Js.trim. induction s as [|c s IH]; [done|].
  rewrite append_cons. cbn [Js.trimStart].
  destruct (Js.isWhiteSpace c); [exact IH|].
  rewrite <- append_cons. apply trimEnd_cr.
Qed.

Lemma splitLine_crlf t :
  Parser.splitLine (Law.crlf t) =
  ((Parser.splitLine t).1 +:+ (if Js.includes Js.LF t then Js.str Js.CR else ""),
   Law.crlf (Parser.splitLine t).2).
Proof.
  induction t as [|c t IH]; [done|]. rewrite crlf_cons.
  cbn [Parser.splitLine Js.includes].
  destruct (Ascii.eqb c Js.LF) eqn:Hc.
  - apply Ascii.eqb_eq in Hc. subst c. reflexivity.
  - cbn [Parser.splitLine]. rewrite Hc, IH.
    destruct (Parser.splitLine t) as [line rest]. cbn [fst snd orb].
    by rewrite append_cons.
Qed.

(** A line is read the same with either line end: [trim] removes the
    return. *)
Lemma readLine_crlf t :
  Parser.readLine (Law.crlf t) = Law.crlf_rest <$> Parser.readLine t.
Proof.
  destruct t as [|c t]; [done|].
  assert (Hne : ∃ d r, Law.crlf (String c t) = String d r).
  { rewrite crlf_cons. destruct (Ascii.eqb c Js.LF); eauto. }
  destruct Hne as (d & r & Hdr). unfold Parser.readLine.
  rewrite Hdr, <- Hdr, splitLine_crlf.
  destruct (Parser.splitLine (String c t)) as [line rest]. cbn [fst snd fmap option_fmap option_map].
  unfold Law.crlf_rest. cbn [fst snd]. do 2 f_equal.
  destruct (Js.includes Js.LF (String c t)); [apply trim_cr|by rewrite append_empty_r].
Qed.

Lemma skip_crlf t :
  Parser.skipWhitespaceAndComments (Law.crlf t) =
    Law.crlf (Parser.skipWhitespaceAndComments t) ∧
  Parser.skipComment (Law.crlf t) = Law.crlf (Parser.skipComment t).
Proof.
  induction t as [|c t [IH1 IH2]]; [done|]. rewrite crlf_cons.
  destruct (Ascii.eqb c Js.LF) eqn:Hc.
  - apply Ascii.eqb_eq in Hc. subst c. split; exact IH1.
  - cbn [Parser.skipWhitespaceAndComments Parser.skipComment]. rewrite Hc.
    split; [|exact IH2].
    destruct (Parser.isBlank c); [exact IH1|].
    destruct (Ascii.eqb c Js.HASH); [exact IH2|].
    by rewrite crlf_cons, Hc.
Qed.

Lemma parseRows_crlf fuel : ∀ fuel' block inSummary t,
  String.length t ≤ fuel → String.length (Law.crlf t) ≤ fuel' →
  Parser.parseRows fuel' block inSummary (Law.crlf t) =
  Law.crlf_rest <$> Parser.parseRows fuel block inSummary t.
Proof.
  induction fuel as [|fuel IH]; intros fuel' block inSummary t H1 H2.
  - destruct t; [|simpl in H1; lia]. by rewrite !parseRows_stop.
  - pose proof (readLine_crlf t) as Hrl.
    destruct (Parser.readLine t) as [[line rest]|] eqn:Hr.
    2: { rewrite !parseRows_stop; [done|by rewrite ?Hr, ?Hrl..]. }
    cbn [fmap option_fmap option_map] in Hrl. unfold Law.crlf_rest in Hrl at 1.
    cbn [fst snd] in Hrl.
    destruct (Js.isEmpty line || Re.isHeaderLike line) eqn:Hc.
    { rewrite !parseRows_stop; [done|by rewrite ?Hr, ?Hrl, Hc..]. }
    pose proof (length_readLine _ _ _ Hr) as Hlen.
    pose proof (length_readLine _ _ _ Hrl) as Hlen'.
    destruct fuel' as [|fuel']; [lia|].
    rewrite (parseRows_step _ _ _ _ _ _ Hr Hc).
    rewrite (parseRows_step _ _ _ _ _ _ Hrl Hc).
    destruct (Js.startsWith "#" line); [apply IH; lia|].
    destruct (String.eqb _ _); [apply IH; lia|].
    destruct (Parser.tokenizeLine line) as [values| |]; simpl; try done.
    destruct values as [|v values]; [done|].
    destruct (Parser.fillRow _ _ _) as [row| |]; simpl; try done.
    destruct inSummary; apply IH; lia.
Qed.

Lemma parseBlock_crlf t :
  Parser.parseBlock (Law.crlf t) = Law.crlf_rest <$> Parser.parseBlock t.
Proof.
  unfold Parser.parseBlock. rewrite readLine_crlf.
  destruct (Parser.readLine t) as [[headerLine rest]|] eqn:Hr.
  2: { apply readLine_None in Hr. by subst. }
  cbn [fmap option_fmap option_map]. unfold Law.crlf_rest at 1. cbn [fst snd].
  destruct (Js.isEmpty headerLine || Js.startsWith "#" headerLine); [done|].
  destruct (Js.indexOf Js.DOT headerLine) as [dotIndex|]; [|done].
  cbv zeta. destruct (_ || _); [done|].
  destruct (skipEmptyLines_eq (Law.crlf rest)) as [-> _].
  destruct (skipEmptyLines_eq rest) as [-> _].
  destruct (skip_crlf rest) as [-> _].
  rewrite readLine_crlf.
  destruct (Parser.readLine (Parser.skipWhitespaceAndComments rest))
    as [[fieldsLine rest2]|]; [|done].
  cbn [fmap option_fmap option_map]. unfold Law.crlf_rest at 1. cbn [fst snd].
  destruct (Js.isEmpty fieldsLine); [done|].
  destruct (Parser.tokenizeLine fieldsLine) as [fieldTokens| |]; simpl; try done.
  rewrite (parseRows_crlf (Js.length rest2)) by (unfold Js.length; lia).
  destruct (Parser.parseRows _ _ _ rest2) as [[block rest3]| |]; done.
Qed.

Lemma parseBlocks_crlf fuel : ∀ fuel' doc t,
  String.length t ≤ fuel → String.length (Law.crlf t) ≤ fuel' →
  Parser.parseBlocks fuel' doc (Law.crlf t) = Parser.parseBlocks fuel doc t.
Proof.
  induction fuel as [|fuel IH]; intros fuel' doc t H1 H2.
  - destruct t; [|simpl in H1; lia]. by destruct fuel'.
  - destruct (decide (t = "")) as [->|Hne]; [by destruct fuel'|].
    assert (Hne' : Law.crlf t ≠ "").
    { destruct t as [|c t]; [done|]. rewrite crlf_cons.
      by destruct (Ascii.eqb c Js.LF). }
    destruct fuel' as [|fuel'].
    { destruct (Law.crlf t); [done|simpl in H2; lia]. }
    rewrite !parseBlocks_step by done. rewrite parseBlock_crlf.
    destruct (Parser.parseBlock t) as [[block rest]| |] eqn:Hb; simpl; try done.
    pose proof (parseBlock_length _ _ _ Hb Hne) as Hlen.
    assert (Hb' : Parser.parseBlock (Law.crlf t) = Ok (block, Law.crlf rest)).
    { by rewrite parseBlock_crlf, Hb. }
    pose proof (parseBlock_length _ _ _ Hb' Hne') as Hlen'.
    destruct (skip_crlf rest) as [-> _].
    destruct (skip_shape rest) as ([skipped Hs] & _).
    pose proof (proj1 (length_skipWhitespaceAndComments rest)).
    apply IH; [lia|].
    rewrite Hs, crlf_append, length_append in Hlen'. lia.
Qed.

(** X15. [parse] reads a text with return and newline at the end of its
    lines like the text with newlines alone: the outcome is the same,
    document or error. *)
Theorem parse_ignores_carriage_returns (text : string) :
  parse (Law.crlf text) = parse text.
Proof.
  unfold parse, Parser.parse. destruct (skip_crlf text) as [-> _].
  apply parseBlocks_crlf.
  - apply length_skipWhitespaceAndComments.
  - destruct (skip_shape text) as ([skipped Hs] & _).
    rewrite Hs at 2. rewrite crlf_append. unfold Js.length.
    rewrite length_append. lia.
Qed.

Lemma split_crlf t :
  Js.split Js.LF (Law.crlf t) = Law.with_cr (Js.split Js.LF t).
Proof.
  induction t as [|c t IH]; [done|]. rewrite crlf_cons.
  pose proof (length_split Js.LF t) as Hlen.
  destruct (Ascii.eqb c Js.LF) eqn:Hc.
  - apply Ascii.eqb_eq in Hc. subst c.
    change (Js.split Js.LF (String Js.CR (String Js.LF (Law.crlf t))))
      with (Js.str Js.CR :: Js.split Js.LF (Law.crlf t)).
    change (Js.split Js.LF (String Js.LF t)) with ("" :: Js.split Js.LF t).
    rewrite IH. destruct (Js.split Js.LF t); [simpl in Hlen; lia|done].
  - cbn [Js.split]. rewrite Hc, IH.
    destruct (Js.split Js.LF t) as [|h [|h' tl]]; [simpl in Hlen; lia|done|].
    cbn [Law.with_cr]. by rewrite append_cons.
Qed.

(** A return at the end of an ISONL line changes nothing but the text of
    the error for a line that is rejected. *)
Lemma parseLine_cr st l st' :
  ISONLParser.parseLine st (l +:+ Js.str Js.CR) = Ok st' ↔
  ISONLParser.parseLine st l = Ok st'.
Proof.
  unfold ISONLParser.parseLine. cbv zeta. rewrite trim_cr.
  destruct (Js.isEmpty (Js.trim l) || Js.startsWith "#" (Js.trim l)); [done|].
  destruct (Js.split Js.PIPE (Js.trim l)) as [|h [|f [|v [|w tl]]]]; done.
Qed.

Lemma parseLines_cr lines : ∀ st st',
  ISONLParser.parseLines st (Law.with_cr lines) = Ok st' ↔
  ISONLParser.parseLines st lines = Ok st'.
Proof.
  induction lines as [|l lines IH]; intros st st'; [done|].
  destruct lines as [|l' lines]; [done|].
  change (Law.with_cr (l :: l' :: lines))
    with ((l +:+ Js.str Js.CR) :: Law.with_cr (l' :: lines)).
  cbn [ISONLParser.parseLines].
  destruct (ISONLParser.parseLine st l) as [st1| |] eqn:H1.
  - apply (proj2 (parseLine_cr _ _ _)) in H1. rewrite H1. cbn [mbind result_bind].
    unfold result_bind. apply IH.
  - destruct (ISONLParser.parseLine st (l +:+ Js.str Js.CR)) as [st2| |] eqn:H2;
      [|done..]. apply (proj1 (parseLine_cr _ _ _)) in H2. congruence.
  - destruct (ISONLParser.parseLine st (l +:+ Js.str Js.CR)) as [st2| |] eqn:H2;
      [|done..]. apply (proj1 (parseLine_cr _ _ _)) in H2. congruence.
Qed.

(** X16. [loadsIsonl] reads a text with return and newline at the end of
    its lines like the text with newlines alone: it accepts the one when it
    accepts the other, and returns the same document. *)
Theorem loadsIsonl_ignores_carriage_returns (text : string) (doc : Document) :
  loadsIsonl (Law.crlf text) = Ok doc ↔ loadsIsonl text = Ok doc.
Proof.
  unfold loadsIsonl, ISONLParser.parse. rewrite split_crlf.
  pose proof (parseLines_cr (Js.split Js.LF text) (ISONLParser.mkState [] ∅)) as H.
  destruct (ISONLParser.parseLines _ (Law.with_cr _)) as [st1| |];
    destruct (ISONLParser.parseLines _ (Js.split Js.LF text)) as [st2| |];
    simpl; try done.
  - assert (st1 = st2) as -> by (specialize (H st1); destruct H as [H _];
      specialize (H eq_refl); congruence). done.
  - specialize (H st1). destruct H as [H _]. by specialize (H eq_refl).
  - specialize (H st1). destruct H as [H _]. by specialize (H eq_refl).
  - specialize (H st2). destruct H as [_ H]. by specialize (H eq_refl).
  - specialize (H st2). destruct H as [_ H]. by specialize (H eq_refl).
Qed.

End LineEnds.

(* ===================================================================== *)
(** ** Comment lines                                                      *)
(* ===================================================================== *)

Section CommentLines.

Variables (c post : string).
Hypothesis Hc : Law.comment_line c = true.

Lemma skip_line l :
  Js.includes Js.LF l = false →
  (∀ T, Parser.skipComment (l +:+ String Js.LF T) =
        Parser.skipWhitespaceAndComments T) ∧
  ((∀ T, Parser.skipWhitespaceAndComments (l +:+ String Js.LF T) =
         Parser.skipWhitespaceAndComments T) ∨
   (∃ l', Js.includes Js.LF l' = false ∧
      ∀ T, Parser.skipWhitespaceAndComments (l +:+ String Js.LF T) =
           l' +:+ String Js.LF T)).
Proof.
  induction l as [|ch r IH]; intros Hl.
  - split; [done|]. by left.
  - cbn [Js.includes] in Hl. apply orb_false_iff in Hl as [Hch Hr].
    destruct (IH Hr) as [IH1 IH2]. split.
    + intros T. rewrite append_cons. cbn [Parser.skipComment]. by rewrite Hch.
    + destruct (Parser.isBlank ch) eqn:Hb.
      { destruct IH2 as [IH2|(l' & Hl' & IH2)]; [left|right].
        - intros T. rewrite append_cons. cbn [Parser.skipWhitespaceAndComments].
          by rewrite Hb.
        - exists l'. split; [done|]. intros T. rewrite append_cons.
          cbn [Parser.skipWhitespaceAndComments]. by rewrite Hb. }
      destruct (Ascii.eqb ch Js.HASH) eqn:Hh.
      { left. intros T. rewrite append_cons.
        cbn [Parser.skipWhitespaceAndComments]. by rewrite Hb, Hh. }
      right. exists (String ch r). split; [by cbn [Js.includes]; rewrite Hch|].
      intros T. rewrite append_cons. cbn [Parser.skipWhitespaceAndComments].
      by rewrite Hb, Hh.
Qed.

Lemma terminated_app ls X l :
  (l +:+ String Js.LF (Law.terminated ls)) +:+ X =
  l +:+ String Js.LF (Law.terminated ls +:+ X).
Proof. by rewrite append_assoc, append_cons. Qed.

(** The scan over blank space and comments either goes through whole lines
    or stops inside them, whatever follows. *)
Lemma skip_terminated ls :
  Forall (λ l, Js.includes Js.LF l = false) ls →
  (∀ X, Parser.skipWhitespaceAndComments (Law.terminated ls +:+ X) =
        Parser.skipWhitespaceAndComments X) ∨
  (∃ l' ls', Js.includes Js.LF l' = false ∧
     Forall (λ l, Js.includes Js.LF l = false) ls' ∧
     ∀ X, Parser.skipWhitespaceAndComments (Law.terminated ls +:+ X) =
          Law.terminated (l' :: ls') +:+ X).
Proof.
  induction 1 as [|l ls Hl Hls IH]; [by left|].
  cbn [Law.terminated]. destruct (skip_line l Hl) as [_ [H|(l' & Hl' & H)]].
  - destruct IH as [IH|(l' & ls' & Hl' & Hls' & IH)]; [left|right].
    + intros X. by rewrite terminated_app, H, IH.
    + exists l', ls'. split; [done|]. split; [done|].
      intros X. by rewrite terminated_app, H, IH.
  - right. exists l', ls. split; [done|]. split; [done|].
    intros X. rewrite terminated_app, H. cbn [Law.terminated].
    by rewrite terminated_app.
Qed.

Lemma comment_line_no_LF s : Law.comment_line s = true → Js.includes Js.LF s = false.
Proof.
  induction s as [|ch r IH]; [done|]. cbn [Law.comment_line Js.includes].
  destruct (Ascii.eqb ch Js.HASH) eqn:Hh.
  - apply Ascii.eqb_eq in Hh. subst ch. rewrite negb_true_iff. by intros ->.
  - rewrite andb_true_iff. intros [Hb Hr]. rewrite (IH Hr), orb_false_r.
    destruct (Ascii.eqb_spec ch Js.LF) as [->|]; [done|done].
Qed.

Lemma skip_comment_line s T :
  Law.comment_line s = true →
  Parser.skipWhitespaceAndComments (s +:+ String Js.LF T) =
  Parser.skipWhitespaceAndComments T.
Proof.
  induction s as [|ch r IH]; [done|]. cbn [Law.comment_line].
  rewrite append_cons.
  destruct (Ascii.eqb ch Js.HASH) eqn:Hh.
  - apply Ascii.eqb_eq in Hh. subst ch. rewrite negb_true_iff. intros Hr.
    change (Parser.skipWhitespaceAndComments (String Js.HASH (r +:+ String Js.LF T)))
      with (Parser.skipComment (r +:+ String Js.LF T)).
    by apply skip_line.
  - rewrite andb_true_iff. intros [Hb Hr].
    cbn [Parser.skipWhitespaceAndComments].
    assert (Parser.isBlank ch = true) as ->; [|by apply IH].
    unfold Parser.isBlank. apply orb_true_iff in Hb as [Hb|Hb];
      [apply orb_true_iff in Hb as [Hb|Hb]|]; rewrite Hb; by rewrite ?orb_true_r.
Qed.

Lemma trim_comment_line s :
  Law.comment_line s = true → ∃ r, Js.trim s = String Js.HASH r.
Proof.
  unfold Js.trim. induction s as [|ch r IH]; [done|]. cbn [Law.comment_line].
  destruct (Ascii.eqb ch Js.HASH) eqn:Hh.
  - apply Ascii.eqb_eq in Hh. subst ch. intros _.
    change (Js.trimStart (String Js.HASH r)) with (String Js.HASH r).
    by apply trimEnd_first.
  - rewrite andb_true_iff. intros [Hb Hr]. cbn [Js.trimStart].
    assert (Js.isWhiteSpace ch = true) as ->; [|by apply IH].
    apply orb_true_iff in Hb as [Hb|Hb];
      [apply orb_true_iff in Hb as [Hb|Hb]|]; apply Ascii.eqb_eq in Hb; by subst.
Qed.

Lemma readLine_terminated l T :
  Js.includes Js.LF l = false →
  Parser.readLine (l +:+ String Js.LF T) = Some (Js.trim l, T).
Proof.
  intros Hl. unfold Parser.readLine. rewrite splitLine_line by done.
  by destruct l.
Qed.

(** The rests of two texts that differ by the comment line. *)
Lemma same_but_line_skip t1 t2 :
  Law.same_but_line c post t1 t2 →
  Parser.skipWhitespaceAndComments t1 = Parser.skipWhitespaceAndComments t2 ∨
  ∃ l ls, Js.includes Js.LF l = false ∧
    Forall (λ l, Js.includes Js.LF l = false) ls ∧
    Parser.skipWhitespaceAndComments t1 =
      Law.terminated (l :: ls) +:+ c +:+ String Js.LF post ∧
    Parser.skipWhitespaceAndComments t2 = Law.terminated (l :: ls) +:+ post.
Proof.
  intros [->|(ls & Hls & -> & ->)]; [by left|].
  destruct (skip_terminated ls Hls) as [H|(l' & ls' & Hl' & Hls' & H)].
  - left. by rewrite !H, skip_comment_line.
  - right. exists l', ls'. by rewrite !H.
Qed.

Lemma length_same_but_line t1 t2 :
  Law.same_but_line c post t1 t2 → String.length t2 ≤ String.length t1.
Proof.
  intros [->|(ls & Hls & -> & ->)]; [done|]. rewrite !length_append. simpl. lia.
Qed.

(** The row loop gives the same block on two texts that differ by the
    comment line, and leaves rests that differ by it at most. *)
Lemma parseRows_comment fuel1 : ∀ fuel2 block inSummary t1 t2,
  Law.same_but_line c post t1 t2 →
  String.length t1 ≤ fuel1 → String.length t2 ≤ fuel2 →
  Law.same_outcome c post
    (Parser.parseRows fuel1 block inSummary t1)
    (Parser.parseRows fuel2 block inSummary t2).
Proof.
  induction fuel1 as [|fuel1 IH]; intros fuel2 block inSummary t1 t2 Hrel H1 H2.
  { destruct t1; [|simpl in H1; lia].
    apply length_same_but_line in Hrel as Hlen.
    destruct t2; [|simpl in Hlen; lia].
    rewrite !parseRows_stop by done. split; [done|by left]. }
  destruct Hrel as [->|(ls & Hls & -> & ->)].
  { rewrite (parseRows_fuel (S fuel1) fuel2) by done.
    destruct (Parser.parseRows fuel2 block inSummary t2) as [[b r]| |]; try done.
    split; [done|by left]. }
  destruct Hls as [|l ls Hl Hls].
  - (* the comment line is the next line *)
    cbn [Law.terminated] in *. rewrite !append_empty_l in *.
    destruct (trim_comment_line c Hc) as [r Hr].
    rewrite (parseRows_step _ _ _ _ (Js.trim c) post).
    2: { apply readLine_terminated. by apply comment_line_no_LF. }
    2: { by rewrite Hr. }
    rewrite Hr. change (Js.startsWith "#" (String Js.HASH r)) with true. cbv iota.
    rewrite length_append in H1. simpl in H1.
    rewrite (parseRows_fuel fuel1 fuel2) by lia.
    destruct (Parser.parseRows fuel2 block inSummary post) as [[b r']| |]; try done.
    split; [done|by left].
  - (* the next line is the same in both texts *)
    cbn [Law.terminated] in *. rewrite !terminated_app in *.
    set (T1 := Law.terminated ls +:+ c +:+ String Js.LF post) in *.
    set (T2 := Law.terminated ls +:+ post) in *.
    assert (Hrest : Law.same_but_line c post T1 T2) by (right; by exists ls).
    pose proof (readLine_terminated l T1 Hl) as Hr1.
    pose proof (readLine_terminated l T2 Hl) as Hr2.
    destruct (Js.isEmpty (Js.trim l) || Re.isHeaderLike (Js.trim l)) eqn:Hstop.
    { rewrite !parseRows_stop by (by rewrite ?Hr1, ?Hr2).
      split; [done|]. right. exists (l :: ls). split; [by constructor|].
      cbn [Law.terminated]. by rewrite !terminated_app. }
    pose proof (length_readLine _ _ _ Hr1) as Hlen1.
    pose proof (length_readLine _ _ _ Hr2) as Hlen2.
    destruct fuel2 as [|fuel2]; [lia|].
    rewrite (parseRows_step _ _ _ _ _ _ Hr1 Hstop).
    rewrite (parseRows_step _ _ _ _ _ _ Hr2 Hstop).
    destruct (Js.startsWith "#" (Js.trim l)); [apply IH; [done|lia..]|].
    destruct (String.eqb _ _); [apply IH; [done|lia..]|].
    destruct (Parser.tokenizeLine (Js.trim l)) as [values| |]; simpl; try done.
    destruct values as [|v values]; [done|].
    destruct (Parser.fillRow _ _ _) as [row| |]; simpl; try done.
    destruct inSummary; apply IH; (done || lia).
Qed.

Lemma parseBlock_comment l ls :
  Js.includes Js.LF l = false →
  Forall (λ l, Js.includes Js.LF l = false) ls →
  Law.same_outcome c post
    (Parser.parseBlock (Law.terminated (l :: ls) +:+ c +:+ String Js.LF post))
    (Parser.parseBlock (Law.terminated (l :: ls) +:+ post)).
Proof.
  intros Hl Hls. cbn [Law.terminated]. rewrite !terminated_app.
  set (T1 := Law.terminated ls +:+ c +:+ String Js.LF post).
  set (T2 := Law.terminated ls +:+ post).
  assert (Hrest : Law.same_but_line c post T1 T2) by (right; by exists ls).
  unfold Parser.parseBlock. rewrite !readLine_terminated by done.
  destruct (Js.isEmpty (Js.trim l) || Js.startsWith "#" (Js.trim l)); [done|].
  destruct (Js.indexOf Js.DOT (Js.trim l)) as [dotIndex|]; [|done].
  cbv zeta. destruct (_ || _); [done|].
  destruct (skipEmptyLines_eq T1) as [-> _].
  destruct (skipEmptyLines_eq T2) as [-> _].
  destruct (same_but_line_skip T1 T2 Hrest)
    as [->|(l' & ls' & Hl' & Hls' & -> & ->)].
  { destruct (Parser.readLine _) as [[fieldsLine rest2]|]; [|split; [done|by left]].
    destruct (Js.isEmpty fieldsLine); [split; [done|by left]|].
    destruct (Parser.tokenizeLine fieldsLine) as [fieldTokens| |]; simpl; try done.
    destruct (Parser.parseRows _ _ _ rest2) as [[block rest3]| |]; simpl; try done.
    split; [done|by left]. }
  cbn [Law.terminated]. rewrite !terminated_app.
  rewrite !readLine_terminated by done.
  set (R1 := Law.terminated ls' +:+ c +:+ String Js.LF post).
  set (R2 := Law.terminated ls' +:+ post).
  assert (Hrest' : Law.same_but_line c post R1 R2) by (right; by exists ls').
  destruct (Js.isEmpty (Js.trim l')); [done|].
  destruct (Parser.tokenizeLine (Js.trim l')) as [fieldTokens| |]; simpl; try done.
  pose proof (parseRows_comment (Js.length R1) (Js.length R2)
    (fold_left Parser.addField fieldTokens
       (newBlock (Js.trim (Js.substringTo dotIndex (Js.trim l)))
          (Js.trim (Js.substringFrom (S dotIndex) (Js.trim l)))))
    false R1 R2 Hrest' ltac:(done) ltac:(done)) as Hrows.
  destruct (Parser.parseRows (Js.length R1) _ _ R1) as [[b1 r1]| |];
    destruct (Parser.parseRows (Js.length R2) _ _ R2) as [[b2 r2]| |];
    simpl in *; try done.
  destruct Hrows as [-> Hrows]. done.
Qed.

Lemma not_skipped_comment_line T :
  Parser.skipWhitespaceAndComments (c +:+ String Js.LF T) ≠ c +:+ String Js.LF T.
Proof.
  rewrite (skip_comment_line c T Hc). intros Heq.
  pose proof (proj1 (length_skipWhitespaceAndComments T)) as Hlen.
  rewrite Heq, length_append in Hlen. simpl in Hlen. lia.
Qed.

Lemma skip_idempotent t :
  Parser.skipWhitespaceAndComments (Parser.skipWhitespaceAndComments t) =
  Parser.skipWhitespaceAndComments t.
Proof.
  destruct (skip_shape t) as (_ & _ & H & _).
  destruct (Parser.skipWhitespaceAndComments t) as [|ch r]; [done|].
  destruct H as [Hb Hh]. by apply skipWhitespaceAndComments_stays.
Qed.

Lemma parseBlocks_comment fuel1 : ∀ fuel2 doc t1 t2,
  Law.same_but_line c post t1 t2 →
  Parser.skipWhitespaceAndComments t1 = t1 →
  String.length t1 ≤ fuel1 → String.length t2 ≤ fuel2 →
  Parser.parseBlocks fuel1 doc t1 = Parser.parseBlocks fuel2 doc t2.
Proof.
  induction fuel1 as [|fuel1 IH]; intros fuel2 doc t1 t2 Hrel Hskip H1 H2.
  { destruct t1; [|simpl in H1; lia].
    apply length_same_but_line in Hrel as Hlen.
    destruct t2; [|simpl in Hlen; lia]. by destruct fuel2. }
  destruct Hrel as [->|(ls & Hls & -> & ->)].
  { by apply parseBlocks_fuel. }
  destruct Hls as [|l ls Hl Hls].
  { cbn [Law.terminated] in Hskip. rewrite append_empty_l in Hskip.
    by apply not_skipped_comment_line in Hskip. }
  pose proof (parseBlock_comment l ls Hl Hls) as Hblock.
  set (t1 := Law.terminated (l :: ls) +:+ c +:+ String Js.LF post) in *.
  set (t2 := Law.terminated (l :: ls) +:+ post) in *.
  assert (Hne1 : t1 ≠ "").
  { subst t1. cbn [Law.terminated]. rewrite terminated_app.
    destruct l; [done|by rewrite append_cons]. }
  assert (Hne2 : t2 ≠ "").
  { subst t2. cbn [Law.terminated]. rewrite terminated_app.
    destruct l; [done|by rewrite append_cons]. }
  destruct fuel2 as [|fuel2]; [destruct t2; [done|simpl in H2; lia]|].
  rewrite !parseBlocks_step by done.
  destruct (Parser.parseBlock t1) as [[b1 r1]| |] eqn:Hb1;
    destruct (Parser.parseBlock t2) as [[b2 r2]| |] eqn:Hb2;
    simpl in Hblock; try done; simpl.
  - destruct Hblock as [-> Hrest].
    pose proof (parseBlock_length _ _ _ Hb1 Hne1) as Hlen1.
    pose proof (parseBlock_length _ _ _ Hb2 Hne2) as Hlen2.
    pose proof (proj1 (length_skipWhitespaceAndComments r1)).
    pose proof (proj1 (length_skipWhitespaceAndComments r2)).
    apply IH; [|apply skip_idempotent|lia..].
    destruct (same_but_line_skip r1 r2 Hrest)
      as [->|(l' & ls' & Hl' & Hls' & -> & ->)]; [by left|].
    right. exists (l' :: ls'). split; [by constructor|done].
  - by inversion Hblock.
Qed.

(** In the model, where an error is its message without the line number,
    [parse] gives the same outcome with and without the comment line. *)
Lemma parse_comment_line (ls : list string) :
  Forall (λ l, Js.includes Js.LF l = false) ls →
  parse (Law.terminated ls +:+ c +:+ String Js.LF post) =
  parse (Law.terminated ls +:+ post).
Proof.
  intros Hls. unfold parse, Parser.parse.
  set (t1 := Law.terminated ls +:+ c +:+ String Js.LF post).
  set (t2 := Law.terminated ls +:+ post).
  assert (Hrel : Law.same_but_line c post t1 t2) by (right; by exists ls).
  apply parseBlocks_comment.
  - destruct (same_but_line_skip t1 t2 Hrel)
      as [->|(l' & ls' & Hl' & Hls' & -> & ->)]; [by left|].
    right. exists (l' :: ls'). split; [by constructor|done].
  - apply skip_idempotent.
  - apply length_skipWhitespaceAndComments.
  - apply length_skipWhitespaceAndComments.
Qed.

End CommentLines.

(** X17. A comment line on its own, put before any line of a text, changes
    nothing of what [parse] returns: the text with the line gives a document
    exactly when the text without it does, and it is the same document; and
    [parse] throws on the one exactly when it throws on the other.  The
    errors themselves are not compared: the messages of [Parser] carry a line
    number, which the added line shifts. *)
Theorem comment_line_is_ignored (c post : string) (ls : list string) :
  Law.comment_line c = true →
  Forall (λ l, Js.includes Js.LF l = false) ls →
  (∀ doc,
     parse (Law.terminated ls +:+ c +:+ String Js.LF post) = Ok doc ↔
     parse (Law.terminated ls +:+ post) = Ok doc) ∧
  ((∃ e, parse (Law.terminated ls +:+ c +:+ String Js.LF post) = Throw e) ↔
   (∃ e, parse (Law.terminated ls +:+ post) = Throw e)).
Proof.
  intros Hc Hls. by rewrite (parse_comment_line c post Hc ls Hls).
Qed.

Lemma comment_line_is_ignored_witness :
  (∀ doc,
     parse (Law.terminated ["table.t"; "a b"] +:+ "  # the rows" +:+
            String Js.LF "1 2") = Ok doc ↔
     parse (Law.terminated ["table.t"; "a b"] +:+ "1 2") = Ok doc) ∧
  ((∃ e, parse (Law.terminated ["table.t"; "a b"] +:+ "  # the rows" +:+
                String Js.LF "1 2") = Throw e) ↔
   (∃ e, parse (Law.terminated ["table.t"; "a b"] +:+ "1 2") = Throw e)).
Proof.
  apply (comment_line_is_ignored "  # the rows" "1 2").
  - vm_compute. reflexivity.
  - repeat constructor.
Defined.

Section IsonlSkippedLines.

Lemma split_terminated ls X :
  Forall (λ l, Js.includes Js.LF l = false) ls →
  Js.split Js.LF (Law.terminated ls +:+ X) = ls ++ Js.split Js.LF X.
Proof.
  induction 1 as [|l ls Hl _ IH]; [done|].
  cbn [Law.terminated]. rewrite append_assoc, append_cons.
  rewrite split_first by done. by rewrite IH.
Qed.

Lemma parseLines_app lines1 : ∀ st lines2,
  ISONLParser.parseLines st (lines1 ++ lines2) =
  st' ← ISONLParser.parseLines st lines1; ISONLParser.parseLines st' lines2.
Proof.
  induction lines1 as [|l lines1 IH]; intros st lines2; [done|].
  cbn [app ISONLParser.parseLines].
  destruct (ISONLParser.parseLine st l) as [st1| |]; simpl; [|done..].
  apply IH.
Qed.

(** X18. A blank line or a comment line, put before any line of an ISONL
    text, changes nothing: [loadsIsonl] gives the same outcome with and
    without it. *)
Theorem isonl_skipped_line_is_ignored (ls : list string) (c post : string) :
  Forall (λ l, Js.includes Js.LF l = false) ls →
  Js.includes Js.LF c = false → Law.isonl_skipped c = true →
  loadsIsonl (Law.terminated ls +:+ c +:+ String Js.LF post) =
  loadsIsonl (Law.terminated ls +:+ post).
Proof.
  intros Hls Hc Hskip. unfold loadsIsonl, ISONLParser.parse.
  rewrite !split_terminated by done. rewrite split_first by done.
  rewrite !parseLines_app.
  destruct (ISONLParser.parseLines _ ls) as [st| |]; simpl; [|done..].
  unfold ISONLParser.parseLine at 1. cbv zeta.
  unfold Law.isonl_skipped in Hskip. by rewrite Hskip.
Qed.

Lemma isonl_skipped_line_is_ignored_witness :
  loadsIsonl (Law.terminated ["table.t|a b|1 2"] +:+ " # more" +:+
              String Js.LF "table.t|a b|3 4") =
  loadsIsonl (Law.terminated ["table.t|a b|1 2"] +:+ "table.t|a b|3 4").
Proof.
  apply isonl_skipped_line_is_ignored.
  - repeat constructor.
  - reflexivity.
  - vm_compute. reflexivity.
Defined.

End IsonlSkippedLines.

(* ===================================================================== *)
(** ** The line of a row                                                  *)
(* ===================================================================== *)

Section RowLines.

Lemma split_nonempty c s : Js.split c s ≠ [].
Proof. induction s as [|d s IH]; simpl; [done|]. by repeat case_match. Qed.

Lemma split_append c a b :
  Js.split c (a +:+ String c b) = Js.split c a ++ Js.split c b.
Proof.
  induction a as [|d a IH].
  - rewrite append_empty_l. cbn [Js.split]. by rewrite Ascii.eqb_refl.
  - rewrite append_cons. cbn [Js.split]. rewrite IH.
    destruct (Ascii.eqb d c); [done|].
    pose proof (split_nonempty c a) as Hne.
    by destruct (Js.split c a).
Qed.

(** What [splitLine] cuts: the text up to its first newline. *)
Lemma splitLine_spec t :
  Js.includes Js.LF (Parser.splitLine t).1 = false ∧
  ((t = (Parser.splitLine t).1 ∧ (Parser.splitLine t).2 = "") ∨
   t = (Parser.splitLine t).1 +:+ String Js.LF (Parser.splitLine t).2).
Proof.
  induction t as [|c t (IH1 & IH2)]; [by split; [|left]|].
  cbn [Parser.splitLine]. destruct (Ascii.eqb c Js.LF) eqn:Hc.
  - apply Ascii.eqb_eq in Hc. subst c. split; [done|by right].
  - destruct (Parser.splitLine t) as [l r]. cbn [fst snd] in *.
    split; [cbn [Js.includes]; by rewrite Hc|].
    destruct IH2 as [[-> ->]|IH2]; [by left|right].
    by rewrite append_cons, <- IH2.
Qed.

Lemma at_line_rest_of text t : Law.at_line text t → Law.rest_of text t.
Proof.
  intros [->|(pre & -> & _)]; [|by exists pre].
  exists text. by rewrite append_empty_r.
Qed.

(** After a line is read, the parser is at a line of the text. *)
Lemma readLine_rest text t line rest :
  Law.rest_of text t → Parser.readLine t = Some (line, rest) →
  Law.at_line text rest.
Proof.
  intros [pre ->] Hr. unfold Parser.readLine in Hr.
  destruct t as [|c t]; [done|].
  destruct (splitLine_spec (String c t)) as (_ & Hcut).
  destruct (Parser.splitLine (String c t)) as [l r]. cbn [fst snd] in Hcut.
  inversion Hr; subst. destruct Hcut as [[_ ->]| ->]; [by left|].
  right. exists (pre +:+ l +:+ Js.str Js.LF). split.
  - by rewrite !append_assoc.
  - right. exists (pre +:+ l). by rewrite append_assoc.
Qed.

(** A line that is read at a line of the text is a line of the text, trimmed. *)
Lemma readLine_at_line text t line rest :
  Law.at_line text t → Parser.readLine t = Some (line, rest) →
  ∃ l, l ∈ Js.split Js.LF text ∧ line = Js.trim l.
Proof.
  intros Hat Hr.
  assert (Hin : ∃ l, l ∈ Js.split Js.LF t ∧ line = Js.trim l).
  { unfold Parser.readLine in Hr. destruct t as [|c t]; [done|].
    destruct (splitLine_spec (String c t)) as (Hl & Hcut).
    destruct (Parser.splitLine (String c t)) as [l r]. cbn [fst snd] in *.
    inversion Hr; subst. exists l. split; [|done].
    destruct Hcut as [[Hcut _]|Hcut]; rewrite Hcut.
    - rewrite split_none by done. by left.
    - rewrite split_first by done. by left. }
  destruct Hin as (l & Hl & ->). exists l. split; [|done].
  destruct Hat as [->|(pre & -> & [->|[p ->]])]; [done|by rewrite append_empty_l|].
  rewrite append_assoc. change (Js.str Js.LF +:+ t) with (String Js.LF t).
  rewrite split_append. apply elem_of_app. by right.
Qed.

Lemma rest_of_skip text t :
  Law.rest_of text t →
  Law.rest_of text (Parser.skipWhitespaceAndComments t) ∧
  Law.rest_of text (Parser.skipEmptyLines t).
Proof.
  intros [pre ->]. destruct (skipEmptyLines_eq t) as [-> _].
  destruct (skip_shape t) as ([skipped Hs] & _).
  split; exists (pre +:+ skipped); by rewrite append_assoc, <- Hs.
Qed.

(** The rows that the row loop adds come from lines of the text. *)
Lemma parseRows_lines text fuel : ∀ block inSummary t block' rest,
  Law.at_line text t →
  Parser.parseRows fuel block inSummary t = Ok (block', rest) →
  Law.rest_of text rest ∧
  ∃ rs ss,
    rows block' = rows block ++ rs ∧
    summaryRows block' = summaryRows block ++ ss ∧
    Forall (Spec.from_line_of text (fields block)) (rs ++ ss).
Proof.
  induction fuel as [|fuel IH]; intros block inSummary t block' rest Hat H.
  - cbn [Parser.parseRows] in H.
    assert (block' = block ∧ rest = t) as [-> ->].
    { destruct (Parser.readLine t) as [[line rest0]|]; [|by inversion H].
      destruct (_ || _); [by inversion H|discriminate]. }
    split; [by apply at_line_rest_of|]. exists [], []. by rewrite !app_nil_r.
  - assert (Hstop : block' = block → rest = t →
      Law.rest_of text rest ∧
      ∃ rs ss, rows block' = rows block ++ rs ∧
        summaryRows block' = summaryRows block ++ ss ∧
        Forall (Spec.from_line_of text (fields block)) (rs ++ ss)).
    { intros -> ->. split; [by apply at_line_rest_of|].
      exists [], []. by rewrite !app_nil_r. }
    destruct (Parser.readLine t) as [[line rest0]|] eqn:Hr.
    2: { rewrite parseRows_stop in H by (by rewrite Hr). inversion H; subst; by apply Hstop. }
    destruct (Js.isEmpty line || Re.isHeaderLike line) eqn:Hc.
    { rewrite parseRows_stop in H by (by rewrite Hr). inversion H; subst; by apply Hstop. }
    pose proof (readLine_rest text t line rest0 (at_line_rest_of _ _ Hat) Hr) as Hat0.
    destruct (readLine_at_line text t line rest0 Hat Hr) as (l & Hl & ->).
    rewrite (parseRows_step _ _ _ _ _ _ Hr Hc) in H.
    destruct (Js.startsWith "#" (Js.trim l)); [by apply IH in H|].
    destruct (String.eqb _ _); [by apply IH in H|].
    destruct (Parser.tokenizeLine (Js.trim l)) as [values| |] eqn:Ht; simpl in H; try done.
    destruct values as [|v values].
    { inversion H; subst. split; [by apply at_line_rest_of|].
      exists [], []. by rewrite !app_nil_r. }
    destruct (Parser.fillRow _ _ _) as [row| |] eqn:Hf; simpl in H; try done.
    assert (Hrow : Spec.from_line_of text (fields block) row).
    { exists l, (v :: values). do 3 (split; [done|]). by apply filled_from_fillRow. }
    destruct inSummary;
      apply IH in H as (Hrest & rs & ss & Hrows & Hsum & Hall); try done;
      simpl in Hrows, Hsum, Hall; (split; [done|]).
    + exists rs, (row :: ss). rewrite Hrows, Hsum, <- app_assoc.
      repeat split; try done. apply Forall_app in Hall as [H1 H2].
      apply Forall_app. split; [done|by constructor].
    + exists (row :: rs), ss. rewrite Hrows, Hsum, <- app_assoc.
      repeat split; try done. by constructor.
Qed.

Lemma parseBlock_lines text t ob rest :
  Law.rest_of text t → Parser.parseBlock t = Ok (ob, rest) →
  Law.rest_of text rest ∧
  ∀ b, ob = Some b →
    Forall (Spec.from_line_of text (fields b)) (rows b ++ summaryRows b).
Proof.
  intros Hrest H. destruct ob as [b|].
  - apply parseBlock_Some in H.
    destruct H as (headerLine & rest0 & dotIndex & Hr & _ & _ & _ & Hcases).
    pose proof (readLine_rest _ _ _ _ Hrest Hr) as Hat0.
    pose proof (proj2 (rest_of_skip text rest0 (at_line_rest_of _ _ Hat0))) as Hrest1.
    destruct Hcases as [(_ & -> & ->)|(fieldsLine & rest2 & Hr2 & Hcases)].
    { split; [done|]. intros b' [= <-]. constructor. }
    pose proof (readLine_rest _ _ _ _ Hrest1 Hr2) as Hat2.
    destruct Hcases as [(_ & -> & ->)|(fieldTokens & _ & _ & Hp)].
    { split; [by apply at_line_rest_of|]. intros b' [= <-]. constructor. }
    pose proof (parseRows_appends _ _ _ _ _ _ Hp) as (_ & _ & Hfs & _).
    apply (parseRows_lines text) in Hp as (Hrest3 & rs & ss & Hrows & Hsum & Hall);
      [|done].
    split; [done|]. intros b' [= <-]. rewrite Hrows, Hsum, Hfs.
    destruct (addFields_rows fieldTokens (newBlock
      (Js.trim (Js.substringTo dotIndex headerLine))
      (Js.trim (Js.substringFrom (S dotIndex) headerLine)))) as (-> & -> & _).
    done.
  - split; [|done]. apply parseBlock_None in H as [[-> ->]|[line Hr]]; [done|].
    apply at_line_rest_of. by eapply readLine_rest.
Qed.

Lemma parseBlocks_lines text fuel : ∀ doc t doc',
  Law.rest_of text t → Parser.parseBlocks fuel doc t = Ok doc' →
  Forall (λ b, Forall (Spec.from_line_of text (fields b)) (rows b ++ summaryRows b))
    (blocks doc) →
  Forall (λ b, Forall (Spec.from_line_of text (fields b)) (rows b ++ summaryRows b))
    (blocks doc').
Proof.
  induction fuel as [|fuel IH]; intros doc t doc' Hrest H Hdoc.
  - destruct t; [|discriminate]. by inversion H; subst.
  - destruct (decide (t = "")) as [->|Hne]; [by inversion H; subst|].
    rewrite parseBlocks_step in H by done.
    destruct (Parser.parseBlock t) as [[ob rest]| |] eqn:Hb; simpl in H; try done.
    destruct (parseBlock_lines text t ob rest Hrest Hb) as [Hrest' Hrows].
    eapply IH; [|exact H|].
    + by apply rest_of_skip.
    + destruct ob as [b|]; simpl; [|done].
      apply Forall_app. split; [done|]. constructor; [|constructor]. by apply Hrows.
Qed.

(** C2, amended. Every data row and summary row of a parsed block comes
    from one line of the text, and is filled from the tokens of that line
    position by position, for the positions below both the number of fields
    and the number of tokens: under a field name other than [__proto__] the
    row holds the value inferred from the token at the last position where
    the name is declared, and it has no entry under a name that is declared
    at none of these positions.  So a field beyond the tokens of the line is
    left out of the row, not set to [null], which the second part shows to
    be no error: a line is read into a row whenever the tokens that have a
    field have a value, however few they are; and the tokens beyond the
    fields are dropped. *)
Theorem parsed_rows_follow_tokens (text : string) (doc : Document)
    (b : Block) (r : Row) :
  parse text = Ok doc → b ∈ blocks doc → r ∈ rows b ++ summaryRows b →
  (∃ l tokens,
     l ∈ Js.split Js.LF text ∧
     Parser.tokenizeLine (Js.trim l) = Ok tokens ∧ tokens ≠ [] ∧
     Spec.filled_from (fields b) tokens r) ∧
  (∀ tokens,
     (∀ t, t ∈ take (length (fields b)) tokens → ∃ v, Parser.parseValue t = Ok v) →
     ∃ r', Parser.fillRow ∅ (fields b) tokens = Ok r').
Proof.
  intros Hparse Hb Hr. split; [|intros tokens; apply fillRow_succeeds].
  unfold parse, Parser.parse in Hparse.
  apply (parseBlocks_lines text) in Hparse; [| |by constructor].
  - rewrite Forall_forall in Hparse. specialize (Hparse b Hb).
    rewrite Forall_forall in Hparse. exact (Hparse r Hr).
  - apply rest_of_skip. by exists "".
Qed.

Lemma parsed_rows_follow_tokens_witness :
  (∃ l tokens,
     l ∈ Js.split Js.LF Ex.short_row_text ∧
     Parser.tokenizeLine (Js.trim l) = Ok tokens ∧ tokens ≠ [] ∧
     Spec.filled_from (fields Ex.short_row_block) tokens Ex.short_row_row) ∧
  (∀ tokens,
     (∀ t, t ∈ take (length (fields Ex.short_row_block)) tokens →
           ∃ v, Parser.parseValue t = Ok v) →
     ∃ r', Parser.fillRow ∅ (fields Ex.short_row_block) tokens = Ok r').
Proof.
  apply (parsed_rows_follow_tokens Ex.short_row_text Ex.short_row_doc).
  - vm_compute. reflexivity.
  - vm_compute. left.
  - vm_compute. left.
Defined.

End RowLines.

(* ===================================================================== *)
(** ** The lines of the rows of a block                                   *)
(* ===================================================================== *)

Section RowItems.

Lemma item_line_shape fs l item :
  Spec.item_line fs l item → Js.includes Js.LF l = false ∧ l ≠ "".
Proof.
  destruct item; cbn [Spec.item_line].
  - intros Hd. split; [by destruct Hd|by eapply data_line_nonempty].
  - intros [Hl Ht]. split; [done|]. by intros ->.
  - intros [Hl Ht]. split; [done|]. by intros ->.
Qed.

(** One line among the rows of a block: one iteration of the row loop. *)
Lemma parseRows_item fuel block inSummary l ls item :
  Spec.item_line (fields block) l item →
  Parser.parseRows (S fuel) block inSummary (text_of_lines (l :: ls)) =
  match item with
  | Spec.Data row =>
      Parser.parseRows fuel
        (if inSummary then Parser.pushSummaryRow block row
         else Parser.pushRow block row)
        inSummary (text_of_lines ls)
  | Spec.Separator => Parser.parseRows fuel block true (text_of_lines ls)
  | Spec.Comment => Parser.parseRows fuel block inSummary (text_of_lines ls)
  end.
Proof.
  intros Hitem. destruct (item_line_shape _ _ _ Hitem) as [Hl Hne].
  destruct item as [row| |]; cbn [Spec.item_line] in Hitem.
  - by apply parseRows_data_line.
  - destruct Hitem as [_ Ht]. apply parseRows_separator.
    by rewrite readLine_lines, Ht.
  - destruct Hitem as [_ Ht].
    rewrite (parseRows_step _ _ _ _ _ _ (readLine_lines l ls Hl Hne)).
    + by rewrite Ht.
    + destruct (Js.trim l) as [|c s]; [done|].
      change (Js.startsWith "#" (String c s)) with (Ascii.eqb "#" c && true) in Ht.
      apply andb_true_iff in Ht as [Hc _].
      apply Ascii.eqb_eq in Hc. by subst c.
Qed.

(** The row loop stops at a line that ends the block, and leaves it there. *)
Lemma parseRows_ends fuel block inSummary tail :
  Spec.ends_block tail →
  Parser.parseRows fuel block inSummary (text_of_lines tail) =
  Ok (block, text_of_lines tail).
Proof.
  intros Hend. apply parseRows_stop.
  destruct tail as [|l more]; [done|]. destruct Hend as [Hl Hstop].
  destruct (decide (l = "")) as [->|Hne].
  - destruct more as [|l' more]; [done|].
    rewrite text_of_lines_cons, append_empty_l. reflexivity.
  - by rewrite readLine_lines.
Qed.

(** The row loop over the lines of the rows of a block, up to the line that
    ends the block: the data lines give the rows until the first separator
    and the summary rows from there on. *)
Lemma parseRows_items ls : ∀ items fuel block inSummary tail,
  Forall2 (Spec.item_line (fields block)) ls items →
  Spec.ends_block tail →
  length ls ≤ fuel →
  Parser.parseRows fuel block inSummary (text_of_lines (ls ++ tail)) =
  Ok (if inSummary then Spec.with_rows block [] (Spec.data_rows items)
      else Spec.with_rows block (Spec.rows_before items) (Spec.rows_after items),
      text_of_lines tail).
Proof.
  induction ls as [|l ls IH]; intros items fuel block inSummary tail Hall Hend Hfuel.
  - inversion Hall; subst. cbn [app Spec.data_rows Spec.rows_before Spec.rows_after
      Spec.after_separator]. rewrite with_rows_nil.
    rewrite parseRows_ends by done. by destruct inSummary.
  - inversion Hall as [|? item ? items' Hitem Hrest]; subst.
    destruct fuel as [|fuel]; [simpl in Hfuel; lia|]. simpl in Hfuel.
    rewrite <- app_comm_cons, (parseRows_item _ _ _ _ _ _ Hitem).
    destruct item as [row| |].
    + destruct inSummary.
      * rewrite (IH items'); [|exact Hrest|done|lia].
        cbn [Spec.data_rows]. by rewrite with_rows_pushSummaryRow.
      * rewrite (IH items'); [|exact Hrest|done|lia].
        cbn [Spec.rows_before]. unfold Spec.rows_after.
        cbn [Spec.after_separator]. by rewrite with_rows_pushRow.
    + rewrite (IH items'); [|exact Hrest|done|lia].
      by destruct inSummary.
    + rewrite (IH items'); [|exact Hrest|done|lia].
      by destruct inSummary.
Qed.

Lemma length_text_of_lines_cons l ls :
  String.length (text_of_lines ls) + String.length l ≤
  String.length (text_of_lines (l :: ls)).
Proof.
  destruct ls as [|l' ls].
  - change (text_of_lines [l]) with l. change (text_of_lines []) with "".
    simpl. lia.
  - rewrite text_of_lines_cons, length_append. simpl. lia.
Qed.

(** A text has at least as many characters as it has lines that are not
    empty. *)
Lemma length_lines ls tail :
  Forall (λ l, l ≠ "") ls →
  String.length (text_of_lines tail) + length ls ≤
  String.length (text_of_lines (ls ++ tail)).
Proof.
  induction 1 as [|l ls Hl _ IH]; [simpl; lia|].
  rewrite <- app_comm_cons.
  pose proof (length_text_of_lines_cons l (ls ++ tail)) as Hc.
  destruct l; [done|]. simpl in *. lia.
Qed.

Lemma items_nonempty fs ls items :
  Forall2 (Spec.item_line fs) ls items → Forall (λ l, l ≠ "") ls.
Proof.
  induction 1 as [|l item ls items Hitem _ IH]; constructor; [|done].
  by destruct (item_line_shape _ _ _ Hitem).
Qed.

(** C8, amended. In the row loop, the lines [ls] of the rows of a block, each
    a data line, a comment or a line that is [---] once trimmed, are read up
    to the lines [tail] that end the block: the end of the text, a blank line
    or a line that looks like a header.  The first separator puts the loop in
    summary mode, and the mode stays until the block ends, whatever follows:
    the rows of the block are the rows of the data lines before the first
    separator, its summary rows are the rows of all the data lines after it,
    one row per line and in order, each filled from the fields like a data
    row, and the rest of the text is [tail].  The summary is not cut down to
    one row, and a further separator changes nothing.  This holds with the
    fuel that [parseBlock] gives the loop, the length of the text, and with
    any larger one. *)
Theorem summary_keeps_every_line_after_separator (fuel : nat) (block : Block)
    (ls tail : list string) (items : list Spec.Item) :
  Forall2 (Spec.item_line (fields block)) ls items →
  Spec.ends_block tail →
  String.length (text_of_lines (ls ++ tail)) ≤ fuel →
  Parser.parseRows fuel block false (text_of_lines (ls ++ tail)) =
  Ok (Spec.with_rows block (Spec.rows_before items) (Spec.rows_after items),
      text_of_lines tail).
Proof.
  intros Hall Hend Hfuel.
  pose proof (length_lines ls tail (items_nonempty _ _ _ Hall)) as Hlen.
  rewrite (parseRows_items ls items fuel block false tail); [done..|lia].
Qed.

Lemma summary_keeps_every_line_after_separator_witness :
  Parser.parseRows 40 Ex.block_a false
    (text_of_lines
       (["1"; " --- "; "2"; "# a comment"; "---"; "3"] ++ ["object.u"; "b"; "5"])) =
  Ok (Spec.with_rows Ex.block_a
        (Spec.rows_before
           [Spec.Data Ex.row_a1; Spec.Separator; Spec.Data Ex.row_a2;
            Spec.Comment; Spec.Separator; Spec.Data Ex.row_a3])
        (Spec.rows_after
           [Spec.Data Ex.row_a1; Spec.Separator; Spec.Data Ex.row_a2;
            Spec.Comment; Spec.Separator; Spec.Data Ex.row_a3]),
      text_of_lines ["object.u"; "b"; "5"]).
Proof.
  apply (summary_keeps_every_line_after_separator 40 Ex.block_a).
  - constructor; [data_line_by_evaluation ["1"]|].
    constructor; [split; vm_compute; reflexivity|].
    constructor; [data_line_by_evaluation ["2"]|].
    constructor; [split; vm_compute; reflexivity|].
    constructor; [split; vm_compute; reflexivity|].
    constructor; [data_line_by_evaluation ["3"]|constructor].
  - split; vm_compute; reflexivity.
  - vm_compute. lia.
Defined.

End RowItems.

(* ===================================================================== *)
(** ** Texts of several blocks                                            *)
(* ===================================================================== *)

Section BlockTexts.


















End BlockTexts.
